(** * Stockfish search core: a shallow embedding of search.cpp and uci.cpp

    The development follows the two source files of the repository:
    [search.cpp] (transposition-table helpers, the polling set-up of
    [think], the aspiration window of [id_loop], [check_is_dangerous],
    [search] and [qsearch]) and the UCI front end ([set_position]).

    C++ [int] and the enums built on it ([Value], [Depth], [Move], ...)
    are modelled by [Z].  Signed overflow is undefined in C++, so no
    wrap-around is written out for them: the engine keeps every score
    within [-VALUE_INFINITE, VALUE_NONE] and every ply within
    [0, PLY_MAX + 2].  The exception is [value_to_tt] and
    [value_from_tt], whose results are stated for every value: their
    additions are those of a 32-bit [int] that wraps around ([to_int]).
    Integer division is C++'s truncating division,
    [Z.quot].  [Bitboard] is an unsigned 64-bit word, modelled by a [Z]
    in [0, 2^64) with its complement written out. *)

From Stdlib Require Import ZArith List Bool Lia String Ascii DecimalString.
Import ListNotations.
Local Open Scope Z_scope.

(** ** Scalar types (types.h, depth.h, move.h, tt.h) *)

Definition Value := Z.
Definition Depth := Z.
Definition Move := Z.
Definition Key := Z.
Definition Square := Z.
Definition Piece := Z.
Definition PieceType := Z.
Definition Color := Z.
Definition Rank := Z.
Definition ValueType := Z.
Definition Bitboard := Z.

(** The headers that declare the engine's constants and the small helpers
    on moves and pieces are not among the sources at hand.  They are taken
    as parameters: every result below holds for any choice of them. *)
Class Types := {
  ONE_PLY : Depth;
  PLY_MAX : Z;
  MAX_MOVES : Z;
  VALUE_DRAW : Value;
  VALUE_KNOWN_WIN : Value;
  VALUE_MATE : Value;
  VALUE_INFINITE : Value;
  VALUE_NONE : Value;
  VALUE_MATE_IN_PLY_MAX : Value;
  VALUE_MATED_IN_PLY_MAX : Value;
  value_mate_in : Z -> Value;
  value_mated_in : Z -> Value;
  PawnValueMidgame : Value;
  PawnValueEndgame : Value;
  RookValueMidgame : Value;
  PieceValueMidgame : Piece -> Value;
  PieceValueEndgame : Piece -> Value;
  DEPTH_QS_CHECKS : Depth;
  DEPTH_QS_NO_CHECKS : Depth;
  DEPTH_NONE : Depth;
  MOVE_NONE : Move;
  MOVE_NULL : Move;
  VALUE_TYPE_NONE : ValueType;
  VALUE_TYPE_UPPER : ValueType;
  VALUE_TYPE_LOWER : ValueType;
  VALUE_TYPE_EXACT : ValueType;
  PIECE_TYPE_NONE : PieceType;
  PAWN : PieceType;
  QUEEN : PieceType;
  KING : PieceType;
  WHITE : Color;
  BLACK : Color;
  RANK_7 : Rank;
  type_of : Piece -> PieceType;
  flip : Color -> Color;
  relative_rank : Color -> Square -> Rank;
  move_from : Move -> Square;
  move_to : Move -> Square;
  make_move : Square -> Square -> Move;
  is_special : Move -> bool;
  is_castle : Move -> bool;
  is_promotion : Move -> bool;
  is_enpassant : Move -> bool
}.

Definition VALUE_ZERO : Value := 0.
Definition DEPTH_ZERO : Depth := 0.

(** Conversion of an integer to [bool], as C++ does in a condition. *)
Definition truthy (z : Z) : bool := negb (z =? 0).

(** ** Transposition-table entries (the accessors of tt.h) *)

Record TTEntry := {
  tte_move : Move;
  tte_value : Value;
  tte_type : ValueType;
  tte_depth : Depth;
  tte_static_value : Value;
  tte_static_value_margin : Value
}.

Section TTHelpers.
Context `{Types}.

(** Step 6: maximum depth for razoring and the razoring margin. *)
Definition RazorDepth : Depth := 4 * ONE_PLY.

Definition razor_margin (d : Depth) : Value := 512 + 16 * d.

Definition ThreatDepth : Depth := 5 * ONE_PLY.

Definition IIDDepth (pv : bool) : Depth :=
  if pv then 5 * ONE_PLY else 8 * ONE_PLY.

Definition IIDMargin : Value := 256.

Definition CheckExtension (pv : bool) : Depth :=
  if pv then Z.quot ONE_PLY 1 else Z.quot ONE_PLY 2.
Definition PawnEndgameExtension (pv : bool) : Depth := Z.quot ONE_PLY 1.
Definition PawnPushTo7thExtension (pv : bool) : Depth := Z.quot ONE_PLY 2.
Definition PassedPawnExtension (pv : bool) : Depth :=
  if pv then Z.quot ONE_PLY 2 else DEPTH_ZERO.

Definition SingularExtensionDepth (pv : bool) : Depth :=
  if pv then 6 * ONE_PLY else 8 * ONE_PLY.

Definition FutilityMarginQS : Value := 128.

Definition EasyMoveMargin : Value := 512.

(** C++ [unsigned] is 32 bits wide: conversion of an [int] to it, and
    back.  [to_int z] is also what a 32-bit [int] holds after an
    addition whose exact result is [z], on a machine that wraps around. *)
Definition to_unsigned (z : Z) : Z := z mod 2 ^ 32.

Definition to_int (z : Z) : Z :=
  let u := z mod 2 ^ 32 in
  if u <? 2 ^ 31 then u else u - 2 ^ 32.

(** The values of a 32-bit [int]. *)
Definition fits_int (z : Z) : Prop := - 2 ^ 31 <= z < 2 ^ 31.

(** [value_to_tt] adjusts a mate score from "plies to mate from the root"
    to "plies to mate from the current ply".  [v + ply] and [v - ply] are
    [int] additions. *)
Definition value_to_tt (v : Value) (ply : Z) : Value :=
  if v >=? VALUE_MATE_IN_PLY_MAX then to_int (v + ply)
  else if v <=? VALUE_MATED_IN_PLY_MAX then to_int (v - ply)
  else v.

(** [value_from_tt] is the inverse adjustment, applied on load. *)
Definition value_from_tt (v : Value) (ply : Z) : Value :=
  if v >=? VALUE_MATE_IN_PLY_MAX then to_int (v - ply)
  else if v <=? VALUE_MATED_IN_PLY_MAX then to_int (v + ply)
  else v.


(** [tte->type() & VALUE_TYPE_x] used as a condition. *)
Definition type_has (t mask : ValueType) : bool := truthy (Z.land t mask).

(** The entry's type carries a bit of [mask]. *)
Definition has_bit (t mask : ValueType) : Prop := Z.land t mask <> 0.

(** [can_return_tt] tells whether a transposition-table score can be
    used to cut off at a given point in search. *)
Definition can_return_tt (tte : TTEntry) (depth : Depth) (beta : Value)
  (ply : Z) : bool :=
  let v := value_from_tt (tte_value tte) ply in
  ((tte_depth tte >=? depth)
   || (v >=? Z.max VALUE_MATE_IN_PLY_MAX beta)
   || (v <? Z.min VALUE_MATED_IN_PLY_MAX beta))
  && ((type_has (tte_type tte) VALUE_TYPE_LOWER && (v >=? beta))
      || (type_has (tte_type tte) VALUE_TYPE_UPPER && (v <? beta))).

(** [refine_eval] returns the transposition-table score if possible,
    otherwise falls back on the static evaluation. *)
Definition refine_eval (tte : TTEntry) (defaultEval : Value) (ply : Z)
  : Value :=
  let v := value_from_tt (tte_value tte) ply in
  if (type_has (tte_type tte) VALUE_TYPE_LOWER && (v >=? defaultEval))
     || (type_has (tte_type tte) VALUE_TYPE_UPPER && (v <? defaultEval))
  then v else defaultEval.

End TTHelpers.

(** ** think(): the polling interval (search.cpp, lines 374-382) *)

Record SearchLimits := {
  time : Z;
  increment : Z;
  movesToGo : Z;
  maxTime : Z;
  maxDepth : Z;
  maxNodes : Z;
  infinite : bool;
  ponder : bool
}.

(** The value [think] gives [NodesBetweenPolls] once [Limits] is set. *)
Definition think_NodesBetweenPolls (Limits : SearchLimits) : Z :=
  if truthy (maxNodes Limits) then Z.min (maxNodes Limits) 30000
  else if truthy (time Limits) && (time Limits <? 1000) then 1000
  else if truthy (time Limits) && (time Limits <? 5000) then 5000
  else 30000.

(** The polling claim as the specification words it: the interval follows
    the time budget alone, and a node limit caps it. *)
Definition polling_as_specified (Limits : SearchLimits) : Prop :=
  let n := think_NodesBetweenPolls Limits in
  (0 < time Limits < 1000 -> n = 1000)
  /\ (1000 <= time Limits < 5000 -> n = 5000)
  /\ (~ 0 < time Limits < 5000 -> n = 30000)
  /\ (maxNodes Limits <> 0 -> n <= maxNodes Limits).

(** ** Root moves and the aspiration window of id_loop() *)

Record RootMove := {
  nodes : Z;
  score : Value;
  prevScore : Value;
  pv : list Move
}.

Section IdLoop.
Context `{Types}.

(** Lines 532-548 of [id_loop]: the window with which the root search of
    iteration [depth] starts for the line [MultiPVIdx].  The result is the
    new [(aspirationDelta, alpha, beta)].  [bestValues] is the array of the
    scores of the previous iterations.  The enclosing loop keeps
    [MultiPVIdx] below [Rml.size()]; an index outside the vector has no
    defined behaviour and gives [None]. *)
Definition id_loop_aspiration (depth : Z) (Rml : list RootMove)
  (MultiPVIdx : Z) (bestValues : Z -> Value) (aspirationDelta : Z)
  : option (Z * Value * Value) :=
  if MultiPVIdx <? 0 then None else
  match nth_error Rml (Z.to_nat MultiPVIdx) with
  | None => None
  | Some rm =>
    if (depth >=? 5) && (Z.abs (prevScore rm) <? VALUE_KNOWN_WIN) then
      let prevDelta1 := bestValues (depth - 1) - bestValues (depth - 2) in
      let prevDelta2 := bestValues (depth - 2) - bestValues (depth - 3) in
      let aspirationDelta :=
        Z.min (Z.max (Z.abs prevDelta1 + Z.quot (Z.abs prevDelta2) 2) 16) 24 in
      let aspirationDelta := Z.quot (aspirationDelta + 7) 8 * 8 in
      Some (aspirationDelta,
            Z.max (prevScore rm - aspirationDelta) (- VALUE_INFINITE),
            Z.min (prevScore rm + aspirationDelta) VALUE_INFINITE)
    else
      Some (aspirationDelta, - VALUE_INFINITE, VALUE_INFINITE)
  end.

End IdLoop.

(** ** The position (position.h, movegen.h, evaluate.h)

    [Position], its queries, move making and the static evaluation are
    external collaborators of the search core: they are an interface here.
    [StateInfo] arguments, which only lend storage to [do_move], are left
    out. *)
Class PositionOps := {
  Position : Type;
  CheckInfo : Type;
  from_fen : Position -> string -> bool -> Position;
  move_from_uci : Position -> string -> Move;
  do_move : Position -> Move -> Position;
  do_move_ci : Position -> Move -> CheckInfo -> bool -> Position;
  undo_move : Position -> Move -> Position;
  do_null_move : bool -> Position -> Position;
  thread : Position -> Z;
  in_check : Position -> bool;
  is_draw : bool -> Position -> bool;
  get_key : Position -> Key;
  get_exclusion_key : Position -> Key;
  side_to_move : Position -> Color;
  piece_on : Position -> Square -> Piece;
  is_capture_or_promotion : Position -> Move -> bool;
  is_capture : Position -> Move -> bool;
  captured_piece_type : Position -> PieceType;
  has_pawn_on_7th : Position -> Color -> bool;
  non_pawn_material : Position -> Color -> Value;
  pawn_is_passed : Position -> Color -> Square -> bool;
  is_passed_pawn_push : Position -> Move -> bool;
  can_castle : Position -> Color -> bool;
  pl_move_is_legal : Position -> Move -> Bitboard -> bool;
  is_pseudo_legal : Position -> Move -> bool;
  pinned_pieces : Position -> Bitboard;
  move_gives_check : Position -> Move -> CheckInfo -> bool;
  see_sign : Position -> Move -> Z;
  see : Position -> Move -> Z;
  nodes_searched : Position -> Z;
  king_square : Position -> Color -> Square;
  occupied_squares : Position -> Bitboard;
  pieces : Position -> Color -> Bitboard;
  attacks_from : Position -> Piece -> Square -> Bitboard -> Bitboard;
  attacks_from_here : Position -> Piece -> Square -> Bitboard;
  attacks_from_KING : Position -> Square -> Bitboard;
  move_attacks_square : Position -> Move -> Square -> bool;
  check_info : Position -> CheckInfo;
  pinned : CheckInfo -> Bitboard;
  evaluate : Position -> Value * Value
}.

(** ** Bitboards (bitboard.h) *)

(** [~b] on 64 bits. *)
Definition bb_not (b : Bitboard) : Bitboard := Z.land (Z.lnot b) (Z.ones 64).

(** [1ULL << s]. *)
Definition bb_bit (s : Square) : Bitboard := Z.shiftl 1 s.

(** The 64 squares, and those that are set in a bitboard. *)
Definition all_squares : list Square := map Z.of_nat (seq 0 64).

Definition bb_squares (b : Bitboard) : list Square :=
  filter (Z.testbit b) all_squares.

(** The helpers of bitboard.h that the search core calls. *)
Class BitboardOps := {
  bit_is_set : Bitboard -> Square -> bool;
  clear_bit : Bitboard -> Square -> Bitboard;
  squares_between : Square -> Square -> Bitboard;
  pop_1st_bit : Bitboard -> Square * Bitboard
}.

(** What the callers of [pop_1st_bit] rely on: it takes one set square
    out of a non-empty bitboard and returns it. *)
Definition pop_1st_bit_pops `{BitboardOps} : Prop :=
  forall b : Bitboard, 0 < b < 2 ^ 64 ->
    0 <= fst (pop_1st_bit b)
    /\ Z.testbit b (fst (pop_1st_bit b)) = true
    /\ snd (pop_1st_bit b) = Z.clearbit b (fst (pop_1st_bit b)).

(** Lookup table to check if a piece is a slider. *)
Definition Slidings : list bool :=
  [false; false; false; true; true; true; false; false; false; false;
   false; true; true; true; false; false; false; false].

Definition piece_is_slider (p : Piece) : bool :=
  (0 <=? p) && nth (Z.to_nat p) Slidings false.

Section Tactics.
Context `{Types} `{PositionOps} `{BitboardOps}.

(** The loop of rule 3 of [check_is_dangerous] over the victims [b].
    [Some None] stands for [return true] from inside the loop,
    [Some (Some bv)] for the end of the loop with the local [bv]; the
    fuel bounds the number of iterations, 64 being enough for a
    bitboard. *)
Fixpoint check_is_dangerous_victims (fuel : nat) (pos : Position)
  (from : Square) (futilityBase beta : Value) (b : Bitboard) (bv : Value)
  : option (option Value) :=
  if negb (truthy b) then Some (Some bv)
  else
    match fuel with
    | O => None
    | S fuel =>
      let '(victimSq, b) := pop_1st_bit b in
      let futilityValue :=
        futilityBase + PieceValueEndgame (piece_on pos victimSq) in
      (* Note that here we generate illegal "double move"! *)
      if (futilityValue >=? beta)
         && (see_sign pos (make_move from victimSq) >=? 0)
      then Some None
      else
        let bv := if futilityValue >? bv then futilityValue else bv in
        check_is_dangerous_victims fuel pos from futilityBase beta b bv
    end.

(** The victims of rule 3: the opponent's pieces that the checking piece
    attacks from its new square and did not attack before. *)
Definition check_is_dangerous_newly_attacked (pos : Position) (move : Move)
  : Bitboard :=
  let from := move_from move in
  let to := move_to move in
  let them := flip (side_to_move pos) in
  let ksq := king_square pos them in
  let pc := piece_on pos from in
  let occ :=
    Z.land (Z.land (occupied_squares pos) (bb_not (bb_bit from)))
           (bb_not (bb_bit ksq)) in
  let oldAtt := attacks_from pos pc from occ in
  let newAtt := attacks_from pos pc to occ in
  Z.land (Z.land (Z.land (pieces pos them) newAtt) (bb_not oldAtt))
         (bb_not (bb_bit ksq)).

(** [check_is_dangerous] tests if a checking move can be pruned in
    [qsearch].  The result is the returned flag together with the content
    of [*bestValue] after the call, [bestValue] being its content before;
    [None] is a run out of fuel. *)
Definition check_is_dangerous (pos : Position) (move : Move)
  (futilityBase beta : Value) (bestValue : Value) : option (bool * Value) :=
  let bv := bestValue in
  let from := move_from move in
  let to := move_to move in
  let them := flip (side_to_move pos) in
  let ksq := king_square pos them in
  let kingAtt := attacks_from_KING pos ksq in
  let pc := piece_on pos from in
  let occ :=
    Z.land (Z.land (occupied_squares pos) (bb_not (bb_bit from)))
           (bb_not (bb_bit ksq)) in
  let oldAtt := attacks_from pos pc from occ in
  let newAtt := attacks_from pos pc to occ in
  (* Rule 1. Checks which give opponent's king at most one escape square *)
  let b :=
    Z.land (Z.land (Z.land kingAtt (bb_not (pieces pos them)))
                   (bb_not newAtt))
           (bb_not (bb_bit to)) in
  if negb (truthy b && truthy (Z.land b (b - 1))) then Some (true, bestValue)
  (* Rule 2. Queen contact check is very dangerous *)
  else if (type_of pc =? QUEEN) && bit_is_set kingAtt to
  then Some (true, bestValue)
  else
    (* Rule 3. Creating new double threats with checks *)
    let b :=
      Z.land (Z.land (Z.land (pieces pos them) newAtt) (bb_not oldAtt))
             (bb_not (bb_bit ksq)) in
    match check_is_dangerous_victims 64 pos from futilityBase beta b bv with
    | None => None
    | Some None => Some (true, bestValue)
    | Some (Some bv) => Some (false, bv)
    end.

(** The futility value that rule 3 computes for a victim. *)
Definition victim_futility (pos : Position) (futilityBase : Value)
  (victimSq : Square) : Value :=
  futilityBase + PieceValueEndgame (piece_on pos victimSq).

(** [connected_moves] tests whether two moves are connected in the sense
    that the first move somehow made the second move possible. *)
Definition connected_moves (pos : Position) (m1 m2 : Move) : bool :=
  (* Case 1: The moving piece is the same in both moves *)
  let f2 := move_from m2 in
  let t1 := move_to m1 in
  if f2 =? t1 then true else
  (* Case 2: The destination square for m2 was vacated by m1 *)
  let t2 := move_to m2 in
  let f1 := move_from m1 in
  if t2 =? f1 then true else
  (* Case 3: Moving through the vacated square *)
  let p2 := piece_on pos f2 in
  if piece_is_slider p2 && bit_is_set (squares_between f2 t2) f1 then true
  else
  (* Case 4: The destination square for m2 is defended by the moving piece *)
  let p1 := piece_on pos t1 in
  if bit_is_set (attacks_from_here pos p1 t1) t2 then true else
  (* Case 5: Discovered check, checking piece is the piece moved in m1 *)
  let ksq := king_square pos (side_to_move pos) in
  if piece_is_slider p1 && bit_is_set (squares_between t1 ksq) f2 then
    let occ := clear_bit (occupied_squares pos) f2 in
    if bit_is_set (attacks_from pos p1 t1 occ) ksq then true else false
  else false.

(** [connected_threat] tests whether it is safe to forward prune a move
    or if it is somehow connected to the threat move returned by the null
    search. *)
Definition connected_threat (pos : Position) (m threat : Move) : bool :=
  let mfrom := move_from m in
  let mto := move_to m in
  let tfrom := move_from threat in
  let tto := move_to threat in
  (* Case 1: Don't prune moves which move the threatened piece *)
  if mfrom =? tto then true else
  (* Case 2: the threatened piece is worth no more than the attacker *)
  if is_capture pos threat
     && ((PieceValueMidgame (piece_on pos tfrom)
            >=? PieceValueMidgame (piece_on pos tto))
         || (type_of (piece_on pos tfrom) =? KING))
     && move_attacks_square pos m tto
  then true else
  (* Case 3: don't prune safe moves which block a slider's ray *)
  if piece_is_slider (piece_on pos tfrom)
     && bit_is_set (squares_between tfrom tto) mto
     && (see_sign pos m >=? 0)
  then true else false.

(** [extension] decides whether a move should be searched with normal
    or extended depth; the second component is the flag [*dangerous]. *)
Definition extension (PvNode : bool) (pos : Position) (m : Move)
  (captureOrPromotion moveIsCheck : bool) : Depth * bool :=
  let result := DEPTH_ZERO in
  let dangerous := moveIsCheck in
  let result :=
    if moveIsCheck && (see_sign pos m >=? 0)
    then result + CheckExtension PvNode else result in
  let '(result, dangerous) :=
    if type_of (piece_on pos (move_from m)) =? PAWN then
      let c := side_to_move pos in
      let '(result, dangerous) :=
        if relative_rank c (move_to m) =? RANK_7
        then (result + PawnPushTo7thExtension PvNode, true)
        else (result, dangerous) in
      if pawn_is_passed pos c (move_to m)
      then (result + PassedPawnExtension PvNode, true)
      else (result, dangerous)
    else (result, dangerous) in
  let '(result, dangerous) :=
    if captureOrPromotion
       && negb (type_of (piece_on pos (move_to m)) =? PAWN)
       && (non_pawn_material pos WHITE + non_pawn_material pos BLACK
           - PieceValueMidgame (piece_on pos (move_to m)) =? VALUE_ZERO)
       && negb (is_special m)
    then (result + PawnEndgameExtension PvNode, true)
    else (result, dangerous) in
  (Z.min result ONE_PLY, dangerous).

End Tactics.

(** ** The search stack and the other collaborators of search() *)

(** A frame of the search stack (search.h); [killers[2]] is two fields,
    [sp] is the pointer to a split point, kept as an index. *)
Record SearchStack := {
  ss_ply : Z;
  ss_currentMove : Move;
  ss_bestMove : Move;
  ss_killers0 : Move;
  ss_killers1 : Move;
  ss_eval : Value;
  ss_evalMargin : Value;
  ss_skipNullMove : bool;
  ss_reduction : Depth;
  ss_excludedMove : Move;
  ss_sp : Z
}.

Definition set_ply (v : Z) (f : SearchStack) : SearchStack :=
  {| ss_ply := v; ss_currentMove := ss_currentMove f;
     ss_bestMove := ss_bestMove f; ss_killers0 := ss_killers0 f;
     ss_killers1 := ss_killers1 f; ss_eval := ss_eval f;
     ss_evalMargin := ss_evalMargin f; ss_skipNullMove := ss_skipNullMove f;
     ss_reduction := ss_reduction f; ss_excludedMove := ss_excludedMove f;
     ss_sp := ss_sp f |}.

Definition set_currentMove (v : Move) (f : SearchStack) : SearchStack :=
  {| ss_ply := ss_ply f; ss_currentMove := v;
     ss_bestMove := ss_bestMove f; ss_killers0 := ss_killers0 f;
     ss_killers1 := ss_killers1 f; ss_eval := ss_eval f;
     ss_evalMargin := ss_evalMargin f; ss_skipNullMove := ss_skipNullMove f;
     ss_reduction := ss_reduction f; ss_excludedMove := ss_excludedMove f;
     ss_sp := ss_sp f |}.

Definition set_bestMove (v : Move) (f : SearchStack) : SearchStack :=
  {| ss_ply := ss_ply f; ss_currentMove := ss_currentMove f;
     ss_bestMove := v; ss_killers0 := ss_killers0 f;
     ss_killers1 := ss_killers1 f; ss_eval := ss_eval f;
     ss_evalMargin := ss_evalMargin f; ss_skipNullMove := ss_skipNullMove f;
     ss_reduction := ss_reduction f; ss_excludedMove := ss_excludedMove f;
     ss_sp := ss_sp f |}.

Definition set_killers (k0 k1 : Move) (f : SearchStack) : SearchStack :=
  {| ss_ply := ss_ply f; ss_currentMove := ss_currentMove f;
     ss_bestMove := ss_bestMove f; ss_killers0 := k0;
     ss_killers1 := k1; ss_eval := ss_eval f;
     ss_evalMargin := ss_evalMargin f; ss_skipNullMove := ss_skipNullMove f;
     ss_reduction := ss_reduction f; ss_excludedMove := ss_excludedMove f;
     ss_sp := ss_sp f |}.

Definition set_eval (e m : Value) (f : SearchStack) : SearchStack :=
  {| ss_ply := ss_ply f; ss_currentMove := ss_currentMove f;
     ss_bestMove := ss_bestMove f; ss_killers0 := ss_killers0 f;
     ss_killers1 := ss_killers1 f; ss_eval := e;
     ss_evalMargin := m; ss_skipNullMove := ss_skipNullMove f;
     ss_reduction := ss_reduction f; ss_excludedMove := ss_excludedMove f;
     ss_sp := ss_sp f |}.

Definition set_skipNullMove (v : bool) (f : SearchStack) : SearchStack :=
  {| ss_ply := ss_ply f; ss_currentMove := ss_currentMove f;
     ss_bestMove := ss_bestMove f; ss_killers0 := ss_killers0 f;
     ss_killers1 := ss_killers1 f; ss_eval := ss_eval f;
     ss_evalMargin := ss_evalMargin f; ss_skipNullMove := v;
     ss_reduction := ss_reduction f; ss_excludedMove := ss_excludedMove f;
     ss_sp := ss_sp f |}.

Definition set_reduction (v : Depth) (f : SearchStack) : SearchStack :=
  {| ss_ply := ss_ply f; ss_currentMove := ss_currentMove f;
     ss_bestMove := ss_bestMove f; ss_killers0 := ss_killers0 f;
     ss_killers1 := ss_killers1 f; ss_eval := ss_eval f;
     ss_evalMargin := ss_evalMargin f; ss_skipNullMove := ss_skipNullMove f;
     ss_reduction := v; ss_excludedMove := ss_excludedMove f;
     ss_sp := ss_sp f |}.

Definition set_excludedMove (v : Move) (f : SearchStack) : SearchStack :=
  {| ss_ply := ss_ply f; ss_currentMove := ss_currentMove f;
     ss_bestMove := ss_bestMove f; ss_killers0 := ss_killers0 f;
     ss_killers1 := ss_killers1 f; ss_eval := ss_eval f;
     ss_evalMargin := ss_evalMargin f; ss_skipNullMove := ss_skipNullMove f;
     ss_reduction := ss_reduction f; ss_excludedMove := v;
     ss_sp := ss_sp f |}.

(** The transposition table (tt.h): probing gives a pointer to an entry,
    kept as a slot number, through which the entry is read in the table
    as it is at the time of the read. *)
Class TableOps := {
  TranspositionTable : Type;
  tt_probe : TranspositionTable -> Key -> option Z;
  tt_entry : TranspositionTable -> Z -> TTEntry;
  tt_store : TranspositionTable -> Key -> Value -> ValueType -> Depth ->
             Move -> Value -> Value -> TranspositionTable;
  tt_refresh : TranspositionTable -> Z -> TranspositionTable
}.

(** The history table (history.h). *)
Class HistoryOps := {
  History : Type;
  h_gain : History -> Piece -> Square -> Value;
  h_update_gain : History -> Piece -> Square -> Value -> History;
  h_update : History -> Piece -> Square -> Value -> History
}.

(** The move picker (movepick.h), with its three constructors: for the
    main search, for the quiescence search and for ProbCut.  The picker
    refers to the position and to the history table, which it reads when
    asked for the next move. *)
Class MovePickerOps `{PositionOps} `{HistoryOps} := {
  MovePicker : Type;
  MovePicker_main : Position -> Move -> Depth -> History -> SearchStack ->
                    Value -> MovePicker;
  MovePicker_qsearch : Position -> Move -> Depth -> History -> Square ->
                       MovePicker;
  MovePicker_probcut : Position -> Move -> History -> PieceType -> MovePicker;
  get_next_move : MovePicker -> Position -> History -> Move * MovePicker
}.

(** The thread pool (thread.h), as far as one searching thread sees it. *)
Class ThreadsOps := {
  ThreadsManager : Type;
  maxPly : ThreadsManager -> Z -> Z;
  set_maxPly : ThreadsManager -> Z -> Z -> ThreadsManager;
  cutoff_occurred : ThreadsManager -> Z -> bool;
  min_split_depth : ThreadsManager -> Depth;
  available_slave_exists : ThreadsManager -> Z -> bool
}.

(** The lookup tables that [init_search] fills with floating-point
    arithmetic. *)
Class SearchTables := {
  FutilityMargins : Z -> Z -> Value;
  FutilityMoveCounts : Z -> Z;
  Reductions : bool -> Z -> Z -> Z
}.

Section SearchTableAccess.
Context `{Types} `{SearchTables}.

Definition futility_margin (d : Depth) (mn : Z) : Value :=
  if d <? 7 * ONE_PLY then FutilityMargins (Z.max d 1) (Z.min mn 63)
  else 2 * VALUE_INFINITE.

Definition futility_move_count (d : Depth) : Z :=
  if d <? 16 * ONE_PLY then FutilityMoveCounts d else MAX_MOVES.

Definition reduction (PvNode : bool) (d : Depth) (mn : Z) : Depth :=
  Reductions PvNode (Z.min (Z.quot d ONE_PLY) 63) (Z.min mn 63).

End SearchTableAccess.

(** Different node types, used as template parameter. *)
Inductive NodeType :=
  Root | PV | NonPV | SplitPointRoot | SplitPointPV | SplitPointNonPV.

Definition PvNode (NT : NodeType) : bool :=
  match NT with
  | PV | Root | SplitPointPV | SplitPointRoot => true
  | _ => false
  end.

Definition SpNode (NT : NodeType) : bool :=
  match NT with
  | SplitPointPV | SplitPointNonPV | SplitPointRoot => true
  | _ => false
  end.

Definition RootNode (NT : NodeType) : bool :=
  match NT with
  | Root | SplitPointRoot => true
  | _ => false
  end.

(** ** The state search() and qsearch() run on *)

(** Control flow: a statement either goes on, possibly with a value,
    or returns from the function; a loop of the model may run out of
    fuel. *)
Inductive Outcome (A : Type) :=
| Next (a : A)
| Return (v : Value)
| OutOfFuel.
Arguments Next {A} a.
Arguments Return {A} v.
Arguments OutOfFuel {A}.

Section SearchState.
Context {types : Types} {position : PositionOps} {bitboards : BitboardOps}
  {table : TableOps} {history : HistoryOps} {picker : MovePickerOps}
  {threads : ThreadsOps} {tables : SearchTables}.

(** A split point (thread.h), as far as [search] reads and writes it. *)
Record SplitPoint := {
  sp_bestValue : Value;
  sp_alpha : Value;
  sp_moveCount : Z;
  sp_threatMove : Move;
  sp_mp : MovePicker;
  sp_is_betaCutoff : bool;
  sp_ss : Z;
  sp_is_slave : Z -> bool;
  sp_nodes : Z
}.

(** The globals of search.cpp together with the engine-wide objects [TT]
    and [Threads].  [World] is all that [poll] consults besides: the
    clock, standard input, the limits and the time manager. *)
Record Globals {World : Type} := {
  TT : TranspositionTable;
  H : History;
  Threads : ThreadsManager;
  splitPoints : Z -> SplitPoint;
  Rml : list RootMove;
  Rml_bestMoveChanges : Z;
  MultiPV : Z;
  MultiPVIdx : Z;
  StopRequest : bool;
  FirstRootMove : bool;
  NodesSincePoll : Z;
  NodesBetweenPolls : Z;
  world : World
}.
Arguments Globals : clear implicits.

Section WithWorld.
Context {World : Type}.
Abbreviation Globals := (Globals World).

Definition set_TT (v : TranspositionTable) (g : Globals) : Globals :=
  {| TT := v; H := H g; Threads := Threads g; splitPoints := splitPoints g;
     Rml := Rml g; Rml_bestMoveChanges := Rml_bestMoveChanges g;
     MultiPV := MultiPV g; MultiPVIdx := MultiPVIdx g;
     StopRequest := StopRequest g; FirstRootMove := FirstRootMove g;
     NodesSincePoll := NodesSincePoll g;
     NodesBetweenPolls := NodesBetweenPolls g; world := world g |}.

Definition set_H (v : History) (g : Globals) : Globals :=
  {| TT := TT g; H := v; Threads := Threads g; splitPoints := splitPoints g;
     Rml := Rml g; Rml_bestMoveChanges := Rml_bestMoveChanges g;
     MultiPV := MultiPV g; MultiPVIdx := MultiPVIdx g;
     StopRequest := StopRequest g; FirstRootMove := FirstRootMove g;
     NodesSincePoll := NodesSincePoll g;
     NodesBetweenPolls := NodesBetweenPolls g; world := world g |}.

Definition set_Threads (v : ThreadsManager) (g : Globals) : Globals :=
  {| TT := TT g; H := H g; Threads := v; splitPoints := splitPoints g;
     Rml := Rml g; Rml_bestMoveChanges := Rml_bestMoveChanges g;
     MultiPV := MultiPV g; MultiPVIdx := MultiPVIdx g;
     StopRequest := StopRequest g; FirstRootMove := FirstRootMove g;
     NodesSincePoll := NodesSincePoll g;
     NodesBetweenPolls := NodesBetweenPolls g; world := world g |}.

Definition set_splitPoints (v : Z -> SplitPoint) (g : Globals) : Globals :=
  {| TT := TT g; H := H g; Threads := Threads g; splitPoints := v;
     Rml := Rml g; Rml_bestMoveChanges := Rml_bestMoveChanges g;
     MultiPV := MultiPV g; MultiPVIdx := MultiPVIdx g;
     StopRequest := StopRequest g; FirstRootMove := FirstRootMove g;
     NodesSincePoll := NodesSincePoll g;
     NodesBetweenPolls := NodesBetweenPolls g; world := world g |}.

Definition set_Rml (v : list RootMove) (changes : Z) (g : Globals)
  : Globals :=
  {| TT := TT g; H := H g; Threads := Threads g;
     splitPoints := splitPoints g;
     Rml := v; Rml_bestMoveChanges := changes;
     MultiPV := MultiPV g; MultiPVIdx := MultiPVIdx g;
     StopRequest := StopRequest g; FirstRootMove := FirstRootMove g;
     NodesSincePoll := NodesSincePoll g;
     NodesBetweenPolls := NodesBetweenPolls g; world := world g |}.

Definition set_FirstRootMove (v : bool) (g : Globals) : Globals :=
  {| TT := TT g; H := H g; Threads := Threads g;
     splitPoints := splitPoints g;
     Rml := Rml g; Rml_bestMoveChanges := Rml_bestMoveChanges g;
     MultiPV := MultiPV g; MultiPVIdx := MultiPVIdx g;
     StopRequest := StopRequest g; FirstRootMove := v;
     NodesSincePoll := NodesSincePoll g;
     NodesBetweenPolls := NodesBetweenPolls g; world := world g |}.

Definition set_NodesSincePoll (v : Z) (g : Globals) : Globals :=
  {| TT := TT g; H := H g; Threads := Threads g;
     splitPoints := splitPoints g;
     Rml := Rml g; Rml_bestMoveChanges := Rml_bestMoveChanges g;
     MultiPV := MultiPV g; MultiPVIdx := MultiPVIdx g;
     StopRequest := StopRequest g; FirstRootMove := FirstRootMove g;
     NodesSincePoll := v;
     NodesBetweenPolls := NodesBetweenPolls g; world := world g |}.

(** The whole state: the position [pos], the search stack that the
    pointer [ss] walks, and the globals.  The stack is the content
    [st_ss0] the array had when the search started, overlaid by the
    frames written since, newest first; the array bound is not
    modelled. *)
Record St := {
  st_pos : Position;
  st_ss0 : Z -> SearchStack;
  st_written : list (Z * SearchStack);
  st_glob : Globals
}.

(** The frame of index [i]: [ss[i]]. *)
Definition st_ss (s : St) (i : Z) : SearchStack :=
  match find (fun w => fst w =? i) (st_written s) with
  | Some w => snd w
  | None => st_ss0 s i
  end.

Definition upd_pos (f : Position -> Position) (s : St) : St :=
  {| st_pos := f (st_pos s); st_ss0 := st_ss0 s;
     st_written := st_written s; st_glob := st_glob s |}.

(** [(ss + k)->field = ...] for the frame of index [i]. *)
Definition upd_frame (i : Z) (f : SearchStack -> SearchStack) (s : St) : St :=
  {| st_pos := st_pos s; st_ss0 := st_ss0 s;
     st_written := (i, f (st_ss s i)) :: st_written s;
     st_glob := st_glob s |}.

Definition upd_glob (f : Globals -> Globals) (s : St) : St :=
  {| st_pos := st_pos s; st_ss0 := st_ss0 s; st_written := st_written s;
     st_glob := f (st_glob s) |}.

Definition upd_sp (i : Z) (f : SplitPoint -> SplitPoint) (s : St) : St :=
  upd_glob (fun g =>
    set_splitPoints
      (fun j => if j =? i then f (splitPoints g j) else splitPoints g j) g) s.

Definition Exec (A : Type) : Type := St -> Outcome A * St.

Definition ret {A : Type} (a : A) : Exec A := fun s => (Next a, s).

Definition return_ {A : Type} (v : Value) : Exec A := fun s => (Return v, s).

Definition bind {A B : Type} (m : Exec A) (k : A -> Exec B) : Exec B :=
  fun s =>
    match m s with
    | (Next a, s') => k a s'
    | (Return v, s') => (Return v, s')
    | (OutOfFuel, s') => (OutOfFuel, s')
    end.

Definition get : Exec St := fun s => (Next s, s).

Definition modify (f : St -> St) : Exec unit := fun s => (Next tt, f s).

(** A call of [search] or [qsearch]: the callee runs on the whole state
    and hands back its value, or nothing when the model ran out of
    fuel. *)
Definition SearchFn : Type :=
  NodeType -> Z -> Value -> Value -> Depth -> St -> option Value * St.

Definition call (f : St -> option Value * St) : Exec Value :=
  fun s =>
    match f s with
    | (Some v, s') => (Next v, s')
    | (None, s') => (OutOfFuel, s')
    end.

(** The value a function body hands to its caller. *)
Definition run (m : Exec Value) : St -> option Value * St :=
  fun s =>
    match m s with
    | (Return v, s') => (Some v, s')
    | (Next v, s') => (Some v, s')
    | (OutOfFuel, s') => (None, s')
    end.

End WithWorld.
End SearchState.

Arguments Globals {_ _ _ _ _} World.
Arguments St {_ _ _ _ _} World.
Arguments Exec {_ _ _ _ _} World A.
Arguments SearchFn {_ _ _ _ _} World.

Declare Scope exec_scope.
Delimit Scope exec_scope with exec.
Notation "x <- m ;; k" := (bind m (fun x => k))
  (at level 61, m at next level, right associativity) : exec_scope.
Notation "m ;; k" := (bind m (fun _ => k))
  (at level 61, right associativity) : exec_scope.
Notation "' pat <- m ;; k" :=
  (bind m (fun x => match x with pat => k end))
  (at level 61, pat pattern, m at next level, right associativity)
  : exec_scope.

(** ** search() *)

(** What lies outside one thread's sequential run: [poll], which reads
    the clock and standard input and may raise [StopRequest], and
    [Threads.split], which shares the rest of the move loop with other
    threads and hands back the best value (it also draws from the move
    picker it is given). *)
Class EngineOps {position : PositionOps} {table : TableOps}
  {history : HistoryOps} {picker : MovePickerOps} {threads : ThreadsOps}
  (World : Type) := {
  poll : Position -> Globals World -> Globals World;
  split : NodeType -> Z -> Value -> Value -> Value -> Depth -> Move -> Z ->
          MovePicker -> St World -> (Value * MovePicker) * St World
}.

Section SearchCore.
Context {types : Types} {position : PositionOps} {bitboards : BitboardOps}
  {table : TableOps} {history : HistoryOps} {picker : MovePickerOps}
  {threads : ThreadsOps} {tables : SearchTables} {World : Type}
  {engine : EngineOps World}.
Local Abbreviation Globals := (Globals World).
Local Abbreviation St := (St World).
Local Abbreviation Exec := (Exec World).
Local Abbreviation SearchFn := (SearchFn World).
Local Open Scope exec_scope.

(** The local variables of [search] that live across its steps.  Those
    that C++ leaves indeterminate until their first assignment start as
    [MOVE_NONE], null or zero. *)
Record Locals := {
  l_alpha : Value;
  l_beta : Value;
  l_oldAlpha : Value;
  l_inCheck : bool;
  l_tte : option Z;
  l_posKey : Key;
  l_ttMove : Move;
  l_excludedMove : Move;
  l_threatMove : Move;
  l_refinedValue : Value;
  l_bestValue : Value;
  l_sp : Z
}.

Definition set_l_window (a b : Value) (L : Locals) : Locals :=
  {| l_alpha := a; l_beta := b; l_oldAlpha := l_oldAlpha L;
     l_inCheck := l_inCheck L; l_tte := l_tte L; l_posKey := l_posKey L;
     l_ttMove := l_ttMove L; l_excludedMove := l_excludedMove L;
     l_threatMove := l_threatMove L; l_refinedValue := l_refinedValue L;
     l_bestValue := l_bestValue L; l_sp := l_sp L |}.

Definition set_l_tt (excluded : Move) (key : Key) (tte : option Z)
  (ttMove : Move) (L : Locals) : Locals :=
  {| l_alpha := l_alpha L; l_beta := l_beta L; l_oldAlpha := l_oldAlpha L;
     l_inCheck := l_inCheck L; l_tte := tte; l_posKey := key;
     l_ttMove := ttMove; l_excludedMove := excluded;
     l_threatMove := l_threatMove L; l_refinedValue := l_refinedValue L;
     l_bestValue := l_bestValue L; l_sp := l_sp L |}.

Definition set_l_threatMove (m : Move) (L : Locals) : Locals :=
  {| l_alpha := l_alpha L; l_beta := l_beta L; l_oldAlpha := l_oldAlpha L;
     l_inCheck := l_inCheck L; l_tte := l_tte L; l_posKey := l_posKey L;
     l_ttMove := l_ttMove L; l_excludedMove := l_excludedMove L;
     l_threatMove := m; l_refinedValue := l_refinedValue L;
     l_bestValue := l_bestValue L; l_sp := l_sp L |}.

Definition set_l_refinedValue (v : Value) (L : Locals) : Locals :=
  {| l_alpha := l_alpha L; l_beta := l_beta L; l_oldAlpha := l_oldAlpha L;
     l_inCheck := l_inCheck L; l_tte := l_tte L; l_posKey := l_posKey L;
     l_ttMove := l_ttMove L; l_excludedMove := l_excludedMove L;
     l_threatMove := l_threatMove L; l_refinedValue := v;
     l_bestValue := l_bestValue L; l_sp := l_sp L |}.

Definition set_l_sp (sp : Z) (L : Locals) : Locals :=
  {| l_alpha := l_alpha L; l_beta := l_beta L; l_oldAlpha := l_oldAlpha L;
     l_inCheck := l_inCheck L; l_tte := l_tte L; l_posKey := l_posKey L;
     l_ttMove := l_ttMove L; l_excludedMove := l_excludedMove L;
     l_threatMove := l_threatMove L; l_refinedValue := l_refinedValue L;
     l_bestValue := l_bestValue L; l_sp := sp |}.

(** [pv[0]] of a root move. *)
Definition pv0 (rm : RootMove) : Move := hd MOVE_NONE (pv rm).

(** [RootMoveList::find]: the index of the first root move from
    [startIndex] on whose first PV move is [m]. *)
Fixpoint Rml_find_from (l : list RootMove) (m : Move) (startIndex i : Z)
  : option Z :=
  match l with
  | [] => None
  | rm :: l' =>
    if (startIndex <=? i) && (pv0 rm =? m) then Some i
    else Rml_find_from l' m startIndex (i + 1)
  end.

Definition Rml_find (l : list RootMove) (m : Move) (startIndex : Z)
  : option Z :=
  if startIndex <? 0 then None else Rml_find_from l m startIndex 0.

(** [vec[i] = x]. *)
Fixpoint list_set {A : Type} (l : list A) (i : nat) (x : A) : list A :=
  match l, i with
  | [], _ => []
  | _ :: l', O => x :: l'
  | y :: l', S i' => y :: list_set l' i' x
  end.

(** The loop of [RootMove::extract_pv_from_tt]: [acc] is the PV so far,
    last move first.  The loop stops at [ply = PLY_MAX] at the latest. *)
Fixpoint extract_pv_loop (fuel : nat) (tt : TranspositionTable)
  (pos : Position) (ply : Z) (acc : list Move)
  : Position * list Move :=
  match fuel with
  | O => (pos, acc)
  | S fuel =>
    match tt_probe tt (get_key pos) with
    | None => (pos, acc)
    | Some tte =>
      let m := tte_move (tt_entry tt tte) in
      if negb (m =? MOVE_NONE)
         && is_pseudo_legal pos m
         && pl_move_is_legal pos m (pinned_pieces pos)
         && (ply <? PLY_MAX)
         && (negb (is_draw false pos) || (ply <? 2))
      then extract_pv_loop fuel tt (do_move pos m) (ply + 1) (m :: acc)
      else (pos, acc)
    end
  end.

(** [RootMove::extract_pv_from_tt] builds a PV by adding moves from the
    transposition table, and takes the moves back. *)
Definition extract_pv_from_tt (rm : RootMove) (tt : TranspositionTable)
  (pos : Position) : RootMove * Position :=
  let m := pv0 rm in
  let '(pos, acc) :=
    extract_pv_loop (Z.to_nat PLY_MAX) tt (do_move pos m) 1 [m] in
  let pos := fold_left undo_move acc pos in
  ({| nodes := nodes rm; score := score rm; prevScore := prevScore rm;
      pv := (rev acc ++ [MOVE_NONE])%list |}, pos).

(** [update_history] registers a good move that produced a beta-cutoff
    and marks as failures the other moves of that ply; [movesSearched]
    holds [moveCount] moves. *)
Definition update_history (pos : Position) (move : Move) (depth : Depth)
  (movesSearched : list Move) (moveCount : Z) (h : History) : History :=
  let bonus := depth * depth in
  let h := h_update h (piece_on pos (move_from move)) (move_to move) bonus in
  fold_left
    (fun h m => h_update h (piece_on pos (move_from m)) (move_to m) (- bonus))
    (firstn (Z.to_nat (moveCount - 1)) movesSearched) h.

(** [ss->killers[1] = ss->killers[0]; ss->killers[0] = move]. *)
Definition push_killer (move : Move) (f : SearchStack) : SearchStack :=
  set_killers move (ss_killers0 f) f.

Section Body.
Variables search_rec qsearch_rec : SearchFn.
Variable NT : NodeType.
Variable ssi : Z.
Variable depth : Depth.

(** The start of [search]: initialisation of the locals and step 1.  At
    a split point the function jumps from here to [split_point_start]. *)
Definition search_step1 (alpha beta : Value) : Exec Locals :=
  s <- get ;;
  let inCheck := in_check (st_pos s) in
  modify (upd_frame ssi (set_ply (ss_ply (st_ss s (ssi - 1)) + 1))) ;;
  s <- get ;;
  let th := thread (st_pos s) in
  (* Used to send selDepth info to GUI *)
  (if PvNode NT && (maxPly (Threads (st_glob s)) th <? ss_ply (st_ss s ssi))
   then modify (upd_glob (fun g =>
          set_Threads (set_maxPly (Threads g) th (ss_ply (st_ss s ssi))) g))
   else ret tt) ;;
  let L :=
    {| l_alpha := alpha; l_beta := beta; l_oldAlpha := alpha;
       l_inCheck := inCheck; l_tte := None; l_posKey := 0;
       l_ttMove := MOVE_NONE; l_excludedMove := MOVE_NONE;
       l_threatMove := MOVE_NONE; l_refinedValue := - VALUE_INFINITE;
       l_bestValue := - VALUE_INFINITE; l_sp := 0 |} in
  (* Step 1. Initialize node and poll. Polling can abort search *)
  if negb (SpNode NT) then
    modify (upd_frame (ssi + 1) (set_excludedMove MOVE_NONE)) ;;
    modify (upd_frame ssi (set_bestMove MOVE_NONE)) ;;
    modify (upd_frame ssi (set_currentMove MOVE_NONE)) ;;
    modify (upd_frame (ssi + 1) (set_skipNullMove false)) ;;
    modify (upd_frame (ssi + 1) (set_reduction DEPTH_ZERO)) ;;
    modify (upd_frame (ssi + 2) (set_killers MOVE_NONE MOVE_NONE)) ;;
    ret (set_l_threatMove MOVE_NONE L)
  else
    s <- get ;;
    let sp := ss_sp (st_ss s ssi) in
    ret (set_l_threatMove (sp_threatMove (splitPoints (st_glob s) sp))
           (set_l_tt MOVE_NONE 0 None MOVE_NONE (set_l_sp sp L))).

(** The poll of step 1, on the main thread every [NodesBetweenPolls]
    nodes. *)
Definition search_poll : Exec unit :=
  s <- get ;;
  if thread (st_pos s) =? 0 then
    modify (upd_glob (fun g => set_NodesSincePoll (NodesSincePoll g + 1) g)) ;;
    s <- get ;;
    if NodesSincePoll (st_glob s) >? NodesBetweenPolls (st_glob s) then
      modify (upd_glob (set_NodesSincePoll 0)) ;;
      modify (fun s => upd_glob (poll (st_pos s)) s)
    else ret tt
  else ret tt.

(** Step 2. Check for aborted search and immediate draw. *)
Definition search_step2 : Exec unit :=
  s <- get ;;
  if (StopRequest (st_glob s)
      || is_draw false (st_pos s)
      || (ss_ply (st_ss s ssi) >? PLY_MAX))
     && negb (RootNode NT)
  then return_ VALUE_DRAW
  else ret tt.

(** Step 3. Mate distance pruning. *)
Definition search_step3 (L : Locals) : Exec Locals :=
  if negb (RootNode NT) then
    s <- get ;;
    let alpha := Z.max (value_mated_in (ss_ply (st_ss s ssi))) (l_alpha L) in
    let beta := Z.min (value_mate_in (ss_ply (st_ss s ssi) + 1)) (l_beta L) in
    if alpha >=? beta then return_ alpha
    else ret (set_l_window alpha beta L)
  else ret L.

(** Step 4. Transposition table lookup. *)
Definition search_step4 (L : Locals) : Exec Locals :=
  s <- get ;;
  let excludedMove := ss_excludedMove (st_ss s ssi) in
  let posKey :=
    if truthy excludedMove then get_exclusion_key (st_pos s)
    else get_key (st_pos s) in
  let tte := tt_probe (TT (st_glob s)) posKey in
  let ttMove :=
    if RootNode NT then
      pv0 (nth (Z.to_nat (MultiPVIdx (st_glob s))) (Rml (st_glob s))
             {| nodes := 0; score := 0; prevScore := 0; pv := [] |})
    else
      match tte with
      | Some e => tte_move (tt_entry (TT (st_glob s)) e)
      | None => MOVE_NONE
      end in
  let L := set_l_tt excludedMove posKey tte ttMove L in
  match tte with
  | Some e =>
    let entry := tt_entry (TT (st_glob s)) e in
    if negb (RootNode NT)
       && (if PvNode NT
           then (tte_depth entry >=? depth)
                && (tte_type entry =? VALUE_TYPE_EXACT)
           else can_return_tt entry depth (l_beta L) (ss_ply (st_ss s ssi)))
    then
      modify (upd_glob (fun g => set_TT (tt_refresh (TT g) e) g)) ;;
      let move := ttMove in
      modify (upd_frame ssi (set_bestMove move)) ;;
      s <- get ;;
      let value :=
        value_from_tt (tte_value (tt_entry (TT (st_glob s)) e))
          (ss_ply (st_ss s ssi)) in
      (if (value >=? l_beta L)
          && truthy move
          && negb (is_capture_or_promotion (st_pos s) move)
          && negb (move =? ss_killers0 (st_ss s ssi))
       then modify (upd_frame ssi (push_killer move))
       else ret tt) ;;
      return_ value
    else ret L
  | None => ret L
  end.

(** Step 5. Evaluate the position statically and update parent's gain
    statistics. *)
Definition search_step5 (L : Locals) : Exec Locals :=
  s <- get ;;
  L <- (if l_inCheck L then
          modify (upd_frame ssi (set_eval VALUE_NONE VALUE_NONE)) ;;
          ret L
        else
          match l_tte L with
          | Some e =>
            let entry := tt_entry (TT (st_glob s)) e in
            modify (upd_frame ssi
                      (set_eval (tte_static_value entry)
                                (tte_static_value_margin entry))) ;;
            ret (set_l_refinedValue
                   (refine_eval entry (tte_static_value entry)
                      (ss_ply (st_ss s ssi))) L)
          | None =>
            let '(e, margin) := evaluate (st_pos s) in
            modify (upd_frame ssi (set_eval e margin)) ;;
            modify (upd_glob (fun g =>
              set_TT (tt_store (TT g) (l_posKey L) VALUE_NONE VALUE_TYPE_NONE
                        DEPTH_NONE MOVE_NONE e margin) g)) ;;
            ret (set_l_refinedValue e L)
          end) ;;
  (* Update gain for the parent non-capture move *)
  s <- get ;;
  let move := ss_currentMove (st_ss s (ssi - 1)) in
  (if negb (move =? MOVE_NULL)
      && negb (ss_eval (st_ss s (ssi - 1)) =? VALUE_NONE)
      && negb (ss_eval (st_ss s ssi) =? VALUE_NONE)
      && (captured_piece_type (st_pos s) =? PIECE_TYPE_NONE)
      && negb (is_special move)
   then
     let to := move_to move in
     modify (upd_glob (fun g =>
       set_H (h_update_gain (H g) (piece_on (st_pos s) to) to
                (- ss_eval (st_ss s (ssi - 1)) - ss_eval (st_ss s ssi))) g))
   else ret tt) ;;
  ret L.

(** Step 6. Razoring (is omitted in PV nodes). *)
Definition search_step6 (L : Locals) : Exec Locals :=
  s <- get ;;
  if negb (PvNode NT)
     && (depth <? RazorDepth)
     && negb (l_inCheck L)
     && (l_refinedValue L + razor_margin depth <? l_beta L)
     && (l_ttMove L =? MOVE_NONE)
     && (Z.abs (l_beta L) <? VALUE_MATE_IN_PLY_MAX)
     && negb (has_pawn_on_7th (st_pos s) (side_to_move (st_pos s)))
  then
    let rbeta := l_beta L - razor_margin depth in
    v <- call (qsearch_rec NonPV ssi (rbeta - 1) rbeta DEPTH_ZERO) ;;
    if v <? rbeta then
      (* Logically we should return (v + razor_margin(depth)), but
         surprisingly this did slightly weaker in tests. *)
      return_ v
    else ret L
  else ret L.

(** Step 7. Static null move pruning (is omitted in PV nodes). *)
Definition search_step7 (L : Locals) : Exec Locals :=
  s <- get ;;
  if negb (PvNode NT)
     && negb (ss_skipNullMove (st_ss s ssi))
     && (depth <? RazorDepth)
     && negb (l_inCheck L)
     && (l_refinedValue L - futility_margin depth 0 >=? l_beta L)
     && (Z.abs (l_beta L) <? VALUE_MATE_IN_PLY_MAX)
     && truthy (non_pawn_material (st_pos s) (side_to_move (st_pos s)))
  then return_ (l_refinedValue L - futility_margin depth 0)
  else ret L.

(** The reduction of the null-move search. *)
Definition null_move_R (L : Locals) : Z :=
  (* Null move dynamic reduction based on depth *)
  let R := 3 + (if depth >=? 5 * ONE_PLY then Z.quot depth 8 else 0) in
  (* Null move dynamic reduction based on value *)
  if l_refinedValue L - PawnValueMidgame >? l_beta L then R + 1 else R.

(** Step 8. Null move search with verification search (is omitted in PV
    nodes). *)
Definition search_step8 (L : Locals) : Exec Locals :=
  s <- get ;;
  if negb (PvNode NT)
     && negb (ss_skipNullMove (st_ss s ssi))
     && (depth >? ONE_PLY)
     && negb (l_inCheck L)
     && (l_refinedValue L >=? l_beta L)
     && (Z.abs (l_beta L) <? VALUE_MATE_IN_PLY_MAX)
     && truthy (non_pawn_material (st_pos s) (side_to_move (st_pos s)))
  then
    modify (upd_frame ssi (set_currentMove MOVE_NULL)) ;;
    let R := null_move_R L in
    modify (upd_pos (do_null_move true)) ;;
    modify (upd_frame (ssi + 1) (set_skipNullMove true)) ;;
    v <- (if depth - R * ONE_PLY <? ONE_PLY
          then call (qsearch_rec NonPV (ssi + 1) (- l_beta L) (- l_alpha L)
                       DEPTH_ZERO)
          else call (search_rec NonPV (ssi + 1) (- l_beta L) (- l_alpha L)
                       (depth - R * ONE_PLY))) ;;
    let nullValue := - v in
    modify (upd_frame (ssi + 1) (set_skipNullMove false)) ;;
    modify (upd_pos (do_null_move false)) ;;
    if nullValue >=? l_beta L then
      (* Do not return unproven mate scores *)
      let nullValue :=
        if nullValue >=? VALUE_MATE_IN_PLY_MAX then l_beta L
        else nullValue in
      if depth <? 6 * ONE_PLY then return_ nullValue
      else
        (* Do verification search at high depths *)
        modify (upd_frame ssi (set_skipNullMove true)) ;;
        v <- call (search_rec NonPV ssi (l_alpha L) (l_beta L)
                     (depth - R * ONE_PLY)) ;;
        modify (upd_frame ssi (set_skipNullMove false)) ;;
        if v >=? l_beta L then return_ nullValue else ret L
    else
      (* The null move failed low: look for a threat *)
      s <- get ;;
      let threatMove := ss_bestMove (st_ss s (ssi + 1)) in
      let L := set_l_threatMove threatMove L in
      if (depth <? ThreatDepth)
         && truthy (ss_reduction (st_ss s (ssi - 1)))
         && negb (threatMove =? MOVE_NONE)
         && connected_moves (st_pos s)
              (ss_currentMove (st_ss s (ssi - 1))) threatMove
      then return_ (l_beta L - 1)
      else ret L
  else ret L.

Definition out_of_fuel {A : Type} : Exec A := fun s => (OutOfFuel, s).

(** The loop of step 9 over the captures that the ProbCut picker yields. *)
Fixpoint search_probcut_moves (fuel : nat) (rbeta : Value) (rdepth : Depth)
  (ci : CheckInfo) (mp : MovePicker) : Exec unit :=
  match fuel with
  | O => out_of_fuel
  | S fuel =>
    s <- get ;;
    let '(move, mp) := get_next_move mp (st_pos s) (H (st_glob s)) in
    if move =? MOVE_NONE then ret tt
    else if pl_move_is_legal (st_pos s) move (pinned ci) then
      modify (upd_pos (fun p =>
                do_move_ci p move ci (move_gives_check p move ci))) ;;
      v <- call (search_rec NonPV (ssi + 1) (- rbeta) (- rbeta + 1) rdepth) ;;
      let value := - v in
      modify (upd_pos (fun p => undo_move p move)) ;;
      if value >=? rbeta then return_ value
      else search_probcut_moves fuel rbeta rdepth ci mp
    else search_probcut_moves fuel rbeta rdepth ci mp
  end.

(** Step 9. ProbCut (is omitted in PV nodes). *)
Definition search_step9 (fuel : nat) (L : Locals) : Exec Locals :=
  s <- get ;;
  if negb (PvNode NT)
     && (depth >=? RazorDepth + ONE_PLY)
     && negb (l_inCheck L)
     && negb (ss_skipNullMove (st_ss s ssi))
     && (l_excludedMove L =? MOVE_NONE)
     && (Z.abs (l_beta L) <? VALUE_MATE_IN_PLY_MAX)
  then
    let rbeta := l_beta L + 200 in
    let rdepth := depth - ONE_PLY - 3 * ONE_PLY in
    let mp :=
      MovePicker_probcut (st_pos s) (l_ttMove L) (H (st_glob s))
        (captured_piece_type (st_pos s)) in
    let ci := check_info (st_pos s) in
    search_probcut_moves fuel rbeta rdepth ci mp ;;
    ret L
  else ret L.

(** Step 10. Internal iterative deepening. *)
Definition search_step10 (L : Locals) : Exec Locals :=
  s <- get ;;
  if (depth >=? IIDDepth (PvNode NT))
     && (l_ttMove L =? MOVE_NONE)
     && (PvNode NT
         || (negb (l_inCheck L)
             && (ss_eval (st_ss s ssi) + IIDMargin >=? l_beta L)))
  then
    let d := if PvNode NT then depth - 2 * ONE_PLY else Z.quot depth 2 in
    modify (upd_frame ssi (set_skipNullMove true)) ;;
    call (search_rec (if PvNode NT then PV else NonPV) ssi
            (l_alpha L) (l_beta L) d) ;;
    modify (upd_frame ssi (set_skipNullMove false)) ;;
    s <- get ;;
    let tte := tt_probe (TT (st_glob s)) (l_posKey L) in
    let ttMove :=
      match tte with
      | Some e => tte_move (tt_entry (TT (st_glob s)) e)
      | None => MOVE_NONE
      end in
    ret (set_l_tt (l_excludedMove L) (l_posKey L) tte ttMove L)
  else ret L.

(** Steps 1 to 5 at a node that is not a split point: from the entry of
    [search] to the static evaluation. *)
Definition search_steps_1_5 (alpha beta : Value) : Exec Locals :=
  L <- search_step1 alpha beta ;;
  search_poll ;;
  search_step2 ;;
  L <- search_step3 L ;;
  L <- search_step4 L ;;
  search_step5 L.

(** The variables that the move loop updates. *)
Record LoopVars := {
  v_alpha : Value;
  v_bestValue : Value;
  v_moveCount : Z;
  v_playedMoveCount : Z;
  v_movesSearched : list Move;
  v_mp : MovePicker
}.

Definition set_v_alpha (a : Value) (V : LoopVars) : LoopVars :=
  {| v_alpha := a; v_bestValue := v_bestValue V;
     v_moveCount := v_moveCount V;
     v_playedMoveCount := v_playedMoveCount V;
     v_movesSearched := v_movesSearched V; v_mp := v_mp V |}.

Definition set_v_bestValue (b : Value) (V : LoopVars) : LoopVars :=
  {| v_alpha := v_alpha V; v_bestValue := b;
     v_moveCount := v_moveCount V;
     v_playedMoveCount := v_playedMoveCount V;
     v_movesSearched := v_movesSearched V; v_mp := v_mp V |}.

Definition set_v_moveCount (n : Z) (V : LoopVars) : LoopVars :=
  {| v_alpha := v_alpha V; v_bestValue := v_bestValue V;
     v_moveCount := n;
     v_playedMoveCount := v_playedMoveCount V;
     v_movesSearched := v_movesSearched V; v_mp := v_mp V |}.

Definition set_v_mp (mp : MovePicker) (V : LoopVars) : LoopVars :=
  {| v_alpha := v_alpha V; v_bestValue := v_bestValue V;
     v_moveCount := v_moveCount V;
     v_playedMoveCount := v_playedMoveCount V;
     v_movesSearched := v_movesSearched V; v_mp := mp |}.

(** [movesSearched[playedMoveCount++] = move]. *)
Definition push_searched (move : Move) (V : LoopVars) : LoopVars :=
  {| v_alpha := v_alpha V; v_bestValue := v_bestValue V;
     v_moveCount := v_moveCount V;
     v_playedMoveCount := v_playedMoveCount V + 1;
     v_movesSearched := (v_movesSearched V ++ [move])%list;
     v_mp := v_mp V |}.

Definition sp_set_moveCount (n : Z) (p : SplitPoint) : SplitPoint :=
  {| sp_bestValue := sp_bestValue p; sp_alpha := sp_alpha p;
     sp_moveCount := n; sp_threatMove := sp_threatMove p;
     sp_mp := sp_mp p; sp_is_betaCutoff := sp_is_betaCutoff p;
     sp_ss := sp_ss p; sp_is_slave := sp_is_slave p;
     sp_nodes := sp_nodes p |}.

Definition sp_set_mp (mp : MovePicker) (p : SplitPoint) : SplitPoint :=
  {| sp_bestValue := sp_bestValue p; sp_alpha := sp_alpha p;
     sp_moveCount := sp_moveCount p; sp_threatMove := sp_threatMove p;
     sp_mp := mp; sp_is_betaCutoff := sp_is_betaCutoff p;
     sp_ss := sp_ss p; sp_is_slave := sp_is_slave p;
     sp_nodes := sp_nodes p |}.

Definition sp_set_best (bestValue alpha : Value) (cut : bool)
  (p : SplitPoint) : SplitPoint :=
  {| sp_bestValue := bestValue; sp_alpha := alpha;
     sp_moveCount := sp_moveCount p; sp_threatMove := sp_threatMove p;
     sp_mp := sp_mp p; sp_is_betaCutoff := cut;
     sp_ss := sp_ss p; sp_is_slave := sp_is_slave p;
     sp_nodes := sp_nodes p |}.

Definition sp_leave (th : Z) (searched : Z) (p : SplitPoint) : SplitPoint :=
  {| sp_bestValue := sp_bestValue p; sp_alpha := sp_alpha p;
     sp_moveCount := sp_moveCount p; sp_threatMove := sp_threatMove p;
     sp_mp := sp_mp p; sp_is_betaCutoff := sp_is_betaCutoff p;
     sp_ss := sp_ss p;
     sp_is_slave := fun i => if i =? th then false else sp_is_slave p i;
     sp_nodes := sp_nodes p + searched |}.

(** [-qsearch<kind>(pos, ss+1, a, b, DEPTH_ZERO)] when the depth left is
    below one ply, [-search<kind>(pos, ss+1, a, b, d)] otherwise. *)
Definition search_child (kind : NodeType) (a b : Value) (d : Depth)
  : Exec Value :=
  v <- (if d <? ONE_PLY
        then call (qsearch_rec kind (ssi + 1) a b DEPTH_ZERO)
        else call (search_rec kind (ssi + 1) a b d)) ;;
  ret (- v).

(** [mp.get_next_move()]: at a split point the moves come from the split
    point's shared picker. *)
Definition search_next_move (L : Locals) (V : LoopVars)
  : Exec (Move * LoopVars) :=
  s <- get ;;
  if SpNode NT then
    let '(move, mp) :=
      get_next_move (sp_mp (splitPoints (st_glob s) (l_sp L)))
        (st_pos s) (H (st_glob s)) in
    modify (upd_sp (l_sp L) (sp_set_mp mp)) ;;
    ret (move, V)
  else
    let '(move, mp) := get_next_move (v_mp V) (st_pos s) (H (st_glob s)) in
    ret (move, set_v_mp mp V).

(** The singular extension search of step 12; the result is [ext]. *)
Definition search_singular (L : Locals) (ci : CheckInfo)
  (singularExtensionNode : bool) (move : Move) (ext : Depth) : Exec Depth :=
  s <- get ;;
  if singularExtensionNode
     && (move =? l_ttMove L)
     && pl_move_is_legal (st_pos s) move (pinned ci)
     && (ext <? ONE_PLY)
  then
    match l_tte L with
    | None => ret ext
    | Some e =>
      let ttValue :=
        value_from_tt (tte_value (tt_entry (TT (st_glob s)) e))
          (ss_ply (st_ss s ssi)) in
      if Z.abs ttValue <? VALUE_KNOWN_WIN then
        let rBeta := ttValue - depth in
        modify (upd_frame ssi (set_excludedMove move)) ;;
        modify (upd_frame ssi (set_skipNullMove true)) ;;
        v <- call (search_rec NonPV ssi (rBeta - 1) rBeta (Z.quot depth 2)) ;;
        modify (upd_frame ssi (set_skipNullMove false)) ;;
        modify (upd_frame ssi (set_excludedMove MOVE_NONE)) ;;
        modify (upd_frame ssi (set_bestMove MOVE_NONE)) ;;
        ret (if v <? rBeta then ONE_PLY else ext)
      else ret ext
    end
  else ret ext.

(** Step 13. Futility pruning (is omitted in PV nodes).  [Some V] is a
    [continue] with the loop variables [V]. *)
Definition search_futility (L : Locals) (futilityBase : Value)
  (V : LoopVars) (move : Move) (newDepth : Depth)
  (captureOrPromotion dangerous : bool) : Exec (option LoopVars) :=
  s <- get ;;
  if negb (PvNode NT)
     && negb captureOrPromotion
     && negb (l_inCheck L)
     && negb dangerous
     && negb (move =? l_ttMove L)
     && negb (is_castle move)
  then
    (* Move count based pruning *)
    if (v_moveCount V >=? futility_move_count depth)
       && (negb (truthy (l_threatMove L))
           || negb (connected_threat (st_pos s) move (l_threatMove L)))
       && (v_bestValue V >? VALUE_MATED_IN_PLY_MAX)
    then ret (Some V)
    else
      (* Value based pruning *)
      let predictedDepth :=
        newDepth - reduction (PvNode NT) depth (v_moveCount V) in
      let futilityValue :=
        futilityBase + futility_margin predictedDepth (v_moveCount V)
        + h_gain (H (st_glob s)) (piece_on (st_pos s) (move_from move))
            (move_to move) in
      if futilityValue <? l_beta L then
        if SpNode NT then
          if futilityValue
               >? sp_bestValue (splitPoints (st_glob s) (l_sp L))
          then
            modify (upd_sp (l_sp L) (fun p =>
              sp_set_best futilityValue (sp_alpha p) (sp_is_betaCutoff p) p)) ;;
            ret (Some (set_v_bestValue futilityValue V))
          else ret (Some V)
        else if futilityValue >? v_bestValue V
        then ret (Some (set_v_bestValue futilityValue V))
        else ret (Some V)
      else
        (* Prune moves with negative SEE at low depths *)
        if (predictedDepth <? 2 * ONE_PLY)
           && (v_bestValue V >? VALUE_MATED_IN_PLY_MAX)
           && (see_sign (st_pos s) move <? 0)
        then ret (Some V)
        else ret None
  else ret None.

(** [alpha = SpNode ? sp->alpha : alpha]. *)
Definition search_reload_alpha (L : Locals) (V : LoopVars) : Exec LoopVars :=
  s <- get ;;
  ret (if SpNode NT
       then set_v_alpha (sp_alpha (splitPoints (st_glob s) (l_sp L))) V
       else V).

(** Steps 14 to 16 once the move is made: the searches of the move.  The
    result is [value] and the loop variables ([alpha] may have been
    reloaded from the split point). *)
Definition search_move_value (L : Locals) (V : LoopVars) (move : Move)
  (newDepth : Depth) (isPvMove captureOrPromotion dangerous : bool)
  : Exec (Value * LoopVars) :=
  if isPvMove then
    (* Step extra. pv search (only in PV nodes) *)
    value <- search_child PV (- l_beta L) (- v_alpha V) newDepth ;;
    ret (value, V)
  else
    (* Step 15. Reduced depth search *)
    s <- get ;;
    '(doFullDepthSearch, value, V) <-
      (if (depth >? 3 * ONE_PLY)
          && negb captureOrPromotion
          && negb dangerous
          && negb (is_castle move)
          && negb (ss_killers0 (st_ss s ssi) =? move)
          && negb (ss_killers1 (st_ss s ssi) =? move)
       then
         let r := reduction (PvNode NT) depth (v_moveCount V) in
         modify (upd_frame ssi (set_reduction r)) ;;
         if negb (r =? DEPTH_ZERO) then
           let d := newDepth - r in
           V <- search_reload_alpha L V ;;
           value <- search_child NonPV (- (v_alpha V + 1)) (- v_alpha V) d ;;
           modify (upd_frame ssi (set_reduction DEPTH_ZERO)) ;;
           ret (value >? v_alpha V, value, V)
         else ret (true, - VALUE_INFINITE, V)
       else ret (true, - VALUE_INFINITE, V)) ;;
    (* Step 16. Full depth search *)
    if doFullDepthSearch : bool then
      V <- search_reload_alpha L V ;;
      value <- search_child NonPV (- (v_alpha V + 1)) (- v_alpha V) newDepth ;;
      if PvNode NT && (value >? v_alpha V)
         && (RootNode NT || (value <? l_beta L))
      then
        value <- search_child PV (- l_beta L) (- v_alpha V) newDepth ;;
        ret (value, V)
      else ret (value, V)
    else ret (value, V).

(** The bookkeeping of a searched root move (step 18 at the root). *)
Definition search_root_update (move : Move) (value : Value) (alpha : Value)
  (isPvMove : bool) (nodes0 : Z) : Exec unit :=
  s <- get ;;
  if RootNode NT && negb (StopRequest (st_glob s)) then
    let g := st_glob s in
    match Rml_find (Rml g) move 0 with
    | None => ret tt
    | Some i =>
      let rm :=
        nth (Z.to_nat i) (Rml g)
          {| nodes := 0; score := 0; prevScore := 0; pv := [] |} in
      (* Remember searched nodes counts for this move *)
      let rm :=
        {| nodes := nodes rm + (nodes_searched (st_pos s) - nodes0);
           score := score rm; prevScore := prevScore rm; pv := pv rm |} in
      if isPvMove || (value >? alpha) then
        (* Update PV *)
        let rm :=
          {| nodes := nodes rm; score := value; prevScore := prevScore rm;
             pv := pv rm |} in
        let '(rm, pos) := extract_pv_from_tt rm (TT g) (st_pos s) in
        let changes :=
          if negb isPvMove && (MultiPV g =? 1)
          then Rml_bestMoveChanges g + 1 else Rml_bestMoveChanges g in
        modify (upd_pos (fun _ => pos)) ;;
        modify (upd_glob (set_Rml (list_set (Rml g) (Z.to_nat i) rm) changes))
      else
        let rm :=
          {| nodes := nodes rm; score := - VALUE_INFINITE;
             prevScore := prevScore rm; pv := pv rm |} in
        modify (upd_glob (set_Rml (list_set (Rml g) (Z.to_nat i) rm)
                            (Rml_bestMoveChanges g)))
    end
  else ret tt.

(** Step 18. Check for new best move, and step 19, check for split. *)
Definition search_new_best (L : Locals) (V : LoopVars) (move : Move)
  (value : Value) : Exec LoopVars :=
  V <- (if value >? v_bestValue V then
          let V := set_v_bestValue value V in
          modify (upd_frame ssi (set_bestMove move)) ;;
          let V :=
            if PvNode NT && (value >? v_alpha V) && (value <? l_beta L)
            then set_v_alpha value V else V in
          s <- get ;;
          (if SpNode NT
              && negb (cutoff_occurred (Threads (st_glob s))
                         (thread (st_pos s)))
           then
             modify (upd_sp (l_sp L)
                       (sp_set_best value (v_alpha V) (value >=? l_beta L))) ;;
             modify (upd_frame (sp_ss (splitPoints (st_glob s) (l_sp L)))
                       (set_bestMove move))
           else ret tt) ;;
          ret V
        else ret V) ;;
  (* Step 19. Check for split *)
  s <- get ;;
  if negb (SpNode NT)
     && (depth >=? min_split_depth (Threads (st_glob s)))
     && (v_bestValue V <? l_beta L)
     && available_slave_exists (Threads (st_glob s)) (thread (st_pos s))
     && negb (StopRequest (st_glob s))
     && negb (cutoff_occurred (Threads (st_glob s)) (thread (st_pos s)))
  then
    fun s =>
      let '((bestValue, mp), s') :=
        split NT ssi (v_alpha V) (l_beta L) (v_bestValue V) depth
          (l_threatMove L) (v_moveCount V) (v_mp V) s in
      (Next (set_v_mp mp (set_v_bestValue bestValue V)), s')
  else ret V.

(** The body of the move loop for the move [move]; the result is the
    loop variables with which the loop goes on. *)
Definition search_move (L : Locals) (ci : CheckInfo) (futilityBase : Value)
  (singularExtensionNode : bool) (V : LoopVars) (move : Move)
  : Exec LoopVars :=
  s <- get ;;
  if move =? l_excludedMove L then ret V
  (* At root obey the "searchmoves" option *)
  else if RootNode NT
          && match Rml_find (Rml (st_glob s)) move (MultiPVIdx (st_glob s))
             with Some _ => false | None => true end
  then ret V
  (* At PV and SpNode nodes we want all moves to be legal *)
  else if (PvNode NT || SpNode NT)
          && negb (pl_move_is_legal (st_pos s) move (pinned ci))
  then ret V
  else
    V <- (if SpNode NT then
            modify (upd_sp (l_sp L)
                      (fun p => sp_set_moveCount (sp_moveCount p + 1) p)) ;;
            s <- get ;;
            ret (set_v_moveCount
                   (sp_moveCount (splitPoints (st_glob s) (l_sp L))) V)
          else ret (set_v_moveCount (v_moveCount V + 1) V)) ;;
    nodes0 <- (if RootNode NT then
                 (* This is used by time management *)
                 modify (upd_glob
                           (set_FirstRootMove (v_moveCount V =? 1))) ;;
                 (* Save the current node count before the move is searched *)
                 ret (nodes_searched (st_pos s))
               else ret 0) ;;
    let isPvMove :=
      PvNode NT
      && (v_moveCount V
            <=? (if RootNode NT && (depth <=? ONE_PLY) then MAX_MOVES else 1)) in
    let givesCheck := move_gives_check (st_pos s) move ci in
    let captureOrPromotion := is_capture_or_promotion (st_pos s) move in
    (* Step 12. Decide the new search depth *)
    let '(ext, dangerous) :=
      extension (PvNode NT) (st_pos s) move captureOrPromotion givesCheck in
    ext <- search_singular L ci singularExtensionNode move ext ;;
    let newDepth := depth - ONE_PLY + ext in
    pruned <- search_futility L futilityBase V move newDepth
                captureOrPromotion dangerous ;;
    match pruned with
    | Some V => ret V
    | None =>
      s <- get ;;
      (* Check for legality only before to do the move *)
      if negb (pl_move_is_legal (st_pos s) move (pinned ci))
      then ret (set_v_moveCount (v_moveCount V - 1) V)
      else
        modify (upd_frame ssi (set_currentMove move)) ;;
        let V :=
          if negb (SpNode NT) && negb captureOrPromotion
          then push_searched move V else V in
        (* Step 14. Make the move *)
        modify (upd_pos (fun p => do_move_ci p move ci givesCheck)) ;;
        '(value, V) <- search_move_value L V move newDepth isPvMove
                         captureOrPromotion dangerous ;;
        (* Step 17. Undo move *)
        modify (upd_pos (fun p => undo_move p move)) ;;
        s <- get ;;
        let V :=
          if SpNode NT then
            set_v_alpha (sp_alpha (splitPoints (st_glob s) (l_sp L)))
              (set_v_bestValue
                 (sp_bestValue (splitPoints (st_glob s) (l_sp L))) V)
          else V in
        search_root_update move value (v_alpha V) isPvMove nodes0 ;;
        search_new_best L V move value
    end.

(** Step 11. Loop through moves, until no moves remain or a beta cutoff
    occurs.  Each draw from the move picker takes one unit of fuel. *)
Fixpoint search_moves (fuel : nat) (L : Locals) (ci : CheckInfo)
  (futilityBase : Value) (singularExtensionNode : bool) (V : LoopVars)
  : Exec LoopVars :=
  if negb (v_bestValue V <? l_beta L) then ret V
  else
    match fuel with
    | O => out_of_fuel
    | S fuel =>
      '(move, V) <- search_next_move L V ;;
      if move =? MOVE_NONE then ret V
      else
        s <- get ;;
        if cutoff_occurred (Threads (st_glob s)) (thread (st_pos s))
        then ret V
        else
          V <- search_move L ci futilityBase singularExtensionNode V move ;;
          search_moves fuel L ci futilityBase singularExtensionNode V
    end.

(** From [split_point_start] to the end of the move loop. *)
Definition search_move_loop (fuel : nat) (L : Locals) : Exec LoopVars :=
  s <- get ;;
  (* Initialize a MovePicker object for the current position *)
  let mp :=
    MovePicker_main (st_pos s) (l_ttMove L) depth (H (st_glob s))
      (st_ss s ssi) (if PvNode NT then - VALUE_INFINITE else l_beta L) in
  let ci := check_info (st_pos s) in
  modify (upd_frame ssi (set_bestMove MOVE_NONE)) ;;
  let futilityBase := ss_eval (st_ss s ssi) + ss_evalMargin (st_ss s ssi) in
  let singularExtensionNode :=
    negb (RootNode NT)
    && negb (SpNode NT)
    && (depth >=? SingularExtensionDepth (PvNode NT))
    && negb (l_ttMove L =? MOVE_NONE)
    && negb (truthy (l_excludedMove L))
    && match l_tte L with
       | Some e =>
         type_has (tte_type (tt_entry (TT (st_glob s)) e)) VALUE_TYPE_LOWER
         && (tte_depth (tt_entry (TT (st_glob s)) e) >=? depth - 3 * ONE_PLY)
       | None => false
       end in
  let bestValue :=
    if SpNode NT then sp_bestValue (splitPoints (st_glob s) (l_sp L))
    else l_bestValue L in
  search_moves fuel L ci futilityBase singularExtensionNode
    {| v_alpha := l_alpha L; v_bestValue := bestValue; v_moveCount := 0;
       v_playedMoveCount := 0; v_movesSearched := []; v_mp := mp |}.

(** Step 20. Check for mate and stalemate. *)
Definition search_step20 (L : Locals) (V : LoopVars) : Exec unit :=
  s <- get ;;
  if negb (SpNode NT) && negb (truthy (v_moveCount V)) then
    return_ (if truthy (l_excludedMove L) then l_oldAlpha L
             else if l_inCheck L
                  then value_mated_in (ss_ply (st_ss s ssi))
                  else VALUE_DRAW)
  else ret tt.

(** Step 21. Update tables, and the return of [bestValue]. *)
Definition search_step21 (L : Locals) (V : LoopVars) : Exec Value :=
  s <- get ;;
  let bestValue := v_bestValue V in
  (if negb (SpNode NT)
      && negb (StopRequest (st_glob s))
      && negb (cutoff_occurred (Threads (st_glob s)) (thread (st_pos s)))
   then
     let move :=
       if bestValue <=? l_oldAlpha L then MOVE_NONE
       else ss_bestMove (st_ss s ssi) in
     let vt :=
       if bestValue <=? l_oldAlpha L then VALUE_TYPE_UPPER
       else if bestValue >=? l_beta L then VALUE_TYPE_LOWER
       else VALUE_TYPE_EXACT in
     modify (upd_glob (fun g =>
       set_TT (tt_store (TT g) (l_posKey L)
                 (value_to_tt bestValue (ss_ply (st_ss s ssi))) vt depth move
                 (ss_eval (st_ss s ssi)) (ss_evalMargin (st_ss s ssi))) g)) ;;
     (* Update killers and history only for non capture moves that fails
        high *)
     if (bestValue >=? l_beta L)
        && negb (is_capture_or_promotion (st_pos s) move)
     then
       (if negb (move =? ss_killers0 (st_ss s ssi))
        then modify (upd_frame ssi (push_killer move))
        else ret tt) ;;
       modify (upd_glob (fun g =>
         set_H (update_history (st_pos s) move depth (v_movesSearched V)
                  (v_playedMoveCount V) (H g)) g))
     else ret tt
   else ret tt) ;;
  (if SpNode NT then
     modify (upd_sp (l_sp L)
               (sp_leave (thread (st_pos s)) (nodes_searched (st_pos s))))
   else ret tt) ;;
  return_ bestValue.

(** From [split_point_start] to the end of [search]. *)
Definition search_from_moves (fuel : nat) (L : Locals) : Exec Value :=
  V <- search_move_loop fuel L ;;
  search_step20 L V ;;
  search_step21 L V.

(** Steps 6 to 10 and the rest of [search]. *)
Definition search_from_step9 (fuel : nat) (L : Locals) : Exec Value :=
  L <- search_step9 fuel L ;;
  L <- search_step10 L ;;
  search_from_moves fuel L.

Definition search_from_step8 (fuel : nat) (L : Locals) : Exec Value :=
  L <- search_step8 L ;;
  search_from_step9 fuel L.

Definition search_from_step7 (fuel : nat) (L : Locals) : Exec Value :=
  L <- search_step7 L ;;
  search_from_step8 fuel L.

Definition search_from_step6 (fuel : nat) (L : Locals) : Exec Value :=
  L <- search_step6 L ;;
  search_from_step7 fuel L.

(** The steps before the null-move search, and before the move loop, at
    a node that is not a split point. *)
Definition search_steps_1_7 (alpha beta : Value) : Exec Locals :=
  L <- search_steps_1_5 alpha beta ;;
  L <- search_step6 L ;;
  search_step7 L.

Definition search_steps_1_10 (fuel : nat) (alpha beta : Value)
  : Exec Locals :=
  L <- search_steps_1_7 alpha beta ;;
  L <- search_step8 L ;;
  L <- search_step9 fuel L ;;
  search_step10 L.

(** The body of [search<NT>(pos, ss, alpha, beta, depth)], [ss] being
    the frame of index [ssi]. *)
Definition search_body (fuel : nat) (alpha beta : Value) : Exec Value :=
  if SpNode NT then
    L <- search_step1 alpha beta ;;
    search_from_moves fuel L
  else
    L <- search_steps_1_5 alpha beta ;;
    search_from_step6 fuel L.

(** What the steps before the move loop leave in the locals that step 20
    reads: [oldAlpha] is the [alpha] of the call, [inCheck] and
    [excludedMove] are as the position and the frame were on entry. *)
Definition entry_locals (alpha : Value) (s0 : St) (L : Locals) : Prop :=
  l_oldAlpha L = alpha
  /\ l_inCheck L = in_check (st_pos s0)
  /\ l_excludedMove L = ss_excludedMove (st_ss s0 ssi).

(** Two values of the locals that agree on [oldAlpha], [inCheck] and
    [excludedMove]. *)
Definition same_entry (L L' : Locals) : Prop :=
  l_oldAlpha L' = l_oldAlpha L
  /\ l_inCheck L' = l_inCheck L
  /\ l_excludedMove L' = l_excludedMove L.

End Body.

(** ** qsearch() *)

Section QBody.
Variable qsearch_rec : SearchFn.
Variable NT : NodeType.
Variable ssi : Z.
Variable depth : Depth.

(** In [qsearch] a node is a PV node when [NT == PV]. *)
Definition qPvNode : bool :=
  match NT with PV => true | _ => false end.

(** The local variables of [qsearch] that live across its parts. *)
Record QLocals := {
  q_alpha : Value;
  q_beta : Value;
  q_oldAlpha : Value;
  q_inCheck : bool;
  q_ttDepth : Depth;
  q_tte : option Z;
  q_ttMove : Move;
  q_bestValue : Value;
  q_evalMargin : Value;
  q_futilityBase : Value;
  q_enoughMaterial : bool
}.

Definition set_q_eval (alpha bestValue evalMargin futilityBase : Value)
  (enoughMaterial : bool) (Q : QLocals) : QLocals :=
  {| q_alpha := alpha; q_beta := q_beta Q; q_oldAlpha := q_oldAlpha Q;
     q_inCheck := q_inCheck Q; q_ttDepth := q_ttDepth Q; q_tte := q_tte Q;
     q_ttMove := q_ttMove Q; q_bestValue := bestValue;
     q_evalMargin := evalMargin; q_futilityBase := futilityBase;
     q_enoughMaterial := enoughMaterial |}.

Definition set_q_best (alpha bestValue : Value) (Q : QLocals) : QLocals :=
  set_q_eval alpha bestValue (q_evalMargin Q) (q_futilityBase Q)
    (q_enoughMaterial Q) Q.

(** The start of [qsearch], up to the transposition table lookup. *)
Definition qsearch_probe (alpha beta : Value) : Exec QLocals :=
  let oldAlpha := alpha in
  modify (upd_frame ssi (set_currentMove MOVE_NONE)) ;;
  modify (upd_frame ssi (set_bestMove MOVE_NONE)) ;;
  s <- get ;;
  modify (upd_frame ssi (set_ply (ss_ply (st_ss s (ssi - 1)) + 1))) ;;
  s <- get ;;
  (* Check for an instant draw or maximum ply reached *)
  if is_draw true (st_pos s) || (ss_ply (st_ss s ssi) >? PLY_MAX)
  then return_ VALUE_DRAW
  else
    (* Decide whether or not to include checks *)
    let inCheck := in_check (st_pos s) in
    let ttDepth :=
      if inCheck || (depth >=? DEPTH_QS_CHECKS) then DEPTH_QS_CHECKS
      else DEPTH_QS_NO_CHECKS in
    (* Transposition table lookup *)
    let tte := tt_probe (TT (st_glob s)) (get_key (st_pos s)) in
    let ttMove :=
      match tte with
      | Some e => tte_move (tt_entry (TT (st_glob s)) e)
      | None => MOVE_NONE
      end in
    let Q :=
      {| q_alpha := alpha; q_beta := beta; q_oldAlpha := oldAlpha;
         q_inCheck := inCheck; q_ttDepth := ttDepth; q_tte := tte;
         q_ttMove := ttMove; q_bestValue := 0; q_evalMargin := 0;
         q_futilityBase := 0; q_enoughMaterial := false |} in
    match tte with
    | Some e =>
      if negb qPvNode
         && can_return_tt (tt_entry (TT (st_glob s)) e) ttDepth beta
              (ss_ply (st_ss s ssi))
      then
        modify (upd_frame ssi (set_bestMove ttMove)) ;;
        return_ (value_from_tt (tte_value (tt_entry (TT (st_glob s)) e))
                   (ss_ply (st_ss s ssi)))
      else ret Q
    | None => ret Q
    end.

(** Evaluate the position statically, and stand pat. *)
Definition qsearch_stand_pat (Q : QLocals) : Exec QLocals :=
  s <- get ;;
  if q_inCheck Q then
    modify (upd_frame ssi (set_eval VALUE_NONE (ss_evalMargin (st_ss s ssi)))) ;;
    ret (set_q_eval (q_alpha Q) (- VALUE_INFINITE) VALUE_NONE
           (- VALUE_INFINITE) false Q)
  else
    let '(bestValue, evalMargin) :=
      match q_tte Q with
      | Some e =>
        (tte_static_value (tt_entry (TT (st_glob s)) e),
         tte_static_value_margin (tt_entry (TT (st_glob s)) e))
      | None => evaluate (st_pos s)
      end in
    modify (upd_frame ssi (set_eval bestValue (ss_evalMargin (st_ss s ssi)))) ;;
    (* Stand pat. Return immediately if static value is at least beta *)
    if bestValue >=? q_beta Q then
      (match q_tte Q with
       | None =>
         modify (upd_glob (fun g =>
           set_TT (tt_store (TT g) (get_key (st_pos s))
                     (value_to_tt bestValue (ss_ply (st_ss s ssi)))
                     VALUE_TYPE_LOWER DEPTH_NONE MOVE_NONE bestValue
                     evalMargin) g))
       | Some _ => ret tt
       end) ;;
      return_ bestValue
    else
      let alpha :=
        if qPvNode && (bestValue >? q_alpha Q) then bestValue
        else q_alpha Q in
      (* Futility pruning parameters, not needed when in check *)
      let futilityBase := bestValue + evalMargin + FutilityMarginQS in
      let enoughMaterial :=
        non_pawn_material (st_pos s) (side_to_move (st_pos s))
          >? RookValueMidgame in
      ret (set_q_eval alpha bestValue evalMargin futilityBase
             enoughMaterial Q).

(** The body of the move loop of [qsearch] for the move [move]. *)
Definition qsearch_move (ci : CheckInfo) (Q : QLocals) (move : Move)
  : Exec QLocals :=
  s <- get ;;
  let givesCheck := move_gives_check (st_pos s) move ci in
  (* Futility pruning *)
  let futile :=
    negb qPvNode
    && negb (q_inCheck Q)
    && negb givesCheck
    && negb (move =? q_ttMove Q)
    && q_enoughMaterial Q
    && negb (is_promotion move)
    && negb (is_passed_pawn_push (st_pos s) move) in
  let futilityValue :=
    q_futilityBase Q
    + PieceValueEndgame (piece_on (st_pos s) (move_to move))
    + (if is_enpassant move then PawnValueEndgame else VALUE_ZERO) in
  if futile && (futilityValue <? q_beta Q) then
    ret (if futilityValue >? q_bestValue Q
         then set_q_best (q_alpha Q) futilityValue Q else Q)
  (* Prune moves with negative or equal SEE *)
  else if futile
          && (q_futilityBase Q <? q_beta Q)
          && (depth <? DEPTH_ZERO)
          && (see (st_pos s) move <=? 0)
  then ret Q
  else
    (* Detect non-capture evasions that are candidate to be pruned *)
    let evasionPrunable :=
      negb qPvNode
      && q_inCheck Q
      && (q_bestValue Q >? VALUE_MATED_IN_PLY_MAX)
      && negb (is_capture (st_pos s) move)
      && negb (can_castle (st_pos s) (side_to_move (st_pos s))) in
    (* Don't search moves with negative SEE values *)
    if negb qPvNode
       && (negb (q_inCheck Q) || evasionPrunable)
       && negb (move =? q_ttMove Q)
       && negb (is_promotion move)
       && (see_sign (st_pos s) move <? 0)
    then ret Q
    else
      (* Don't search useless checks *)
      useless <-
        (if negb qPvNode
            && negb (q_inCheck Q)
            && givesCheck
            && negb (move =? q_ttMove Q)
            && negb (is_capture_or_promotion (st_pos s) move)
            && (ss_eval (st_ss s ssi) + Z.quot PawnValueMidgame 4
                  <? q_beta Q)
         then
           match check_is_dangerous (st_pos s) move (q_futilityBase Q)
                   (q_beta Q) (q_bestValue Q) with
           | None => out_of_fuel
           | Some (dangerous, bestValue) =>
             ret (negb dangerous, set_q_best (q_alpha Q) bestValue Q)
           end
         else ret (false, Q)) ;;
      let '(useless, Q) := useless in
      if useless : bool then
        ret (if ss_eval (st_ss s ssi) + Z.quot PawnValueMidgame 4
                  >? q_bestValue Q
             then set_q_best (q_alpha Q)
                    (ss_eval (st_ss s ssi) + Z.quot PawnValueMidgame 4) Q
             else Q)
      (* Check for legality only before to do the move *)
      else if negb (pl_move_is_legal (st_pos s) move (pinned ci))
      then ret Q
      else
        (* Update current move *)
        modify (upd_frame ssi (set_currentMove move)) ;;
        (* Make and search the move *)
        modify (upd_pos (fun p => do_move_ci p move ci givesCheck)) ;;
        v <- call (qsearch_rec NT (ssi + 1) (- q_beta Q) (- q_alpha Q)
                     (depth - ONE_PLY)) ;;
        let value := - v in
        modify (upd_pos (fun p => undo_move p move)) ;;
        (* New best move? *)
        if value >? q_bestValue Q then
          modify (upd_frame ssi (set_bestMove move)) ;;
          ret (set_q_best
                 (if qPvNode && (value >? q_alpha Q) && (value <? q_beta Q)
                  then value else q_alpha Q)
                 value Q)
        else ret Q.

(** Loop through the moves until no moves remain or a beta cutoff
    occurs. *)
Fixpoint qsearch_moves (fuel : nat) (ci : CheckInfo) (mp : MovePicker)
  (Q : QLocals) : Exec QLocals :=
  if negb (q_bestValue Q <? q_beta Q) then ret Q
  else
    match fuel with
    | O => out_of_fuel
    | S fuel =>
      s <- get ;;
      let '(move, mp) := get_next_move mp (st_pos s) (H (st_glob s)) in
      if move =? MOVE_NONE then ret Q
      else
        Q <- qsearch_move ci Q move ;;
        qsearch_moves fuel ci mp Q
    end.

(** The move loop of [qsearch] and what follows it. *)
Definition qsearch_from_moves (fuel : nat) (Q : QLocals) : Exec Value :=
  s <- get ;;
  let mp :=
    MovePicker_qsearch (st_pos s) (q_ttMove Q) depth (H (st_glob s))
      (move_to (ss_currentMove (st_ss s (ssi - 1)))) in
  let ci := check_info (st_pos s) in
  Q <- qsearch_moves fuel ci mp Q ;;
  s <- get ;;
  let bestValue := q_bestValue Q in
  (* All legal moves have been searched *)
  if q_inCheck Q && (bestValue =? - VALUE_INFINITE)
  then return_ (value_mated_in (ss_ply (st_ss s ssi)))
  else
    (* Update transposition table *)
    let move :=
      if bestValue <=? q_oldAlpha Q then MOVE_NONE
      else ss_bestMove (st_ss s ssi) in
    let vt :=
      if bestValue <=? q_oldAlpha Q then VALUE_TYPE_UPPER
      else if bestValue >=? q_beta Q then VALUE_TYPE_LOWER
      else VALUE_TYPE_EXACT in
    modify (upd_glob (fun g =>
      set_TT (tt_store (TT g) (get_key (st_pos s))
                (value_to_tt bestValue (ss_ply (st_ss s ssi))) vt
                (q_ttDepth Q) move (ss_eval (st_ss s ssi))
                (q_evalMargin Q)) g)) ;;
    return_ bestValue.

(** The body of [qsearch<NT>(pos, ss, alpha, beta, depth)]. *)
Definition qsearch_body (fuel : nat) (alpha beta : Value) : Exec Value :=
  Q <- qsearch_probe alpha beta ;;
  Q <- qsearch_stand_pat Q ;;
  qsearch_from_moves fuel Q.

(** The static evaluation that [qsearch] stands on when not in check, and
    its margin: those of the transposition-table entry when there is one,
    else those of a fresh evaluation. *)
Definition qsearch_static (Q : QLocals) (s : St) : Value * Value :=
  match q_tte Q with
  | Some e =>
    (tte_static_value (tt_entry (TT (st_glob s)) e),
     tte_static_value_margin (tt_entry (TT (st_glob s)) e))
  | None => evaluate (st_pos s)
  end.

(** The table after the store of the stand-pat cut-off. *)
Definition qsearch_stand_pat_store (Q : QLocals) (s : St)
  : TranspositionTable :=
  tt_store (TT (st_glob s)) (get_key (st_pos s))
    (value_to_tt (fst (qsearch_static Q s)) (ss_ply (st_ss s ssi)))
    VALUE_TYPE_LOWER DEPTH_NONE MOVE_NONE (fst (qsearch_static Q s))
    (snd (qsearch_static Q s)).

(** The stand-pat claim as the specification words it: whenever the
    static evaluation reaches [beta], a LOWER entry is stored for the
    position and the evaluation is returned. *)
Definition stand_pat_as_specified (fuel : nat) (alpha beta : Value)
  (s0 : St) : Prop :=
  forall (Q : QLocals) (s1 : St),
    qsearch_probe alpha beta s0 = (Next Q, s1) ->
    in_check (st_pos s0) = false ->
    fst (qsearch_static Q s1) >= beta ->
    exists s' : St,
      qsearch_body fuel alpha beta s0
        = (Return (fst (qsearch_static Q s1)), s')
      /\ TT (st_glob s') = qsearch_stand_pat_store Q s1.

End QBody.

(** [search] and [qsearch] with their recursive calls: a call nested
    deeper than [n] gives no result, and so does a move loop that draws
    more than [fuel] moves. *)
Fixpoint qsearch (fuel n : nat) : SearchFn :=
  match n with
  | O => fun _ _ _ _ _ s => (None, s)
  | S n => fun NT ssi alpha beta depth =>
      run (qsearch_body (qsearch fuel n) NT ssi depth fuel alpha beta)
  end.

Fixpoint search (fuel n : nat) : SearchFn :=
  match n with
  | O => fun _ _ _ _ _ s => (None, s)
  | S n => fun NT ssi alpha beta depth =>
      run (search_body (search fuel n) (qsearch fuel n) NT ssi depth fuel
             alpha beta)
  end.

End SearchCore.

(** ** The UCI front end: set_position() *)

(** FEN string for the initial position. *)
Definition StarFEN : string :=
  "rnbqkbnr/pppppppp/8/8/8/8/PPPPPPPP/RNBQKBNR w KQkq - 0 1"%string.

Section Uci.
Context `{Types} `{PositionOps}.

(** What [set_position] works on: the root position and the pointer
    [SetupState] into the ring [StateRingBuf], kept as an index. *)
Record UciState := {
  root_pos : Position;
  SetupState : Z
}.

(** The input stream is modelled by the sequence of the blank-separated
    tokens still to be read, which is what [is >> token] hands out; a read
    on an exhausted stream fails and leaves [token] as it was.

    The loop [while (is >> token && token != "moves") fen += token + " "]. *)
Fixpoint set_position_fen (input : list string) (fen : string)
  : string * list string :=
  match input with
  | [] => (fen, [])
  | token :: rest =>
    if String.eqb token "moves"%string then (fen, rest)
    else set_position_fen rest (String.append fen (String.append token " "%string))
  end.

(** The loop that parses the move list and makes the moves. *)
Fixpoint set_position_moves (input : list string) (st : UciState) : UciState :=
  match input with
  | [] => st
  | token :: rest =>
    let m := move_from_uci (root_pos st) token in
    if m =? MOVE_NONE then st
    else
      set_position_moves rest
        {| root_pos := do_move (root_pos st) m;
           SetupState :=
             if SetupState st + 1 >=? 102 then 0 else SetupState st + 1 |}
  end.

(** [set_position] is called on the "position" command.  [UCI_Chess960]
    is the value of the option of that name. *)
Definition set_position (UCI_Chess960 : bool) (st : UciState)
  (input : list string) : UciState :=
  let token := hd EmptyString input in
  if String.eqb token "startpos"%string then
    let fen := StarFEN in
    (* is >> token: consume the "moves" token if any *)
    let input := tl (tl input) in
    set_position_moves input
      {| root_pos := from_fen (root_pos st) fen UCI_Chess960;
         SetupState := SetupState st |}
  else if String.eqb token "fen"%string then
    let '(fen, input) := set_position_fen (tl input) EmptyString in
    set_position_moves input
      {| root_pos := from_fen (root_pos st) fen UCI_Chess960;
         SetupState := SetupState st |}
  else st.

(** The tokens of [input] parse one after the other as legal moves, each in
    the position its predecessors lead to. *)
Fixpoint parse_as_moves (pos : Position) (input : list string) : Prop :=
  match input with
  | [] => True
  | token :: rest =>
    move_from_uci pos token <> MOVE_NONE
    /\ parse_as_moves (do_move pos (move_from_uci pos token)) rest
  end.

(** The position reached by making the moves that [input] spells. *)
Fixpoint play_moves (pos : Position) (input : list string) : Position :=
  match input with
  | [] => pos
  | token :: rest => play_moves (do_move pos (move_from_uci pos token)) rest
  end.

(** The ring index after [n] more moves. *)
Fixpoint ring_advance (n : nat) (i : Z) : Z :=
  match n with
  | O => i
  | S n => ring_advance n (if i + 1 >=? 102 then 0 else i + 1)
  end.

End Uci.

(** The customary values of the engine's constants, used to run the
    model on concrete inputs. *)
Definition sample_types : Types := {|
  ONE_PLY := 2;
  PLY_MAX := 100;
  MAX_MOVES := 256;
  VALUE_DRAW := 0;
  VALUE_KNOWN_WIN := 15000;
  VALUE_MATE := 30000;
  VALUE_INFINITE := 30001;
  VALUE_NONE := 30002;
  VALUE_MATE_IN_PLY_MAX := 29900;
  VALUE_MATED_IN_PLY_MAX := -29900;
  value_mate_in := fun ply => 30000 - ply;
  value_mated_in := fun ply => -30000 + ply;
  PawnValueMidgame := 198;
  PawnValueEndgame := 258;
  RookValueMidgame := 1276;
  PieceValueMidgame := fun _ => 0;
  PieceValueEndgame := fun p =>
    if p =? 1 then 258 else if p =? 5 then 2558 else 0;
  DEPTH_QS_CHECKS := -2;
  DEPTH_QS_NO_CHECKS := -4;
  DEPTH_NONE := -254;
  MOVE_NONE := 0;
  MOVE_NULL := 65;
  VALUE_TYPE_NONE := 0;
  VALUE_TYPE_UPPER := 1;
  VALUE_TYPE_LOWER := 2;
  VALUE_TYPE_EXACT := 3;
  PIECE_TYPE_NONE := 0;
  PAWN := 1;
  QUEEN := 5;
  KING := 6;
  WHITE := 0;
  BLACK := 1;
  RANK_7 := 6;
  type_of := fun p => Z.land p 7;
  flip := fun c => Z.lxor c 1;
  relative_rank := fun c s => Z.lxor (Z.shiftr s 3) (c * 7);
  move_from := fun m => Z.land (Z.shiftr m 6) 63;
  move_to := fun m => Z.land m 63;
  make_move := fun from to => Z.lor to (Z.shiftl from 6);
  is_special := fun m => truthy (Z.land m (Z.shiftl 3 14));
  is_castle := fun m => Z.land m (Z.shiftl 3 14) =? Z.shiftl 3 14;
  is_promotion := fun m => Z.land m (Z.shiftl 3 14) =? Z.shiftl 1 14;
  is_enpassant := fun m => Z.land m (Z.shiftl 3 14) =? Z.shiftl 2 14
|}.

(** ** A small world to run the model on

    The instances below are stand-ins for the collaborators, just rich
    enough to drive [search], [qsearch], [check_is_dangerous] and
    [set_position] through the paths the examples exercise. *)

Record SamplePos := {
  pos_key : Key;
  pos_in_check : bool;
  pos_eval : Value;
  pos_material : Value;
  pos_moves : list Move;
  pos_them : Bitboard;
  pos_king_att : Bitboard;
  pos_old_att : Bitboard;
  pos_new_att : Bitboard;
  pos_board : Square -> Piece
}.

Definition sample_do_move (p : SamplePos) (m : Move) : SamplePos :=
  {| pos_key := pos_key p * 4096 + m; pos_in_check := false;
     pos_eval := - pos_eval p; pos_material := pos_material p;
     pos_moves := pos_moves p; pos_them := pos_them p;
     pos_king_att := pos_king_att p; pos_old_att := pos_old_att p;
     pos_new_att := pos_new_att p; pos_board := pos_board p |}.

Definition sample_undo_move (p : SamplePos) (m : Move) : SamplePos :=
  {| pos_key := Z.quot (pos_key p) 4096; pos_in_check := pos_in_check p;
     pos_eval := - pos_eval p; pos_material := pos_material p;
     pos_moves := pos_moves p; pos_them := pos_them p;
     pos_king_att := pos_king_att p; pos_old_att := pos_old_att p;
     pos_new_att := pos_new_att p; pos_board := pos_board p |}.

Definition sample_start : SamplePos :=
  {| pos_key := 1; pos_in_check := false; pos_eval := 0; pos_material := 8000;
     pos_moves := []; pos_them := 0; pos_king_att := 0; pos_old_att := 0;
     pos_new_att := 0; pos_board := fun _ => 0 |}.

(** Two moves are known to the sample parser: e2e4 and e7e5. *)
Definition sample_move_from_uci (p : SamplePos) (token : string) : Move :=
  if String.eqb token "e2e4"%string then 796
  else if String.eqb token "e7e5"%string then 3364
  else 0.

Definition sample_position : PositionOps := {|
  Position := SamplePos;
  CheckInfo := unit;
  from_fen := fun _ fen _ =>
    {| pos_key := Z.of_nat (String.length fen); pos_in_check := false;
       pos_eval := 0; pos_material := 8000; pos_moves := []; pos_them := 0;
       pos_king_att := 0; pos_old_att := 0; pos_new_att := 0;
       pos_board := fun _ => 0 |};
  move_from_uci := sample_move_from_uci;
  do_move := sample_do_move;
  do_move_ci := fun p m _ _ => sample_do_move p m;
  undo_move := sample_undo_move;
  do_null_move := fun _ p => p;
  thread := fun _ => 0;
  in_check := pos_in_check;
  is_draw := fun _ _ => false;
  get_key := pos_key;
  get_exclusion_key := fun p => pos_key p + 1;
  side_to_move := fun _ => 0;
  piece_on := pos_board;
  is_capture_or_promotion := fun _ _ => false;
  is_capture := fun _ _ => false;
  captured_piece_type := fun _ => 0;
  has_pawn_on_7th := fun _ _ => false;
  non_pawn_material := fun p _ => pos_material p;
  pawn_is_passed := fun _ _ _ => false;
  is_passed_pawn_push := fun _ _ => false;
  can_castle := fun _ _ => false;
  pl_move_is_legal := fun _ _ _ => true;
  is_pseudo_legal := fun _ _ => true;
  pinned_pieces := fun _ => 0;
  move_gives_check := fun _ _ _ => false;
  see_sign := fun _ _ => 0;
  see := fun _ _ => 0;
  nodes_searched := fun _ => 0;
  king_square := fun _ _ => 4;
  occupied_squares := fun p => pos_them p;
  pieces := fun p _ => pos_them p;
  attacks_from := fun p _ sq _ =>
    if sq =? 9 then pos_old_att p else pos_new_att p;
  attacks_from_here := fun p _ _ => pos_new_att p;
  attacks_from_KING := fun p _ => pos_king_att p;
  move_attacks_square := fun _ _ _ => false;
  check_info := fun _ => tt;
  pinned := fun _ => 0;
  evaluate := fun p => (pos_eval p, 0)
|}.

(** The lowest set square of a bitboard, found by trying the squares. *)
Definition sample_pop_1st_bit (b : Bitboard) : Square * Bitboard :=
  match find (Z.testbit b) all_squares with
  | Some s => (s, Z.clearbit b s)
  | None => (0, b)
  end.

Definition sample_bitboards : BitboardOps := {|
  bit_is_set := Z.testbit;
  clear_bit := Z.clearbit;
  squares_between := fun _ _ => 0;
  pop_1st_bit := sample_pop_1st_bit
|}.

(** A table that keeps every entry: a list of keys and entries, a slot
    being a position in the list. *)
Fixpoint sample_probe (t : list (Key * TTEntry)) (k : Key) (i : Z)
  : option Z :=
  match t with
  | [] => None
  | (k', _) :: t' => if k' =? k then Some i else sample_probe t' k (i + 1)
  end.

Definition sample_blank_entry : TTEntry :=
  {| tte_move := 0; tte_value := 0; tte_type := 0; tte_depth := 0;
     tte_static_value := 0; tte_static_value_margin := 0 |}.

Definition sample_table : TableOps := {|
  TranspositionTable := list (Key * TTEntry);
  tt_probe := fun t k => sample_probe t k 0;
  tt_entry := fun t i => snd (nth (Z.to_nat i) t (0, sample_blank_entry));
  tt_store := fun t k v vt d m sv svm =>
    (t ++ [(k, {| tte_move := m; tte_value := v; tte_type := vt;
                  tte_depth := d; tte_static_value := sv;
                  tte_static_value_margin := svm |})])%list;
  tt_refresh := fun t _ => t
|}.

Definition sample_history : HistoryOps := {|
  History := unit;
  h_gain := fun _ _ _ => 0;
  h_update_gain := fun h _ _ _ => h;
  h_update := fun h _ _ _ => h
|}.

Definition sample_picker : @MovePickerOps sample_position sample_history :=
  @Build_MovePickerOps sample_position sample_history
    (list Move)
    (fun (p : SamplePos) _ _ _ _ _ => pos_moves p)
    (fun (p : SamplePos) _ _ _ _ => pos_moves p)
    (fun (p : SamplePos) _ _ _ => pos_moves p)
    (fun mp _ _ =>
       match mp with
       | [] => (0, [])
       | m :: mp' => (m, mp')
       end).

Definition sample_threads : ThreadsOps := {|
  ThreadsManager := Z;
  maxPly := fun t _ => t;
  set_maxPly := fun _ _ v => v;
  cutoff_occurred := fun _ _ => false;
  min_split_depth := fun _ => 8;
  available_slave_exists := fun _ _ => false
|}.

Definition sample_tables : SearchTables := {|
  FutilityMargins := fun d mn => 1000 + 100 * d - 8 * mn;
  FutilityMoveCounts := fun d => 3 + Z.quot (d * d) 4;
  Reductions := fun _ _ _ => 0
|}.

Definition sample_engine
  : @EngineOps sample_position sample_table sample_history sample_picker
      sample_threads unit := {|
  poll := fun _ g => g;
  split := fun _ _ _ _ bestValue _ _ _ mp s => ((bestValue, mp), s)
|}.

Section Samples.
#[local] Existing Instance sample_types.
#[local] Existing Instance sample_position.
#[local] Existing Instance sample_bitboards.
#[local] Existing Instance sample_table.
#[local] Existing Instance sample_history.
#[local] Existing Instance sample_picker.
#[local] Existing Instance sample_threads.
#[local] Existing Instance sample_tables.
#[local] Existing Instance sample_engine.

Definition sample_frame : SearchStack :=
  {| ss_ply := 0; ss_currentMove := 0; ss_bestMove := 0; ss_killers0 := 0;
     ss_killers1 := 0; ss_eval := 0; ss_evalMargin := 0;
     ss_skipNullMove := false; ss_reduction := 0; ss_excludedMove := 0;
     ss_sp := 0 |}.

Definition sample_split_point : SplitPoint :=
  {| sp_bestValue := 0; sp_alpha := 0; sp_moveCount := 0;
     sp_threatMove := 0; sp_mp := []; sp_is_betaCutoff := false;
     sp_ss := 0; sp_is_slave := fun _ => false; sp_nodes := 0 |}.

(** A state with the position [p] and the table [t], at the start of a
    search. *)
Definition sample_state (p : SamplePos) (t : list (Key * TTEntry))
  : St unit :=
  {| st_pos := p;
     st_ss0 := fun _ => sample_frame;
     st_written := [];
     st_glob :=
       {| TT := t; H := tt; Threads := 0;
          splitPoints := fun _ => sample_split_point;
          Rml := []; Rml_bestMoveChanges := 0; MultiPV := 1;
          MultiPVIdx := 0; StopRequest := false; FirstRootMove := false;
          NodesSincePoll := 0; NodesBetweenPolls := 30000; world := tt |} |}.

(** A root move and the scores of three iterations, for the aspiration
    window. *)
Definition sample_root_move : RootMove :=
  {| nodes := 1000; score := 35; prevScore := 30; pv := [796; 0] |}.

Definition sample_bestValues (d : Z) : Value :=
  if d =? 4 then 30 else if d =? 3 then 21 else if d =? 2 then 40 else 0.

(** Stand-ins for the recursive calls: every call gives the value 5. *)
Definition sample_rec : SearchFn unit := fun _ _ _ _ _ s => (Some 5, s).

(** A position whose static evaluation is 50, and a table that knows it
    with an upper bound. *)
Definition sample_quiet : SamplePos :=
  {| pos_key := 7; pos_in_check := false; pos_eval := 50; pos_material := 8000;
     pos_moves := []; pos_them := 0; pos_king_att := 0; pos_old_att := 0;
     pos_new_att := 0; pos_board := fun _ => 0 |}.

Definition sample_known : list (Key * TTEntry) :=
  [(7, {| tte_move := 0; tte_value := 60; tte_type := 1; tte_depth := -4;
          tte_static_value := 50; tte_static_value_margin := 0 |})].

(** A position in which a knight check from square 18 newly attacks the
    pieces on squares 27 (a pawn) and 36 (a queen). *)
Definition sample_check : SamplePos :=
  {| pos_key := 9; pos_in_check := false; pos_eval := 0; pos_material := 8000;
     pos_moves := []; pos_them := 2 ^ 4 + 2 ^ 12 + 2 ^ 27 + 2 ^ 36;
     pos_king_att := 2 ^ 3 + 2 ^ 5 + 2 ^ 11 + 2 ^ 12 + 2 ^ 13;
     pos_old_att := 0;
     pos_new_att := 2 ^ 4 + 2 ^ 27 + 2 ^ 36;
     pos_board := fun s => if s =? 27 then 1 else if s =? 36 then 5 else 0 |}.

End Samples.

(** * More of search.cpp and of the UCI front end *)

(** ** Root moves (RootMoveList::init, RootMove::insert_pv_in_tt) *)

(** The legal move generator (movegen.h): the moves that
    [MoveList<MV_LEGAL> ml(pos)] runs through, in its order. *)
Class MoveGenOps `{PositionOps} := {
  legal_moves : Position -> list Move
}.

Section RootMoves.
Context {types : Types} {position : PositionOps} {table : TableOps}
  {movegen : MoveGenOps}.

(** A root move as its constructor leaves it; the default of [nth]. *)
Definition blank_root_move : RootMove :=
  {| nodes := 0; score := 0; prevScore := 0; pv := [] |}.

(** The scan [for (sm = searchMoves; *sm && *sm != ml.move(); sm++)] of
    [RootMoveList::init]: the result is whether [sm] has moved and the
    entry [*sm] it stops at; [None] is a read beyond the array. *)
Fixpoint Rml_init_scan (searchMoves : list Move) (m : Move) (moved : bool)
  : option (bool * Move) :=
  match searchMoves with
  | [] => None
  | x :: rest =>
    if truthy x && negb (x =? m) then Rml_init_scan rest m true
    else Some (moved, x)
  end.

(** The root move that [RootMoveList::init] pushes for the move [m]. *)
Definition Rml_init_root_move (m : Move) : RootMove :=
  {| nodes := 0; score := - VALUE_INFINITE; prevScore := - VALUE_INFINITE;
     pv := [m; MOVE_NONE] |}.

(** The loop of [RootMoveList::init] over the legal moves [ml]. *)
Fixpoint Rml_init_moves (ml : list Move) (searchMoves : list Move)
  (rml : list RootMove) : option (list RootMove) :=
  match ml with
  | [] => Some rml
  | m :: ml' =>
    match Rml_init_scan searchMoves m false with
    | None => None
    | Some (moved, x) =>
      if moved && negb (x =? m) then Rml_init_moves ml' searchMoves rml
      else
        Rml_init_moves ml' searchMoves (rml ++ [Rml_init_root_move m])%list
    end
  end.

(** [RootMoveList::init]: the new list and [bestMoveChanges]. *)
Definition Rml_init (pos : Position) (searchMoves : list Move)
  : option (list RootMove * Z) :=
  match Rml_init_moves (legal_moves pos) searchMoves [] with
  | Some rml => Some (rml, 0)
  | None => None
  end.

(** The body of the loop of [RootMove::insert_pv_in_tt] before the move
    is made: the table and the margin [m] after it. *)
Definition insert_pv_store (tbl : TranspositionTable) (pos : Position)
  (m : Value) (move : Move) : TranspositionTable * Value :=
  let k := get_key pos in
  let tte := tt_probe tbl k in
  (* Don't overwrite existing correct entries *)
  if match tte with
     | None => true
     | Some e => negb (tte_move (tt_entry tbl e) =? move)
     end
  then
    let '(v, m) := if in_check pos then (VALUE_NONE, m) else evaluate pos in
    (tt_store tbl k VALUE_NONE VALUE_TYPE_NONE DEPTH_NONE move v m, m)
  else (tbl, m).

(** The loop [do ... while (pv[++ply] != MOVE_NONE)]; [pv] is what is
    left of the line from [pv[ply]] on and [made] the moves made, last
    first.  [None] is a read beyond the end of the line. *)
Fixpoint insert_pv_loop (pv : list Move) (tbl : TranspositionTable)
  (pos : Position) (m : Value) (made : list Move)
  : option (TranspositionTable * Position * list Move) :=
  match pv with
  | [] => None
  | move :: rest =>
    let '(tbl, m) := insert_pv_store tbl pos m move in
    let pos := do_move pos move in
    match rest with
    | [] => None
    | next :: _ =>
      if negb (next =? MOVE_NONE)
      then insert_pv_loop rest tbl pos m (move :: made)
      else Some (tbl, pos, move :: made)
    end
  end.

(** [RootMove::insert_pv_in_tt] inserts the PV back into the table and
    takes the moves back. *)
Definition insert_pv_in_tt (rm : RootMove) (tbl : TranspositionTable)
  (pos : Position) : option (TranspositionTable * Position) :=
  match insert_pv_loop (pv rm) tbl pos VALUE_NONE [] with
  | None => None
  | Some (tbl, pos, made) => Some (tbl, fold_left undo_move made pos)
  end.

(** The positions along a line, each with the move made there. *)
Fixpoint pv_positions (pos : Position) (line : list Move)
  : list (Position * Move) :=
  match line with
  | [] => []
  | m :: rest => (pos, m) :: pv_positions (do_move pos m) rest
  end.

End RootMoves.

(** ** perft() (lines 330-352) *)

Section Perft.
Context {types : Types} {position : PositionOps} {movegen : MoveGenOps}.

(** The loop of [perft] through the legal moves [ml], [perft_rec] being
    the recursive call. *)
Fixpoint perft_moves (perft_rec : Position -> Depth -> option (Z * Position))
  (ci : CheckInfo) (depth : Depth) (ml : list Move) (pos : Position)
  (sum : Z) : option (Z * Position) :=
  match ml with
  | [] => Some (sum, pos)
  | m :: ml' =>
    let pos := do_move_ci pos m ci (move_gives_check pos m ci) in
    match perft_rec pos (depth - ONE_PLY) with
    | None => None
    | Some (n, pos) =>
      let pos := undo_move pos m in
      perft_moves perft_rec ci depth ml' pos (sum + n)
    end
  end.

(** [perft]: the count and the position after the call; [fuel] bounds
    the depth of the recursion. *)
Fixpoint perft (fuel : nat) (pos : Position) (depth : Depth)
  : option (Z * Position) :=
  match fuel with
  | O => None
  | S fuel =>
    (* Generate all legal moves *)
    let ml := legal_moves pos in
    (* If we are at the last ply we don't need to do and undo the moves *)
    if depth <=? ONE_PLY then Some (Z.of_nat (List.length ml), pos)
    else perft_moves (perft fuel) (check_info pos) depth ml pos 0
  end.

(** The number of plies that [perft] walks down for [depth]. *)
Definition perft_plies (depth : Depth) : nat :=
  Z.to_nat (Z.max 1 ((depth + ONE_PLY - 1) / ONE_PLY)).

(** The sequences of [k] legal moves from a position. *)
Fixpoint legal_lines (k : nat) (pos : Position) : list (list Move) :=
  match k with
  | O => [[]]
  | S k =>
    flat_map
      (fun m =>
         map (cons m)
           (legal_lines k
              (do_move_ci pos m (check_info pos)
                 (move_gives_check pos m (check_info pos)))))
      (legal_moves pos)
  end.

End Perft.

(** ** poll() and wait_for_stop_or_ponderhit() *)

(** The namespace variables of search.cpp that time management reads and
    writes, with the static [lastInfoTime] of [poll]. *)
Record TimeControl := {
  tc_Limits : SearchLimits;
  tc_StopRequest : bool;
  tc_QuitRequest : bool;
  tc_StopOnPonderhit : bool;
  tc_FirstRootMove : bool;
  tc_AspirationFailLow : bool;
  tc_lastInfoTime : Z
}.

Definition set_ponder (v : bool) (l : SearchLimits) : SearchLimits :=
  {| time := time l; increment := increment l; movesToGo := movesToGo l;
     maxTime := maxTime l; maxDepth := maxDepth l; maxNodes := maxNodes l;
     infinite := infinite l; ponder := v |}.

Definition tc_set_ponder (v : bool) (c : TimeControl) : TimeControl :=
  {| tc_Limits := set_ponder v (tc_Limits c);
     tc_StopRequest := tc_StopRequest c; tc_QuitRequest := tc_QuitRequest c;
     tc_StopOnPonderhit := tc_StopOnPonderhit c;
     tc_FirstRootMove := tc_FirstRootMove c;
     tc_AspirationFailLow := tc_AspirationFailLow c;
     tc_lastInfoTime := tc_lastInfoTime c |}.

Definition tc_set_StopRequest (v : bool) (c : TimeControl) : TimeControl :=
  {| tc_Limits := tc_Limits c;
     tc_StopRequest := v; tc_QuitRequest := tc_QuitRequest c;
     tc_StopOnPonderhit := tc_StopOnPonderhit c;
     tc_FirstRootMove := tc_FirstRootMove c;
     tc_AspirationFailLow := tc_AspirationFailLow c;
     tc_lastInfoTime := tc_lastInfoTime c |}.

Definition tc_set_QuitRequest (v : bool) (c : TimeControl) : TimeControl :=
  {| tc_Limits := tc_Limits c;
     tc_StopRequest := tc_StopRequest c; tc_QuitRequest := v;
     tc_StopOnPonderhit := tc_StopOnPonderhit c;
     tc_FirstRootMove := tc_FirstRootMove c;
     tc_AspirationFailLow := tc_AspirationFailLow c;
     tc_lastInfoTime := tc_lastInfoTime c |}.

Definition tc_set_lastInfoTime (v : Z) (c : TimeControl) : TimeControl :=
  {| tc_Limits := tc_Limits c;
     tc_StopRequest := tc_StopRequest c; tc_QuitRequest := tc_QuitRequest c;
     tc_StopOnPonderhit := tc_StopOnPonderhit c;
     tc_FirstRootMove := tc_FirstRootMove c;
     tc_AspirationFailLow := tc_AspirationFailLow c;
     tc_lastInfoTime := v |}.

Definition tc_set_fail_low (c : TimeControl) : TimeControl :=
  {| tc_Limits := tc_Limits c;
     tc_StopRequest := tc_StopRequest c; tc_QuitRequest := tc_QuitRequest c;
     tc_StopOnPonderhit := false;
     tc_FirstRootMove := tc_FirstRootMove c;
     tc_AspirationFailLow := true;
     tc_lastInfoTime := tc_lastInfoTime c |}.

(** What [poll] finds on standard input: nothing pending, a read that
    fails, or a line. *)
Inductive PollInput :=
| NoInput
| InputFailed
| InputLine (command : string).

(** What [poll] consults outside the variables of search.cpp: the
    milliseconds since the start of the search, standard input, the time
    manager and [SearchLimits::useTimeManagement] of search.h. *)
Record PollWorld := {
  current_search_time : Z;
  pending_input : PollInput;
  available_time : Z;
  maximum_time : Z;
  useTimeManagement : SearchLimits -> bool
}.

Section Poll.
Context {position : PositionOps}.

(** The first part of [poll]: [inr] is the [return] of the quit branch. *)
Definition poll_input (w : PollWorld) (c : TimeControl)
  : TimeControl + TimeControl :=
  match pending_input w with
  | NoInput => inl c
  | InputFailed =>
    (* Quit the program as soon as possible *)
    inr (tc_set_StopRequest true
           (tc_set_QuitRequest true (tc_set_ponder false c)))
  | InputLine command =>
    if String.eqb command "quit" then
      inr (tc_set_StopRequest true
             (tc_set_QuitRequest true (tc_set_ponder false c)))
    else if String.eqb command "stop" then
      (* Stop calculating as soon as possible *)
      inl (tc_set_StopRequest true (tc_set_ponder false c))
    else if String.eqb command "ponderhit" then
      let c := tc_set_ponder false c in
      inl (if tc_StopOnPonderhit c then tc_set_StopRequest true c else c)
    else inl c
  end.

(** [poll]: the debug printing of the once-a-second branch writes to the
    error stream only and is left out. *)
Definition poll_body (w : PollWorld) (pos : Position) (c : TimeControl)
  : TimeControl :=
  let t := current_search_time w in
  match poll_input w c with
  | inr c => c
  | inl c =>
    (* Print search information *)
    let c :=
      if t <? 1000 then tc_set_lastInfoTime 0 c
      else if tc_lastInfoTime c >? t then tc_set_lastInfoTime 0 c
      else if t - tc_lastInfoTime c >=? 1000 then tc_set_lastInfoTime t c
      else c in
    (* Should we stop the search? *)
    if ponder (tc_Limits c) then c
    else
      let stillAtFirstMove :=
        tc_FirstRootMove c
        && negb (tc_AspirationFailLow c)
        && (t >? available_time w) in
      let noMoreTime := (t >? maximum_time w) || stillAtFirstMove in
      if (useTimeManagement w (tc_Limits c) && noMoreTime)
         || (truthy (maxTime (tc_Limits c)) && (t >=? maxTime (tc_Limits c)))
         || (truthy (maxNodes (tc_Limits c))
             && (nodes_searched pos >=? maxNodes (tc_Limits c)))
      then tc_set_StopRequest true c
      else c
  end.

End Poll.

(** [wait_for_stop_or_ponderhit]: the lines of standard input are read
    until one of them is "ponderhit", "stop" or "quit".  The result is
    [command] after the loop and the lines left unread; a read on the
    exhausted input fails and leaves no command behind. *)
Fixpoint wait_for_command (lines : list string) : string * list string :=
  match lines with
  | [] => (EmptyString, [])
  | command :: rest =>
    if negb (String.eqb command "ponderhit")
       && negb (String.eqb command "stop")
       && negb (String.eqb command "quit")
    then wait_for_command rest
    else (command, rest)
  end.

Definition wait_for_stop_or_ponderhit (lines : list string)
  (c : TimeControl) : TimeControl * list string :=
  let '(command, rest) := wait_for_command lines in
  (if negb (String.eqb command "ponderhit")
      && negb (String.eqb command "stop")
   then tc_set_QuitRequest true c (* Must be "quit" or getline() returned false *)
   else c,
   rest).

(** ** The aspiration loop of id_loop() after the root search (lines
    552-624) *)

Section IdLoopWiden.
Context `{Types}.

(** In case of failing high/low increase the aspiration window and
    research (lines 606-622); [None] is the [else break] of this
    statement, one of the three ways out of the loop. *)
Definition id_loop_widen (value alpha beta : Value) (aspirationDelta : Z)
  (c : TimeControl) : option (Value * Value * Z * TimeControl) :=
  if value >=? beta then
    Some (alpha, Z.min (beta + aspirationDelta) VALUE_INFINITE,
          aspirationDelta + Z.quot aspirationDelta 2, c)
  else if value <=? alpha then
    Some (Z.max (alpha - aspirationDelta) (- VALUE_INFINITE), beta,
          aspirationDelta + Z.quot aspirationDelta 2, tc_set_fail_low c)
  else None.

(** The body of the loop [do ... while (abs(value) < VALUE_KNOWN_WIN)]
    from the return of [search<Root>] with [value] on: [c] holds the
    variables as the search left them.  Sorting the root moves, writing
    the PV back to the table and printing it touch none of the variables
    here.  The result tells whether the loop goes round again, and gives
    the window, the delta and the variables after the body. *)
Definition id_loop_research (value alpha beta : Value) (aspirationDelta : Z)
  (c : TimeControl) : bool * (Value * Value * Z * TimeControl) :=
  (* If search has been stopped exit the aspiration window loop *)
  if tc_StopRequest c then (false, (alpha, beta, aspirationDelta, c))
  else
    match id_loop_widen value alpha beta aspirationDelta c with
    | None => (false, (alpha, beta, aspirationDelta, c))
    | Some w => (Z.abs value <? VALUE_KNOWN_WIN, w)
    end.

End IdLoopWiden.

(** ** Output formatting *)

(** [os << n] for an integer. *)
Definition string_of_Z (z : Z) : string :=
  NilZero.string_of_int (Z.to_int z).

Fixpoint string_repeat (n : nat) (c : ascii) : string :=
  match n with
  | O => EmptyString
  | S n => String c (string_repeat n c)
  end.

(** [os << std::setfill(fill) << std::setw(w) << s]: right-adjusted. *)
Definition setw (w : nat) (fill : ascii) (s : string) : string :=
  String.append (string_repeat (w - String.length s) fill) s.

Definition time_to_string (millisecs : Z) : string :=
  let MSecMinute := 1000 * 60 in
  let MSecHour := 1000 * 60 * 60 in
  let hours := Z.quot millisecs MSecHour in
  let minutes := Z.quot (Z.rem millisecs MSecHour) MSecMinute in
  let seconds := Z.quot (Z.rem (Z.rem millisecs MSecHour) MSecMinute) 1000 in
  String.append
    (if truthy hours then String.append (string_of_Z hours) ":" else EmptyString)
    (String.append (setw 2 "0" (string_of_Z minutes))
       (String.append ":" (setw 2 "0" (string_of_Z seconds)))).

Section ScoreToUci.
Context `{Types}.

Definition score_to_uci (v alpha beta : Value) : string :=
  String.append
    (if Z.abs v <? VALUE_MATE - PLY_MAX * ONE_PLY
     then String.append " score cp "
            (string_of_Z (Z.quot (v * 100) PawnValueMidgame))
     else String.append " score mate "
            (string_of_Z
               (Z.quot (if v >? 0 then VALUE_MATE - v + 1
                        else - VALUE_MATE - v) 2)))
    (if v >=? beta then " lowerbound"
     else if v <=? alpha then " upperbound" else EmptyString).

End ScoreToUci.

(** A command that [poll] does not know. *)
Definition quiet_input (i : PollInput) : Prop :=
  match i with
  | NoInput => True
  | InputFailed => False
  | InputLine command =>
    command <> "quit"%string /\ command <> "stop"%string
    /\ command <> "ponderhit"%string
  end.

(** ** do_skill_level() *)

(** Two decimal digits. *)
Definition two_digits (n : Z) : string :=
  String (ascii_of_nat (48 + Z.to_nat (n / 10)))
    (String (ascii_of_nat (48 + Z.to_nat (n mod 10))) EmptyString).

Section SkillLevel.
Context `{Types}.

(** [pv[1]] of a root move. *)
Definition pv1 (rm : RootMove) : Move := nth 1 (pv rm) MOVE_NONE.

(** The loop of [do_skill_level] over the root moves from index [i] on,
    [n] of them being left; [rands] are the values that the generator
    [rk] hands out and [k] counts those taken so far. *)
Fixpoint do_skill_level_loop (n : nat) (i : Z) (Rml : list RootMove)
  (max var wk : Z) (rands : nat -> Z) (k : nat) (max_s : Z)
  (best ponder : Move) : Move * Move * nat :=
  match n with
  | O => (best, ponder, k)
  | S n =>
    let rm := nth (Z.to_nat i) Rml blank_root_move in
    let s := score rm in
    (* Don't allow crazy blunders even at very low skills *)
    if (i >? 0)
       && (score (nth (Z.to_nat (i - 1)) Rml blank_root_move)
             >? s + EasyMoveMargin)
    then (best, ponder, k)
    else
      (* This is our magical formula *)
      let s :=
        to_int
          (to_unsigned s
           + to_unsigned
               (to_unsigned ((max - s) * wk)
                + to_unsigned
                    (to_unsigned var * (rands k mod to_unsigned wk)))
             / 128) in
      if s >? max_s then
        do_skill_level_loop n (i + 1) Rml max var wk rands (S k) s
          (pv0 rm) (pv1 rm)
      else
        do_skill_level_loop n (i + 1) Rml max var wk rands (S k) max_s
          best ponder
  end.

(** [do_skill_level]: [now] is [get_system_time()], [k] the number of
    values drawn from [rk] before the call; [None] stands for the reads
    of [Rml[0]] and [Rml[size - 1]] outside the vector. *)
Definition do_skill_level (MultiPV SkillLevel : Z) (Rml : list RootMove)
  (now : Z) (rands : nat -> Z) (k : nat) (best ponder : Move)
  : option (Move * Move * nat) :=
  let max_s := - VALUE_INFINITE in
  let size := Z.min MultiPV (Z.of_nat (List.length Rml)) in
  if size <=? 0 then None
  else
    let max := score (nth 0 Rml blank_root_move) in
    let var :=
      Z.min (max - score (nth (Z.to_nat (size - 1)) Rml blank_root_move))
        PawnValueMidgame in
    let wk := 120 - 2 * SkillLevel in
    (* PRNG sequence should be non deterministic *)
    let k := (k + Z.to_nat (Z.abs (Z.rem now 50)))%nat in
    Some (do_skill_level_loop (Z.to_nat size) 0 Rml max var wk rands k
            max_s best ponder).

(** No two neighbours among the first [i + 1] root moves are further
    apart than [EasyMoveMargin]. *)
Definition no_blunder_before (Rml : list RootMove) (i : Z) : Prop :=
  forall j, 0 < j <= i ->
    score (nth (Z.to_nat (j - 1)) Rml blank_root_move)
    <= score (nth (Z.to_nat j) Rml blank_root_move) + EasyMoveMargin.

End SkillLevel.

(** ** set_option() and go() *)

(** The option table (ucioption.h). *)
Class UciOptionOps := {
  OptionsMap : Type;
  option_exists : OptionsMap -> string -> bool;
  option_set_value : OptionsMap -> string -> string -> OptionsMap
}.

(** [s += string(" ", !s.empty()) + token]. *)
Definition append_word (s token : string) : string :=
  String.append s
    (String.append (if String.eqb s EmptyString then EmptyString else " ")
       token).

(** Read option name (can contain spaces). *)
Fixpoint set_option_name (input : list string) (name : string)
  : string * list string :=
  match input with
  | [] => (name, [])
  | token :: rest =>
    if String.eqb token "value" then (name, rest)
    else set_option_name rest (append_word name token)
  end.

(** Read option value (can contain spaces). *)
Fixpoint set_option_value (input : list string) (value : string) : string :=
  match input with
  | [] => value
  | token :: rest => set_option_value rest (append_word value token)
  end.

Definition newline : string := String (ascii_of_nat 10) EmptyString.

Section SetOption.
Context {options : UciOptionOps}.

(** [set_option] is called on the "setoption" command; [out] is what
    has been written to standard output. *)
Definition set_option (input : list string) (Options : OptionsMap)
  (out : string) : OptionsMap * string :=
  (* Consume "name" token *)
  let input := tl input in
  let '(name, input) := set_option_name input EmptyString in
  let value := set_option_value input EmptyString in
  if option_exists Options name then
    (* UCI buttons don't have "value" *)
    (option_set_value Options name
       (if String.eqb value EmptyString then "true"%string else value), out)
  else
    (Options,
     String.append out
       (String.append "No such option: " (String.append name newline))).

End SetOption.

(** Formatted extraction of an [int] from the stream: [extract_int]
    reads a number off the front of the next token and gives what is left
    of the token, or fails; [failed_int] is what a failed extraction
    leaves in the variable. *)
Class StreamOps := {
  extract_int : string -> option (Z * string);
  failed_int : Z -> Z
}.

Definition set_infinite (v : bool) (l : SearchLimits) : SearchLimits :=
  {| time := time l; increment := increment l; movesToGo := movesToGo l;
     maxTime := maxTime l; maxDepth := maxDepth l; maxNodes := maxNodes l;
     infinite := v; ponder := ponder l |}.

Definition set_movesToGo (v : Z) (l : SearchLimits) : SearchLimits :=
  {| time := time l; increment := increment l; movesToGo := v;
     maxTime := maxTime l; maxDepth := maxDepth l; maxNodes := maxNodes l;
     infinite := infinite l; ponder := ponder l |}.

Definition set_maxDepth (v : Z) (l : SearchLimits) : SearchLimits :=
  {| time := time l; increment := increment l; movesToGo := movesToGo l;
     maxTime := maxTime l; maxDepth := v; maxNodes := maxNodes l;
     infinite := infinite l; ponder := ponder l |}.

Definition set_maxNodes (v : Z) (l : SearchLimits) : SearchLimits :=
  {| time := time l; increment := increment l; movesToGo := movesToGo l;
     maxTime := maxTime l; maxDepth := maxDepth l; maxNodes := v;
     infinite := infinite l; ponder := ponder l |}.

Definition set_maxTime (v : Z) (l : SearchLimits) : SearchLimits :=
  {| time := time l; increment := increment l; movesToGo := movesToGo l;
     maxTime := v; maxDepth := maxDepth l; maxNodes := maxNodes l;
     infinite := infinite l; ponder := ponder l |}.

Definition set_time_increment (t i : Z) (l : SearchLimits) : SearchLimits :=
  {| time := t; increment := i; movesToGo := movesToGo l;
     maxTime := maxTime l; maxDepth := maxDepth l; maxNodes := maxNodes l;
     infinite := infinite l; ponder := ponder l |}.

(** The locals of [go]: [time[]] and [inc[]] are indexed by colour. *)
Record GoVars := {
  go_limits : SearchLimits;
  go_searchMoves : list Move;
  go_time : Color -> Z;
  go_inc : Color -> Z
}.

Section Go.
Context {types : Types} {position : PositionOps} {stream : StreamOps}.

(** [is >> n]: the new content of [n] and the tokens left.  A failed
    extraction leaves the stream failed, on which every later read fails,
    as on an exhausted one. *)
Definition read_int (input : list string) (old : Z) : Z * list string :=
  match input with
  | [] => (failed_int old, [])
  | token :: rest =>
    match extract_int token with
    | None => (failed_int old, [])
    | Some (n, remains) =>
      (n, if String.eqb remains EmptyString then rest else remains :: rest)
    end
  end.

Definition array_set (a : Color -> Z) (c : Color) (v : Z) : Color -> Z :=
  fun c' => if c' =? c then v else a c'.

(** The loop [while (is >> token)] of [go]. *)
Fixpoint go_loop (fuel : nat) (pos : Position) (input : list string)
  (G : GoVars) : option GoVars :=
  match input with
  | [] => Some G
  | token :: input =>
    match fuel with
    | O => None
    | S fuel =>
      if String.eqb token "infinite" then
        go_loop fuel pos input
          {| go_limits := set_infinite true (go_limits G);
             go_searchMoves := go_searchMoves G;
             go_time := go_time G; go_inc := go_inc G |}
      else if String.eqb token "ponder" then
        go_loop fuel pos input
          {| go_limits := set_ponder true (go_limits G);
             go_searchMoves := go_searchMoves G;
             go_time := go_time G; go_inc := go_inc G |}
      else if String.eqb token "wtime" then
        let '(v, input) := read_int input (go_time G WHITE) in
        go_loop fuel pos input
          {| go_limits := go_limits G; go_searchMoves := go_searchMoves G;
             go_time := array_set (go_time G) WHITE v; go_inc := go_inc G |}
      else if String.eqb token "btime" then
        let '(v, input) := read_int input (go_time G BLACK) in
        go_loop fuel pos input
          {| go_limits := go_limits G; go_searchMoves := go_searchMoves G;
             go_time := array_set (go_time G) BLACK v; go_inc := go_inc G |}
      else if String.eqb token "winc" then
        let '(v, input) := read_int input (go_inc G WHITE) in
        go_loop fuel pos input
          {| go_limits := go_limits G; go_searchMoves := go_searchMoves G;
             go_time := go_time G; go_inc := array_set (go_inc G) WHITE v |}
      else if String.eqb token "binc" then
        let '(v, input) := read_int input (go_inc G BLACK) in
        go_loop fuel pos input
          {| go_limits := go_limits G; go_searchMoves := go_searchMoves G;
             go_time := go_time G; go_inc := array_set (go_inc G) BLACK v |}
      else if String.eqb token "movestogo" then
        let '(v, input) := read_int input (movesToGo (go_limits G)) in
        go_loop fuel pos input
          {| go_limits := set_movesToGo v (go_limits G);
             go_searchMoves := go_searchMoves G;
             go_time := go_time G; go_inc := go_inc G |}
      else if String.eqb token "depth" then
        let '(v, input) := read_int input (maxDepth (go_limits G)) in
        go_loop fuel pos input
          {| go_limits := set_maxDepth v (go_limits G);
             go_searchMoves := go_searchMoves G;
             go_time := go_time G; go_inc := go_inc G |}
      else if String.eqb token "nodes" then
        let '(v, input) := read_int input (maxNodes (go_limits G)) in
        go_loop fuel pos input
          {| go_limits := set_maxNodes v (go_limits G);
             go_searchMoves := go_searchMoves G;
             go_time := go_time G; go_inc := go_inc G |}
      else if String.eqb token "movetime" then
        let '(v, input) := read_int input (maxTime (go_limits G)) in
        go_loop fuel pos input
          {| go_limits := set_maxTime v (go_limits G);
             go_searchMoves := go_searchMoves G;
             go_time := go_time G; go_inc := go_inc G |}
      else if String.eqb token "searchmoves" then
        (* while (is >> token) searchMoves.push_back(...): the rest of
           the line, after which the outer loop ends *)
        Some {| go_limits := go_limits G;
                go_searchMoves :=
                  (go_searchMoves G ++ map (move_from_uci pos) input)%list;
                go_time := go_time G; go_inc := go_inc G |}
      else go_loop fuel pos input G
    end
  end.

(** [go] is called on the "go" command: the result is the limits and the
    array of moves that it hands to [think].  [limits0] is the
    [SearchLimits] object as its constructor leaves it; [None] stands for
    a loop of the model that runs out of fuel. *)
Definition go (pos : Position) (limits0 : SearchLimits)
  (input : list string) : option (SearchLimits * list Move) :=
  match go_loop (List.length input) pos input
          {| go_limits := limits0; go_searchMoves := [];
             go_time := fun _ => 0; go_inc := fun _ => 0 |} with
  | None => None
  | Some G =>
    Some (set_time_increment (go_time G (side_to_move pos))
            (go_inc G (side_to_move pos)) (go_limits G),
          (go_searchMoves G ++ [MOVE_NONE])%list)
  end.

End Go.

(** The entries of an array up to its first zero. *)
Fixpoint before_zero (l : list Move) : list Move :=
  match l with
  | [] => []
  | x :: rest => if x =? 0 then [] else x :: before_zero rest
  end.

Fixpoint after_zero (l : list Move) : list Move :=
  match l with
  | [] => []
  | x :: rest => if x =? 0 then rest else after_zero rest
  end.

(** ** Assertions on statements of the search *)

Section PosStep.
Context {position : PositionOps} {table : TableOps} {history : HistoryOps}
  {picker : MovePickerOps} {threads : ThreadsOps} {World : Type}.

(** A statement run from the position [p] goes on in the position [q],
    or returns in the position [p0]. *)
Definition pos_step {A : Type} (p0 p : Position) (m : Exec World A)
  (q : Position) : Prop :=
  forall s : St World, st_pos s = p ->
    match fst (m s) with
    | Next _ => st_pos (snd (m s)) = q
    | Return _ => st_pos (snd (m s)) = p0
    | OutOfFuel => True
    end.

(** A search function hands the position back as it got it. *)
Definition keeps_position (f : SearchFn World) : Prop :=
  forall (NT : NodeType) (ssi : Z) (alpha beta : Value) (depth : Depth)
    (s s' : St World) (v : Value),
    f NT ssi alpha beta depth s = (Some v, s') -> st_pos s' = st_pos s.

End PosStep.

Section ExecPost.
Context {position : PositionOps} {table : TableOps} {history : HistoryOps}
  {picker : MovePickerOps} {threads : ThreadsOps} {World : Type}.

(** What a statement goes on with satisfies [N], what it returns
    satisfies [R]. *)
Definition exec_post {A : Type} (m : Exec World A) (N : A -> Prop)
  (R : Value -> Prop) : Prop :=
  forall s : St World,
    match fst (m s) with
    | Next a => N a
    | Return v => R v
    | OutOfFuel => True
    end.

End ExecPost.

Section QsearchGrowth.
Context {types : Types} {position : PositionOps} {bitboards : BitboardOps}
  {table : TableOps} {history : HistoryOps} {picker : MovePickerOps}
  {threads : ThreadsOps} {tables : SearchTables} {World : Type}
  {engine : EngineOps World}.

(** [Q'] carries at least the best value of [Q], for the same node. *)
Definition q_grows (Q Q' : QLocals) : Prop :=
  q_bestValue Q <= q_bestValue Q' /\ q_inCheck Q' = q_inCheck Q.

End QsearchGrowth.

(** ** More sample data *)

Definition sample_movegen : @MoveGenOps sample_position :=
  @Build_MoveGenOps sample_position (fun p : SamplePos => pos_moves p).

(** A position with three legal moves. *)
Definition sample_three : SamplePos :=
  {| pos_key := 3; pos_in_check := false; pos_eval := 0; pos_material := 8000;
     pos_moves := [796; 3364; 100]; pos_them := 0; pos_king_att := 0;
     pos_old_att := 0; pos_new_att := 0; pos_board := fun _ => 0 |}.

(** A second world, in which a position is the line of moves that led
    to it, newest first, so that taking a move back undoes it. *)
Definition line_key (p : list Move) : Key :=
  fold_right (fun m k => k * 4096 + m) 1 p.

Definition line_moves (p : list Move) : list Move :=
  if (List.length p <? 2)%nat then [796; 3364] else [].

Definition line_position : PositionOps := {|
  Position := list Move;
  CheckInfo := unit;
  from_fen := fun _ _ _ => [];
  move_from_uci := fun _ token => sample_move_from_uci sample_start token;
  do_move := fun p m => m :: p;
  do_move_ci := fun p m _ _ => m :: p;
  undo_move := fun p _ => tl p;
  do_null_move := fun made p => if made : bool then 65 :: p else tl p;
  thread := fun _ => 0;
  in_check := fun _ => false;
  is_draw := fun _ _ => false;
  get_key := line_key;
  get_exclusion_key := fun p => line_key p + 1;
  side_to_move := fun p => Z.of_nat (List.length p) mod 2;
  piece_on := fun _ _ => 0;
  is_capture_or_promotion := fun _ _ => false;
  is_capture := fun _ _ => false;
  captured_piece_type := fun _ => 0;
  has_pawn_on_7th := fun _ _ => false;
  non_pawn_material := fun _ _ => 8000;
  pawn_is_passed := fun _ _ _ => false;
  is_passed_pawn_push := fun _ _ => false;
  can_castle := fun _ _ => false;
  pl_move_is_legal := fun _ _ _ => true;
  is_pseudo_legal := fun _ _ => true;
  pinned_pieces := fun _ => 0;
  move_gives_check := fun _ _ _ => false;
  see_sign := fun _ _ => 0;
  see := fun _ _ => 0;
  nodes_searched := fun _ => 0;
  king_square := fun _ _ => 4;
  occupied_squares := fun _ => 0;
  pieces := fun _ _ => 0;
  attacks_from := fun _ _ _ _ => 0;
  attacks_from_here := fun _ _ _ => 0;
  attacks_from_KING := fun _ _ => 0;
  move_attacks_square := fun _ _ _ => false;
  check_info := fun _ => tt;
  pinned := fun _ => 0;
  evaluate := fun p => (hd 0 p - 1000, 0)
|}.

Definition line_movegen : @MoveGenOps line_position :=
  @Build_MoveGenOps line_position line_moves.

Definition line_picker : @MovePickerOps line_position sample_history :=
  @Build_MovePickerOps line_position sample_history
    (list Move)
    (fun (p : list Move) _ _ _ _ _ => line_moves p)
    (fun (p : list Move) _ _ _ _ => line_moves p)
    (fun (p : list Move) _ _ _ => line_moves p)
    (fun mp _ _ =>
       match mp with
       | [] => (0, [])
       | m :: mp' => (m, mp')
       end).

Definition line_engine
  : @EngineOps line_position sample_table sample_history line_picker
      sample_threads unit := {|
  poll := fun _ g => g;
  split := fun _ _ _ _ bestValue _ _ _ mp s => ((bestValue, mp), s)
|}.

Section LineSamples.
#[local] Existing Instance sample_types.
#[local] Existing Instance line_position.
#[local] Existing Instance sample_bitboards.
#[local] Existing Instance sample_table.
#[local] Existing Instance sample_history.
#[local] Existing Instance line_picker.
#[local] Existing Instance sample_threads.
#[local] Existing Instance sample_tables.
#[local] Existing Instance line_engine.

Definition line_split_point : SplitPoint :=
  {| sp_bestValue := 0; sp_alpha := 0; sp_moveCount := 0;
     sp_threatMove := 0; sp_mp := []; sp_is_betaCutoff := false;
     sp_ss := 0; sp_is_slave := fun _ => false; sp_nodes := 0 |}.

(** The start of a search in the line world, with the table [t]. *)
Definition line_state (t : list (Key * TTEntry)) : St unit :=
  {| st_pos := [];
     st_ss0 := fun _ => sample_frame;
     st_written := [];
     st_glob :=
       {| TT := t; H := tt; Threads := 0;
          splitPoints := fun _ => line_split_point;
          Rml := []; Rml_bestMoveChanges := 0; MultiPV := 1;
          MultiPVIdx := 0; StopRequest := false; FirstRootMove := false;
          NodesSincePoll := 0; NodesBetweenPolls := 30000; world := tt |} |}.

End LineSamples.

(** A table that knows the reply 3364 to the move 796. *)
Definition line_known : list (Key * TTEntry) :=
  [(line_key [796],
    {| tte_move := 3364; tte_value := 0; tte_type := 0; tte_depth := 0;
       tte_static_value := 0; tte_static_value_margin := 0 |});
   (line_key [],
    {| tte_move := 796; tte_value := 0; tte_type := 0; tte_depth := 0;
       tte_static_value := 0; tte_static_value_margin := 0 |})].

(** Options kept as a list of names and values. *)
Definition sample_options : UciOptionOps := {|
  OptionsMap := list (string * string);
  option_exists := fun o name =>
    existsb (fun nv => String.eqb (fst nv) name) o;
  option_set_value := fun o name value =>
    map (fun nv => if String.eqb (fst nv) name then (name, value) else nv) o
|}.

(** Decimal digits off the front of a token. *)
Fixpoint sample_digits (s : string) (acc : Z) (seen : bool)
  : option (Z * string) :=
  match s with
  | EmptyString => if seen then Some (acc, EmptyString) else None
  | String c rest =>
    let d := Z.of_nat (nat_of_ascii c) - 48 in
    if (0 <=? d) && (d <=? 9) then sample_digits rest (acc * 10 + d) true
    else if seen then Some (acc, s) else None
  end.

Definition sample_stream : StreamOps := {|
  extract_int := fun token => sample_digits token 0 false;
  failed_int := fun old => old
|}.

Definition sample_limits : SearchLimits :=
  {| time := 0; increment := 0; movesToGo := 0; maxTime := 0;
     maxDepth := 0; maxNodes := 0; infinite := false; ponder := false |}.

Definition sample_control : TimeControl :=
  {| tc_Limits := set_ponder true sample_limits; tc_StopRequest := false;
     tc_QuitRequest := false; tc_StopOnPonderhit := true;
     tc_FirstRootMove := true; tc_AspirationFailLow := false;
     tc_lastInfoTime := 0 |}.

Definition sample_poll_world (i : PollInput) : PollWorld :=
  {| current_search_time := 9000; pending_input := i;
     available_time := 1000; maximum_time := 5000;
     useTimeManagement := fun _ => true |}.

Definition sample_rml : list RootMove :=
  [ {| nodes := 0; score := 100; prevScore := 0; pv := [796; 3364; 0] |};
    {| nodes := 0; score := 90; prevScore := 0; pv := [3364; 796; 0] |};
    {| nodes := 0; score := -900; prevScore := 0; pv := [100; 0] |};
    {| nodes := 0; score := -950; prevScore := 0; pv := [101; 0] |} ].

Section StoppedSample.
#[local] Existing Instance sample_types.
#[local] Existing Instance sample_position.
#[local] Existing Instance sample_bitboards.
#[local] Existing Instance sample_table.
#[local] Existing Instance sample_history.
#[local] Existing Instance sample_picker.
#[local] Existing Instance sample_threads.
#[local] Existing Instance sample_tables.
#[local] Existing Instance sample_engine.

(** The sample state after a stop has been requested. *)
Definition sample_stopped : St unit :=
  {| st_pos := sample_start;
     st_ss0 := fun _ => sample_frame;
     st_written := [];
     st_glob :=
       {| TT := []; H := tt; Threads := 0;
          splitPoints := fun _ => sample_split_point;
          Rml := []; Rml_bestMoveChanges := 0; MultiPV := 1;
          MultiPVIdx := 0; StopRequest := true; FirstRootMove := false;
          NodesSincePoll := 0; NodesBetweenPolls := 30000; world := tt |} |}.

End StoppedSample.

(** A position in which the side to move is in check and has no move. *)
Definition sample_mated : SamplePos :=
  {| pos_key := 11; pos_in_check := true; pos_eval := 0;
     pos_material := 8000; pos_moves := []; pos_them := 0; pos_king_att := 0;
     pos_old_att := 0; pos_new_att := 0; pos_board := fun _ => 0 |}.

(** * Theorems *)

Section TTHelperFacts.
Context `{Types}.

Lemma type_has_spec t mask : type_has t mask = true <-> has_bit t mask.
Proof.
  unfold type_has, truthy, has_bit.
  rewrite negb_true_iff, Z.eqb_neq. tauto.
Qed.

(** C1.  [can_return_tt tte d b p] holds exactly when the entry is deep
    enough or its score lies in a mate band beyond [b], and its bound
    type agrees with the side of [b] the score is on, the score being
    [value_from_tt (tte_value tte) p]. *)
Theorem can_return_tt_iff (tte : TTEntry) (d : Depth) (b : Value) (p : Z) :
  let v := value_from_tt (tte_value tte) p in
  can_return_tt tte d b p = true <->
  (tte_depth tte >= d
   \/ v >= Z.max VALUE_MATE_IN_PLY_MAX b
   \/ v < Z.min VALUE_MATED_IN_PLY_MAX b)
  /\ ((has_bit (tte_type tte) VALUE_TYPE_LOWER /\ v >= b)
      \/ (has_bit (tte_type tte) VALUE_TYPE_UPPER /\ v < b)).
Proof.
  intros v. unfold can_return_tt. fold v.
  rewrite andb_true_iff, !orb_true_iff, !andb_true_iff.
  rewrite !type_has_spec, !Z.geb_le, !Z.ltb_lt.
  split; intros [Hd Ht]; (split; [| destruct Ht as [[? ?]|[? ?]]; [left|right]; split; auto; lia]).
  - destruct Hd as [[?|?]|?]; [left|right; left|right; right]; lia.
  - destruct Hd as [?|[?|?]]; [left; left|left; right|right]; lia.
Qed.

Lemma to_int_fits (z : Z) : fits_int z -> to_int z = z.
Proof.
  unfold fits_int, to_int. change (2 ^ 31) with 2147483648.
  change (2 ^ 32) with 4294967296. cbv zeta. intros Hz.
  destruct (Z_lt_le_dec z 0) as [Hneg | Hpos].
  - rewrite <- (Z.mod_add z 1 4294967296) by lia.
    rewrite Z.mod_small by lia.
    replace (z + 1 * 4294967296 <? 2147483648) with false
      by (symmetry; apply Z.ltb_ge; lia).
    lia.
  - rewrite Z.mod_small by lia.
    replace (z <? 2147483648) with true by (symmetry; apply Z.ltb_lt; lia).
    reflexivity.
Qed.


End TTHelperFacts.

Section TTHelperSamples.
#[local] Existing Instance sample_types.



End TTHelperSamples.

(** ** Polling interval *)

(** C8 (as amended).  A node limit takes precedence over the time budget:
    with [maxNodes <> 0] the interval is [min maxNodes 30000], hence never
    above [maxNodes]; without a node limit it is 1000 for a non-zero budget
    below one second, 5000 for a budget of one to five seconds, and 30000
    for no budget or one of five seconds and more. *)
Theorem think_polling_interval (Limits : SearchLimits) :
  let n := think_NodesBetweenPolls Limits in
  (maxNodes Limits <> 0 ->
     n = Z.min (maxNodes Limits) 30000 /\ n <= maxNodes Limits)
  /\ (maxNodes Limits = 0 ->
       (time Limits <> 0 /\ time Limits < 1000 -> n = 1000)
       /\ (1000 <= time Limits < 5000 -> n = 5000)
       /\ (time Limits = 0 \/ 5000 <= time Limits -> n = 30000)).
Proof.
  unfold think_NodesBetweenPolls, truthy. cbv zeta.
  destruct (maxNodes Limits =? 0) eqn:Hn; simpl.
  - apply Z.eqb_eq in Hn. split; [intros Hne; contradiction|].
    intros _.
    destruct (time Limits =? 0) eqn:Ht; simpl.
    + apply Z.eqb_eq in Ht. repeat split; intros; lia || reflexivity.
    + apply Z.eqb_neq in Ht.
      destruct (time Limits <? 1000) eqn:H1;
        [apply Z.ltb_lt in H1 | apply Z.ltb_ge in H1].
      * repeat split; intros; lia || reflexivity.
      * destruct (time Limits <? 5000) eqn:H5;
          [apply Z.ltb_lt in H5 | apply Z.ltb_ge in H5];
          repeat split; intros; lia || reflexivity.
  - apply Z.eqb_neq in Hn. split; [|intros He; contradiction].
    intros _. split; [reflexivity | lia].
Qed.

Lemma think_polling_interval_witness :
  think_NodesBetweenPolls
    {| time := 500; increment := 0; movesToGo := 0; maxTime := 0;
       maxDepth := 0; maxNodes := 0; infinite := false; ponder := false |}
  = 1000.
Proof.
  apply (think_polling_interval
    {| time := 500; increment := 0; movesToGo := 0; maxTime := 0;
       maxDepth := 0; maxNodes := 0; infinite := false; ponder := false |});
  simpl; [reflexivity | lia].
Defined.

(** C8 as stated fails: with half a second on the clock and a limit of
    20000 nodes the interval is 20000, not 1000. *)
Lemma polling_as_specified_fails :
  ~ polling_as_specified
      {| time := 500; increment := 0; movesToGo := 0; maxTime := 0;
         maxDepth := 0; maxNodes := 20000; infinite := false;
         ponder := false |}.
Proof.
  intros [H1 _]. simpl in H1.
  assert (Hc : 0 < 500 < 1000) by lia.
  specialize (H1 Hc). vm_compute in H1. discriminate H1.
Qed.

(** ** Aspiration window *)

Section IdLoopFacts.
Context `{Types}.

Lemma round_to_grain (x : Z) :
  16 <= x <= 24 ->
  let d := Z.quot (x + 7) 8 * 8 in
  d mod 8 = 0 /\ x <= d < x + 8 /\ (d = 16 \/ d = 24).
Proof.
  intros Hx d. subst d.
  rewrite Z.quot_div_nonneg by lia.
  assert (Hcases : x = 16 \/ 17 <= x <= 24) by lia.
  destruct Hcases as [-> | Hr].
  - vm_compute. repeat split; try discriminate. left; reflexivity.
  - assert ((x + 7) / 8 = 3) as ->.
    { symmetry. apply (Z.div_unique (x + 7) 8 3 (x + 7 - 24)); lia. }
    vm_compute Z.modulo. repeat split; lia.
Qed.

(** C7.  In an iteration with [depth >= 5] whose previous score is below
    a known win, the aspiration delta is
    [min (max (|delta1| + |delta2| / 2) 16) 24] rounded up to a multiple
    of 8, which is 16 or 24, and the window is the previous score plus and
    minus that delta, clamped to the infinite scores; in every other
    iteration the window is the whole range. *)
Theorem id_loop_aspiration_window (depth : Z) (Rml : list RootMove)
  (MultiPVIdx : Z) (bestValues : Z -> Value) (aspirationDelta : Z)
  (rm : RootMove) :
  0 <= MultiPVIdx ->
  nth_error Rml (Z.to_nat MultiPVIdx) = Some rm ->
  exists delta alpha beta,
    id_loop_aspiration depth Rml MultiPVIdx bestValues aspirationDelta
      = Some (delta, alpha, beta)
    /\ (depth >= 5 /\ Z.abs (prevScore rm) < VALUE_KNOWN_WIN ->
        let x :=
          Z.min (Z.max (Z.abs (bestValues (depth - 1) - bestValues (depth - 2))
                        + Z.quot (Z.abs (bestValues (depth - 2)
                                         - bestValues (depth - 3))) 2) 16) 24 in
        delta = Z.quot (x + 7) 8 * 8
        /\ delta mod 8 = 0 /\ x <= delta < x + 8
        /\ (delta = 16 \/ delta = 24)
        /\ alpha = Z.max (prevScore rm - delta) (- VALUE_INFINITE)
        /\ beta = Z.min (prevScore rm + delta) VALUE_INFINITE)
    /\ (~ (depth >= 5 /\ Z.abs (prevScore rm) < VALUE_KNOWN_WIN) ->
        alpha = - VALUE_INFINITE /\ beta = VALUE_INFINITE).
Proof.
  intros Hidx Hrm. unfold id_loop_aspiration.
  replace (MultiPVIdx <? 0) with false by (symmetry; apply Z.ltb_ge; lia).
  rewrite Hrm.
  destruct ((depth >=? 5) && (Z.abs (prevScore rm) <? VALUE_KNOWN_WIN))
    eqn:Hc.
  - apply andb_true_iff in Hc. destruct Hc as [Hd Hs].
    apply Z.geb_le in Hd. apply Z.ltb_lt in Hs.
    eexists _, _, _. split; [reflexivity|]. split.
    + intros _. cbv zeta.
      match goal with
      | |- context [Z.quot (?x + 7) 8] =>
          assert (Hx : 16 <= x <= 24) by lia;
          destruct (round_to_grain x Hx) as (Hm & Hb & Hv)
      end.
      repeat split; try assumption; try reflexivity; lia.
    + intros Hn. exfalso. apply Hn. split; lia.
  - eexists _, _, _. split; [reflexivity|]. split.
    + intros [Hd Hs]. exfalso.
      apply andb_false_iff in Hc. destruct Hc as [Hc|Hc].
      * rewrite Z.geb_leb in Hc. apply Z.leb_gt in Hc. lia.
      * apply Z.ltb_ge in Hc. lia.
    + intros _. split; reflexivity.
Qed.

End IdLoopFacts.

Section IdLoopSamples.
#[local] Existing Instance sample_types.

Lemma id_loop_aspiration_window_witness :
  id_loop_aspiration 5 [sample_root_move] 0 sample_bestValues 0
  = Some (24, 6, 54).
Proof.
  destruct (id_loop_aspiration_window 5 [sample_root_move] 0
              sample_bestValues 0 sample_root_move)
    as (d & a & b & Hrun & Hin & _); [lia | reflexivity |].
  destruct Hin as (Hd & _ & _ & _ & Ha & Hb);
    [split; [lia | vm_compute; reflexivity] |].
  rewrite Hrun, Ha, Hb, Hd. vm_compute. reflexivity.
Defined.

End IdLoopSamples.

(** ** set_position *)

Section UciFacts.
Context `{Types} `{PositionOps}.

Lemma set_position_moves_prefix (good stop : list string) (st : UciState) :
  parse_as_moves (root_pos st) good ->
  (stop = [] \/
   exists bad rest, stop = bad :: rest
     /\ move_from_uci (play_moves (root_pos st) good) bad = MOVE_NONE) ->
  set_position_moves (good ++ stop)%list st
  = {| root_pos := play_moves (root_pos st) good;
       SetupState := ring_advance (List.length good) (SetupState st) |}.
Proof.
  revert st. induction good as [|token good IH]; intros st Hgood Hstop.
  - simpl. destruct Hstop as [-> | (bad & rest & -> & Hbad)].
    + destruct st; reflexivity.
    + simpl in *. rewrite Hbad, Z.eqb_refl. destruct st; reflexivity.
  - simpl in Hgood. destruct Hgood as [Hm Hgood]. simpl.
    apply Z.eqb_neq in Hm. rewrite Hm.
    rewrite IH; [reflexivity | exact Hgood | exact Hstop].
Qed.

(** C10.  When the first token is neither "startpos" nor "fen" (or there
    is none) [set_position] leaves the position as it is; for those two
    tokens the position is set up from a FEN string, the initial one or
    the one the tokens up to "moves" spell; and of the tokens that follow,
    the moves are made up to the first one that is not a legal move. *)
Theorem set_position_effect (UCI_Chess960 : bool) (st : UciState)
  (input : list string) :
  (hd EmptyString input <> "startpos"%string -> hd EmptyString input <> "fen"%string ->
     set_position UCI_Chess960 st input = st)
  /\ (hd EmptyString input = "startpos"%string ->
      set_position UCI_Chess960 st input
      = set_position_moves (tl (tl input))
          {| root_pos := from_fen (root_pos st) StarFEN UCI_Chess960;
             SetupState := SetupState st |})
  /\ (hd EmptyString input = "fen"%string ->
      set_position UCI_Chess960 st input
      = set_position_moves (snd (set_position_fen (tl input) EmptyString))
          {| root_pos :=
               from_fen (root_pos st) (fst (set_position_fen (tl input) EmptyString))
                 UCI_Chess960;
             SetupState := SetupState st |})
  /\ (forall (st0 : UciState) (good stop : list string),
      parse_as_moves (root_pos st0) good ->
      (stop = [] \/
       exists bad rest, stop = bad :: rest
         /\ move_from_uci (play_moves (root_pos st0) good) bad = MOVE_NONE) ->
      set_position_moves (good ++ stop)%list st0
      = {| root_pos := play_moves (root_pos st0) good;
           SetupState := ring_advance (List.length good) (SetupState st0) |}).
Proof.
  unfold set_position. repeat split.
  - intros Hs Hf.
    apply String.eqb_neq in Hs. apply String.eqb_neq in Hf.
    rewrite Hs, Hf. reflexivity.
  - intros Hs. apply String.eqb_eq in Hs. rewrite Hs. reflexivity.
  - intros Hf. rewrite Hf. simpl.
    destruct (set_position_fen (tl input) EmptyString) as [fen rest]. reflexivity.
  - intros st0 good stop. apply set_position_moves_prefix.
Qed.

End UciFacts.

(** ** Bitboards and check_is_dangerous *)

Section BitboardFacts.

Lemma u64_high_bits (b : Bitboard) (n : Z) :
  0 <= b < 2 ^ 64 -> 64 <= n -> Z.testbit b n = false.
Proof.
  intros [Hb0 Hb] Hn.
  destruct (Z.eq_dec b 0) as [-> | Hnz]; [apply Z.bits_0|].
  apply Z.bits_above_log2; [exact Hb0|].
  assert (Z.log2 b < 64) by (apply Z.log2_lt_pow2; lia). lia.
Qed.

Lemma u64_of_bits (b : Bitboard) :
  0 <= b -> (forall n, 64 <= n -> Z.testbit b n = false) -> b < 2 ^ 64.
Proof.
  intros Hb0 Hhigh.
  destruct (Z.eq_dec b 0) as [-> | Hnz]; [reflexivity|].
  apply Z.log2_lt_pow2; [lia|].
  destruct (Z_lt_le_dec (Z.log2 b) 64) as [Hlt | Hge]; [exact Hlt|].
  specialize (Hhigh (Z.log2 b) Hge).
  rewrite Z.bit_log2 in Hhigh by lia. discriminate.
Qed.

Lemma in_all_squares (n : Z) : In n all_squares <-> 0 <= n < 64.
Proof.
  unfold all_squares. rewrite in_map_iff. split.
  - intros (k & <- & Hk). apply in_seq in Hk. lia.
  - intros Hn. exists (Z.to_nat n). split; [lia|]. apply in_seq. lia.
Qed.

Lemma NoDup_all_squares : NoDup all_squares.
Proof.
  unfold all_squares. apply NoDup_map_NoDup_ForallPairs.
  - intros x y _ _ Hxy. lia.
  - apply seq_NoDup.
Qed.

Lemma in_bb_squares (b : Bitboard) (s : Square) :
  In s (bb_squares b) <-> 0 <= s < 64 /\ Z.testbit b s = true.
Proof.
  unfold bb_squares. rewrite filter_In, in_all_squares. tauto.
Qed.

Lemma bb_squares_nonempty (b : Bitboard) :
  0 < b < 2 ^ 64 -> bb_squares b <> [].
Proof.
  intros Hb Hnil.
  assert (Hz : b = 0).
  { apply Z.bits_inj'. intros n Hn. rewrite Z.bits_0.
    destruct (Z_lt_le_dec n 64) as [Hlt | Hge].
    - destruct (Z.testbit b n) eqn:Hbit; [|reflexivity].
      assert (Hin : In n (bb_squares b)) by (apply in_bb_squares; split; [lia | exact Hbit]).
      rewrite Hnil in Hin. destruct Hin.
    - apply u64_high_bits; [lia | exact Hge]. }
  lia.
Qed.

Lemma clearbit_u64 (b : Bitboard) (s : Square) :
  0 <= b < 2 ^ 64 -> 0 <= Z.clearbit b s < 2 ^ 64.
Proof.
  intros Hb.
  assert (H0 : 0 <= Z.clearbit b s).
  { rewrite Z.clearbit_spec'. apply Z.ldiff_nonneg. left. lia. }
  split; [exact H0|].
  apply u64_of_bits; [exact H0|].
  intros n Hn. rewrite Z.clearbit_eqb, (u64_high_bits b n Hb Hn). reflexivity.
Qed.

Lemma bb_squares_clearbit (b : Bitboard) (s : Square) :
  bb_squares (Z.clearbit b s)
  = filter (fun x => negb (s =? x)) (bb_squares b).
Proof.
  unfold bb_squares. induction all_squares as [|x l IH]; [reflexivity|].
  simpl. rewrite Z.clearbit_eqb.
  destruct (Z.testbit b x); simpl; rewrite IH.
  - destruct (s =? x); reflexivity.
  - reflexivity.
Qed.

Lemma NoDup_bb_squares (b : Bitboard) : NoDup (bb_squares b).
Proof. apply NoDup_filter, NoDup_all_squares. Qed.

Lemma length_remove_present (s : Square) (l : list Square) :
  In s l ->
  (List.length (filter (fun x => negb (s =? x)%Z) l) < List.length l)%nat.
Proof.
  induction l as [|x l IH]; intros Hin; [destruct Hin|].
  simpl. destruct (s =? x) eqn:Hsx; simpl.
  - apply Nat.lt_succ_r, filter_length_le.
  - destruct Hin as [-> | Hin]; [rewrite Z.eqb_refl in Hsx; discriminate|].
    apply -> Nat.succ_lt_mono. exact (IH Hin).
Qed.

Lemma fold_max_init (a c : Z) (l : list Z) :
  fold_right Z.max (Z.max a c) l = Z.max (fold_right Z.max a l) c.
Proof. induction l as [|x l IH]; simpl; [reflexivity | rewrite IH; lia]. Qed.

Lemma fold_max_remove (f : Square -> Z) (s : Square) (a : Z)
  (l : list Square) :
  NoDup l -> In s l ->
  fold_right Z.max (Z.max a (f s))
    (map f (filter (fun x => negb (s =? x)) l))
  = fold_right Z.max a (map f l).
Proof.
  induction l as [|x l IH]; intros Hnd Hin; [destruct Hin|].
  inversion Hnd as [|? ? Hx Hl]; subst.
  simpl. destruct (s =? x) eqn:Hsx; simpl.
  - apply Z.eqb_eq in Hsx. subst x.
    assert (Hid : filter (fun x => negb (s =? x)) l = l).
    { apply forallb_filter_id. apply forallb_forall. intros y Hy.
      apply negb_true_iff, Z.eqb_neq. intros ->. contradiction. }
    rewrite Hid, fold_max_init. lia.
  - destruct Hin as [-> | Hin]; [rewrite Z.eqb_refl in Hsx; discriminate|].
    rewrite (IH Hl Hin). reflexivity.
Qed.

End BitboardFacts.

Section CheckIsDangerous.
Context `{Types} `{PositionOps} `{BitboardOps}.
Hypothesis pop_ok : pop_1st_bit_pops.

Lemma check_is_dangerous_victims_run (pos : Position) (from : Square)
  (futilityBase beta : Value) (fuel : nat) :
  forall (b : Bitboard) (bv : Value),
  0 <= b < 2 ^ 64 ->
  (List.length (bb_squares b) <= fuel)%nat ->
  check_is_dangerous_victims fuel pos from futilityBase beta b bv = Some None
  \/ check_is_dangerous_victims fuel pos from futilityBase beta b bv
     = Some (Some (fold_right Z.max bv
                     (map (victim_futility pos futilityBase) (bb_squares b)))).
Proof.
  induction fuel as [|fuel IH]; intros b bv Hb Hlen.
  - destruct (Z.eq_dec b 0) as [-> | Hnz]; [right; reflexivity|].
    exfalso. apply (bb_squares_nonempty b); [lia|].
    destruct (bb_squares b); [reflexivity | simpl in Hlen; lia].
  - destruct (Z.eq_dec b 0) as [-> | Hnz]; [right; reflexivity|].
    cbn [check_is_dangerous_victims]. unfold truthy.
    replace (b =? 0) with false by (symmetry; apply Z.eqb_neq; exact Hnz).
    cbn [negb].
    destruct (pop_ok b) as (Hs0 & Hbit & Hrest); [lia|].
    destruct (pop_1st_bit b) as [victimSq b'] eqn:Hpop.
    cbn [fst snd] in Hs0, Hbit, Hrest. subst b'.
    assert (Hs64 : victimSq < 64).
    { destruct (Z_lt_le_dec victimSq 64) as [Hlt | Hge]; [exact Hlt|].
      rewrite (u64_high_bits b victimSq Hb Hge) in Hbit. discriminate. }
    assert (Hin : In victimSq (bb_squares b))
      by (apply in_bb_squares; split; [lia | exact Hbit]).
    cbn beta iota zeta.
    match goal with |- context [if ?c then Some None else _] => destruct c end;
      [left; reflexivity|].
    pose proof (length_remove_present victimSq (bb_squares b) Hin) as Hdec.
    rewrite <- bb_squares_clearbit in Hdec.
    match goal with
    | |- context [check_is_dangerous_victims fuel _ _ _ _ _ ?v] =>
        set (bv' := v)
    end.
    destruct (IH (Z.clearbit b victimSq) bv' (clearbit_u64 b victimSq Hb))
      as [Ht | Hf];
      [ apply Nat.lt_succ_r; exact (Nat.lt_le_trans _ _ _ Hdec Hlen)
      | left; exact Ht | right ].
    rewrite Hf. do 2 f_equal.
    rewrite bb_squares_clearbit.
    assert (Hbv : bv' = Z.max bv (victim_futility pos futilityBase victimSq)).
    { subst bv'. unfold victim_futility.
      destruct (_ >? bv) eqn:Hgt; [apply Z.gtb_lt in Hgt | rewrite Z.gtb_ltb in Hgt; apply Z.ltb_ge in Hgt]; lia. }
    rewrite Hbv. apply fold_max_remove; [apply NoDup_bb_squares | exact Hin].
Qed.

(** C9.  [check_is_dangerous] leaves [*bestValue] as it was when it
    returns true; when it returns false, [*bestValue] is the maximum of
    its old value and of the futility values of all the newly attacked
    victims. *)
Theorem check_is_dangerous_bestValue (pos : Position) (move : Move)
  (futilityBase beta bestValue : Value) :
  (forall c, 0 <= pieces pos c < 2 ^ 64) ->
  exists (dangerous : bool) (bestValue' : Value),
    check_is_dangerous pos move futilityBase beta bestValue
      = Some (dangerous, bestValue')
    /\ (dangerous = true -> bestValue' = bestValue)
    /\ (dangerous = false ->
        bestValue' =
          fold_right Z.max bestValue
            (map (victim_futility pos futilityBase)
               (bb_squares (check_is_dangerous_newly_attacked pos move)))
        /\ bestValue <= bestValue').
Proof.
  intros Hpieces. unfold check_is_dangerous.
  match goal with |- context [if ?c then Some (true, _) else _] => destruct c end;
    [exists true, bestValue; repeat split; discriminate|].
  match goal with |- context [if ?c then Some (true, _) else _] => destruct c end;
    [exists true, bestValue; repeat split; discriminate|].
  fold (check_is_dangerous_newly_attacked pos move).
  set (b := check_is_dangerous_newly_attacked pos move).
  assert (Hb : 0 <= b < 2 ^ 64).
  { subst b. unfold check_is_dangerous_newly_attacked.
    set (them := flip (side_to_move pos)).
    specialize (Hpieces them).
    assert (Hmono : forall x y, 0 <= x < 2 ^ 64 -> 0 <= Z.land x y < 2 ^ 64).
    { intros x y Hx. assert (0 <= Z.land x y) by (apply Z.land_nonneg; lia).
      split; [assumption|]. apply u64_of_bits; [assumption|].
      intros n Hn. rewrite Z.land_spec, (u64_high_bits x n Hx Hn). reflexivity. }
    auto. }
  assert (Hlen : (List.length (bb_squares b) <= 64)%nat).
  { unfold bb_squares. etransitivity; [apply filter_length_le|].
    unfold all_squares. rewrite length_map, length_seq. lia. }
  destruct (check_is_dangerous_victims_run pos (move_from move) futilityBase
              beta 64 b bestValue Hb Hlen) as [Hr | Hr]; rewrite Hr.
  - exists true, bestValue. repeat split; discriminate.
  - eexists false, _. split; [reflexivity|]. split; [discriminate|].
    intros _. split; [reflexivity|].
    clear. induction (bb_squares b); simpl; lia.
Qed.

End CheckIsDangerous.

(** ** search and qsearch *)

Section ExecFacts.
Context {position : PositionOps} {table : TableOps} {history : HistoryOps}
  {picker : MovePickerOps} {threads : ThreadsOps} {World : Type}.

Lemma bind_Next {A B : Type} (m : Exec World A) (k : A -> Exec World B)
  (s s' : St World) (a : A) :
  m s = (Next a, s') -> bind m k s = k a s'.
Proof. intros Hm. unfold bind. rewrite Hm. reflexivity. Qed.

Lemma bind_get {B : Type} (k : St World -> Exec World B) (s : St World) :
  bind get k s = k s s.
Proof. reflexivity. Qed.

Lemma bind_modify {B : Type} (f : St World -> St World)
  (k : unit -> Exec World B) (s : St World) :
  bind (modify f) k s = k tt (f s).
Proof. reflexivity. Qed.

Lemma bind_ret {A B : Type} (a : A) (k : A -> Exec World B) (s : St World) :
  bind (ret a) k s = k a s.
Proof. reflexivity. Qed.

Lemma bind_return {A B : Type} (v : Value) (k : A -> Exec World B)
  (s : St World) :
  bind (return_ v) k s = (Return v, s).
Proof. reflexivity. Qed.

Lemma bind_assoc {A B C : Type} (m : Exec World A) (k : A -> Exec World B)
  (h : B -> Exec World C) (s : St World) :
  bind (bind m k) h s = bind m (fun a => bind (k a) h) s.
Proof.
  unfold bind. destruct (m s) as [[a | v |] s']; reflexivity.
Qed.

Lemma st_ss_upd_frame (i j : Z) (f : SearchStack -> SearchStack)
  (s : St World) :
  st_ss (upd_frame i f s) j = if j =? i then f (st_ss s i) else st_ss s j.
Proof.
  unfold st_ss at 1. unfold upd_frame. cbn [st_written st_ss0 find fst snd].
  rewrite (Z.eqb_sym i j). destruct (j =? i); reflexivity.
Qed.

Lemma st_ss_upd_pos (j : Z) (f : Position -> Position) (s : St World) :
  st_ss (upd_pos f s) j = st_ss s j.
Proof. reflexivity. Qed.

Lemma st_ss_upd_glob (j : Z) (f : Globals World -> Globals World)
  (s : St World) :
  st_ss (upd_glob f s) j = st_ss s j.
Proof. reflexivity. Qed.

Lemma bind_Next_inv {A B : Type} (m : Exec World A) (k : A -> Exec World B)
  (s s' : St World) (b : B) :
  bind m k s = (Next b, s') ->
  exists (a : A) (s1 : St World), m s = (Next a, s1) /\ k a s1 = (Next b, s').
Proof.
  unfold bind. destruct (m s) as [[a | v |] s1]; intros Hk;
    try discriminate Hk.
  exists a, s1. split; [reflexivity | exact Hk].
Qed.

End ExecFacts.

(** One step of the symbolic run of a body on a state. *)
Ltac exec_steps :=
  repeat (first [ rewrite bind_assoc | rewrite bind_get | rewrite bind_modify
                | rewrite bind_ret | rewrite bind_return ];
          cbv beta).

Section SearchFacts.
Context {types : Types} {position : PositionOps} {bitboards : BitboardOps}
  {table : TableOps} {history : HistoryOps} {picker : MovePickerOps}
  {threads : ThreadsOps} {tables : SearchTables} {World : Type}
  {engine : EngineOps World}.
Variables search_rec qsearch_rec : SearchFn World.
Variable ssi : Z.
Variable depth : Depth.
Variable fuel : nat.
Local Open Scope exec_scope.

(** C4.  At a non-PV node that reaches step 6 with the locals [L], when
    the node is not in check, [depth < 4 * ONE_PLY], there is no TT move,
    [beta] is below the mate band, the side to move has no pawn on the
    7th rank and [refinedValue + razor_margin depth < beta] with
    [razor_margin d = 512 + 16 * d], [search] calls [qsearch<NonPV>] on
    the same frame with the window [rbeta - 1, rbeta], where
    [rbeta = beta - razor_margin depth], at depth zero; when the value
    [v] it gets is below [rbeta], [search] returns [v] itself, and else
    it goes on with step 7. *)
Theorem search_razoring (alpha beta : Value) (s0 s1 : St World)
  (L : Locals) :
  search_steps_1_5 NonPV ssi depth alpha beta s0 = (Next L, s1) ->
  l_inCheck L = false ->
  depth < 4 * ONE_PLY ->
  l_ttMove L = MOVE_NONE ->
  Z.abs (l_beta L) < VALUE_MATE_IN_PLY_MAX ->
  has_pawn_on_7th (st_pos s1) (side_to_move (st_pos s1)) = false ->
  l_refinedValue L + razor_margin depth < l_beta L ->
  razor_margin depth = 512 + 16 * depth
  /\ let rbeta := l_beta L - razor_margin depth in
     search_body search_rec qsearch_rec NonPV ssi depth fuel alpha beta s0
     = match qsearch_rec NonPV ssi (rbeta - 1) rbeta DEPTH_ZERO s1 with
       | (Some v, s2) =>
         if v <? rbeta then (Return v, s2)
         else search_from_step7 search_rec qsearch_rec NonPV ssi depth fuel
                L s2
       | (None, s2) => (OutOfFuel, s2)
       end.
Proof.
  intros Hreach Hcheck Hdepth Htt Hbeta Hpawn Hrazor.
  split; [reflexivity|]. intros rbeta.
  unfold search_body. cbn [SpNode].
  rewrite (bind_Next _ _ _ _ _ Hreach).
  unfold search_from_step6, search_step6.
  unfold bind at 1. unfold bind at 1. unfold get at 1. cbn [PvNode negb andb].
  rewrite Hcheck, Htt, Hpawn, Z.eqb_refl.
  replace (depth <? RazorDepth) with true
    by (symmetry; apply Z.ltb_lt; unfold RazorDepth; lia).
  replace (l_refinedValue L + razor_margin depth <? l_beta L) with true
    by (symmetry; apply Z.ltb_lt; lia).
  replace (Z.abs (l_beta L) <? VALUE_MATE_IN_PLY_MAX) with true
    by (symmetry; apply Z.ltb_lt; lia).
  cbn [negb andb]. fold rbeta.
  unfold bind, call.
  destruct (qsearch_rec NonPV ssi (rbeta - 1) rbeta DEPTH_ZERO s1)
    as [[v|] s2]; [|reflexivity].
  destruct (v <? rbeta); reflexivity.
Qed.


Lemma search_body_from_step8 (NT : NodeType) (alpha beta : Value)
  (s0 s1 : St World) (L : Locals) :
  SpNode NT = false ->
  search_steps_1_7 qsearch_rec NT ssi depth alpha beta s0 = (Next L, s1) ->
  search_body search_rec qsearch_rec NT ssi depth fuel alpha beta s0
  = search_from_step8 search_rec qsearch_rec NT ssi depth fuel L s1.
Proof.
  intros Hsp Hreach. unfold search_body. rewrite Hsp.
  unfold search_steps_1_7 in Hreach.
  unfold search_from_step6, search_from_step7.
  rewrite <- (bind_Next _ (search_from_step8 search_rec qsearch_rec NT ssi
                            depth fuel) _ _ _ Hreach).
  rewrite !bind_assoc. unfold bind.
  destruct (search_steps_1_5 NT ssi depth alpha beta s0) as [[L5 | v |] s5];
    try reflexivity.
  destruct (search_step6 qsearch_rec NT ssi depth L5 s5) as [[L6 | v |] s6];
    try reflexivity.
Qed.

(** C3.  At a non-PV node that reaches step 8 with the locals [L] in the
    state [s1], under the null-move preconditions: the reduction is
    [R = 3 + (depth / 8 if depth >= 5 * ONE_PLY) + (1 if refinedValue -
    PawnValueMidgame > beta)]; the child is searched after the null move
    with [(ss+1)->skipNullMove] set, by [qsearch] when
    [depth - R * ONE_PLY < ONE_PLY] and by [search] at that depth
    otherwise; when the null value [- v] reaches [beta], it is capped to
    [beta] if it is a mate score, and it is returned at once when
    [depth < 6 * ONE_PLY]; at greater depths [search] is called again on
    the same frame with [ss->skipNullMove] set, and the capped null value
    is returned when that verification reaches [beta] too, the function
    going on with step 9 otherwise. *)
Theorem search_null_move (alpha beta : Value) (s0 s1 : St World)
  (L : Locals) :
  search_steps_1_7 qsearch_rec NonPV ssi depth alpha beta s0 = (Next L, s1) ->
  ss_skipNullMove (st_ss s1 ssi) = false ->
  depth > ONE_PLY ->
  l_inCheck L = false ->
  l_refinedValue L >= l_beta L ->
  Z.abs (l_beta L) < VALUE_MATE_IN_PLY_MAX ->
  non_pawn_material (st_pos s1) (side_to_move (st_pos s1)) <> 0 ->
  let R :=
    3 + (if depth >=? 5 * ONE_PLY then Z.quot depth 8 else 0)
    + (if l_refinedValue L - PawnValueMidgame >? l_beta L then 1 else 0) in
  let s_child :=
    upd_frame (ssi + 1) (set_skipNullMove true)
      (upd_pos (do_null_move true)
         (upd_frame ssi (set_currentMove MOVE_NULL) s1)) in
  let child :=
    if depth - R * ONE_PLY <? ONE_PLY
    then qsearch_rec NonPV (ssi + 1) (- l_beta L) (- l_alpha L) DEPTH_ZERO
    else search_rec NonPV (ssi + 1) (- l_beta L) (- l_alpha L)
           (depth - R * ONE_PLY) in
  null_move_R depth L = R
  /\ ss_skipNullMove (st_ss s_child (ssi + 1)) = true
  /\ forall (v : Value) (s2 : St World),
      child s_child = (Some v, s2) ->
      - v >= l_beta L ->
      let nullValue :=
        if - v >=? VALUE_MATE_IN_PLY_MAX then l_beta L else - v in
      let s3 :=
        upd_pos (do_null_move false)
          (upd_frame (ssi + 1) (set_skipNullMove false) s2) in
      let s_verify := upd_frame ssi (set_skipNullMove true) s3 in
      (depth < 6 * ONE_PLY ->
         search_body search_rec qsearch_rec NonPV ssi depth fuel alpha beta s0
         = (Return nullValue, s3))
      /\ (6 * ONE_PLY <= depth ->
          ss_skipNullMove (st_ss s_verify ssi) = true
          /\ forall (w : Value) (s4 : St World),
              search_rec NonPV ssi (l_alpha L) (l_beta L)
                (depth - R * ONE_PLY) s_verify = (Some w, s4) ->
              (w >= l_beta L ->
                 search_body search_rec qsearch_rec NonPV ssi depth fuel
                   alpha beta s0
                 = (Return nullValue,
                    upd_frame ssi (set_skipNullMove false) s4))
              /\ (w < l_beta L ->
                  search_body search_rec qsearch_rec NonPV ssi depth fuel
                    alpha beta s0
                  = search_from_step9 search_rec qsearch_rec NonPV ssi depth
                      fuel L (upd_frame ssi (set_skipNullMove false) s4))).
Proof.
  intros Hreach Hskip Hdepth Hcheck Hrefined Hbeta Hmat R s_child child.
  assert (HR : null_move_R depth L = R).
  { unfold null_move_R, R.
    destruct (l_refinedValue L - PawnValueMidgame >? l_beta L); lia. }
  split; [exact HR|].
  split.
  { unfold s_child. rewrite st_ss_upd_frame, Z.eqb_refl. reflexivity. }
  intros v s2 Hchild Hhigh nullValue s3 s_verify.
  rewrite (search_body_from_step8 NonPV alpha beta s0 s1 L eq_refl Hreach).
  unfold search_from_step8, search_step8.
  exec_steps. cbn [PvNode negb andb].
  rewrite Hskip, Hcheck.
  replace (depth >? ONE_PLY) with true
    by (symmetry; apply Z.gtb_lt; lia).
  replace (l_refinedValue L >=? l_beta L) with true
    by (symmetry; apply Z.geb_le; lia).
  replace (Z.abs (l_beta L) <? VALUE_MATE_IN_PLY_MAX) with true
    by (symmetry; apply Z.ltb_lt; lia).
  replace (truthy (non_pawn_material (st_pos s1) (side_to_move (st_pos s1))))
    with true
    by (symmetry; unfold truthy; apply negb_true_iff, Z.eqb_neq; exact Hmat).
  cbn [negb andb]. rewrite HR.
  exec_steps. fold s_child.
  assert (Hcall :
    (if depth - R * ONE_PLY <? ONE_PLY
     then call (qsearch_rec NonPV (ssi + 1) (- l_beta L) (- l_alpha L)
                  DEPTH_ZERO)
     else call (search_rec NonPV (ssi + 1) (- l_beta L) (- l_alpha L)
                  (depth - R * ONE_PLY))) s_child = (Next v, s2)).
  { unfold child in Hchild.
    destruct (depth - R * ONE_PLY <? ONE_PLY); unfold call; rewrite Hchild;
      reflexivity. }
  rewrite (bind_Next _ _ _ _ _ Hcall).
  exec_steps. fold s3.
  replace (- v >=? l_beta L) with true by (symmetry; apply Z.geb_le; lia).
  fold nullValue.
  split.
  - intros Hlow.
    replace (depth <? 6 * ONE_PLY) with true
      by (symmetry; apply Z.ltb_lt; lia).
    exec_steps. reflexivity.
  - intros Hdeep.
    replace (depth <? 6 * ONE_PLY) with false
      by (symmetry; apply Z.ltb_ge; lia).
    split.
    { unfold s_verify. rewrite st_ss_upd_frame, Z.eqb_refl. reflexivity. }
    intros w s4 Hverify.
    exec_steps. fold s_verify.
    assert (Hcall2 :
      call (search_rec NonPV ssi (l_alpha L) (l_beta L)
              (depth - R * ONE_PLY)) s_verify = (Next w, s4))
      by (unfold call; rewrite Hverify; reflexivity).
    rewrite (bind_Next _ _ _ _ _ Hcall2).
    exec_steps.
    split; intros Hw.
    + replace (w >=? l_beta L) with true by (symmetry; apply Z.geb_le; lia).
      exec_steps. reflexivity.
    + replace (w >=? l_beta L) with false
        by (symmetry; rewrite Z.geb_leb; apply Z.leb_gt; lia).
      exec_steps. reflexivity.
Qed.

Lemma search_body_from_moves (NT : NodeType) (alpha beta : Value)
  (s0 s1 : St World) (L : Locals) :
  SpNode NT = false ->
  search_steps_1_10 search_rec qsearch_rec NT ssi depth fuel alpha beta s0
    = (Next L, s1) ->
  search_body search_rec qsearch_rec NT ssi depth fuel alpha beta s0
  = search_from_moves search_rec qsearch_rec NT ssi depth fuel L s1.
Proof.
  intros Hsp Hreach. unfold search_body. rewrite Hsp.
  unfold search_steps_1_10, search_steps_1_7 in Hreach.
  unfold search_from_step6, search_from_step7, search_from_step8,
    search_from_step9.
  rewrite <- (bind_Next _ (search_from_moves search_rec qsearch_rec NT ssi
                            depth fuel) _ _ _ Hreach).
  rewrite !bind_assoc. unfold bind.
  repeat match goal with
  | |- context [let (_, _) := ?m ?s in _] =>
      destruct (m s) as [[? | ? |] ?]; try reflexivity
  end.
Qed.

Ltac exec_unfold H :=
  cbv beta iota zeta delta [bind get modify ret return_ call out_of_fuel] in H.

Ltac exec_cases H :=
  repeat (first
    [ match type of H with
      | context [evaluate ?p] => destruct (evaluate p) as [? ?] eqn:?
      end
    | match type of H with
      | context [qsearch_rec ?a ?b ?c ?d ?e ?s] =>
          destruct (qsearch_rec a b c d e s) as [[?|] ?] eqn:?
      end
    | match type of H with
      | context [search_rec ?a ?b ?c ?d ?e ?s] =>
          destruct (search_rec a b c d e s) as [[?|] ?] eqn:?
      end
    | match type of H with
      | context [if ?c then _ else _] => destruct c eqn:?
      end
    | match type of H with
      | context [match ?x with Some _ => _ | None => _ end] =>
          destruct x eqn:?
      end ];
    cbv beta iota zeta in H);
  try discriminate H.

Lemma search_step1_entry (NT : NodeType) (alpha beta : Value)
  (s0 s1 : St World) (L : Locals) :
  SpNode NT = false ->
  search_step1 NT ssi alpha beta s0 = (Next L, s1) ->
  l_oldAlpha L = alpha
  /\ l_inCheck L = in_check (st_pos s0)
  /\ ss_excludedMove (st_ss s1 ssi) = ss_excludedMove (st_ss s0 ssi)
  /\ st_pos s1 = st_pos s0.
Proof.
  intros Hsp H1. unfold search_step1 in H1. rewrite Hsp in H1.
  cbn [negb] in H1. exec_unfold H1.
  assert (Hne1 : (ssi =? ssi + 1) = false) by (apply Z.eqb_neq; lia).
  assert (Hne2 : (ssi =? ssi + 2) = false) by (apply Z.eqb_neq; lia).
  exec_cases H1; inversion H1; subst; clear H1;
    rewrite ?st_ss_upd_frame, ?st_ss_upd_glob, ?st_ss_upd_frame;
    rewrite ?Hne1, ?Hne2, ?Z.eqb_refl; cbn; auto.
Qed.

Lemma search_poll_frame (s s1 : St World) (u : unit) :
  search_poll s = (Next u, s1) ->
  st_ss s1 = st_ss s /\ st_pos s1 = st_pos s.
Proof.
  intros Hp. unfold search_poll in Hp. exec_unfold Hp.
  exec_cases Hp; inversion Hp; subst; clear Hp; split; reflexivity.
Qed.

Lemma search_step2_frame (NT : NodeType) (s s1 : St World) (u : unit) :
  search_step2 NT ssi s = (Next u, s1) -> s1 = s.
Proof.
  intros H2. unfold search_step2 in H2. exec_unfold H2.
  exec_cases H2; inversion H2; reflexivity.
Qed.

Lemma search_step3_entry (NT : NodeType) (s s1 : St World) (L L' : Locals) :
  search_step3 NT ssi L s = (Next L', s1) ->
  s1 = s /\ l_oldAlpha L' = l_oldAlpha L /\ l_inCheck L' = l_inCheck L.
Proof.
  intros H3. unfold search_step3 in H3. exec_unfold H3.
  exec_cases H3; inversion H3; subst; clear H3; repeat split.
Qed.

Lemma search_step4_entry (NT : NodeType) (s s1 : St World) (L L' : Locals) :
  search_step4 NT ssi depth L s = (Next L', s1) ->
  l_oldAlpha L' = l_oldAlpha L
  /\ l_inCheck L' = l_inCheck L
  /\ l_excludedMove L' = ss_excludedMove (st_ss s ssi).
Proof.
  intros H4. unfold search_step4 in H4. exec_unfold H4.
  exec_cases H4; inversion H4; subst; clear H4; repeat split.
Qed.

Lemma search_step5_entry (s s1 : St World) (L L' : Locals) :
  search_step5 ssi L s = (Next L', s1) -> same_entry L L'.
Proof.
  intros H5. unfold search_step5 in H5. exec_unfold H5.
  exec_cases H5; inversion H5; subst; clear H5; repeat split.
Qed.

Lemma search_step6_entry (NT : NodeType) (s s1 : St World) (L L' : Locals) :
  search_step6 qsearch_rec NT ssi depth L s = (Next L', s1) ->
  same_entry L L'.
Proof.
  intros H6. unfold search_step6 in H6. exec_unfold H6.
  exec_cases H6; inversion H6; subst; clear H6; repeat split.
Qed.

Lemma search_step7_entry (NT : NodeType) (s s1 : St World) (L L' : Locals) :
  search_step7 NT ssi depth L s = (Next L', s1) -> same_entry L L'.
Proof.
  intros H7. unfold search_step7 in H7. exec_unfold H7.
  exec_cases H7; inversion H7; subst; clear H7; repeat split.
Qed.

Lemma search_step8_entry (NT : NodeType) (s s1 : St World) (L L' : Locals) :
  search_step8 search_rec qsearch_rec NT ssi depth L s = (Next L', s1) ->
  same_entry L L'.
Proof.
  intros H8. unfold search_step8 in H8. exec_unfold H8.
  exec_cases H8; inversion H8; subst; clear H8; repeat split.
Qed.

Lemma search_step9_entry (NT : NodeType) (s s1 : St World) (L L' : Locals) :
  search_step9 search_rec NT ssi depth fuel L s = (Next L', s1) ->
  same_entry L L'.
Proof.
  intros H9. unfold search_step9 in H9.
  apply bind_Next_inv in H9. destruct H9 as (s' & s1' & Hg & H9).
  inversion Hg; subst; clear Hg.
  match type of H9 with
  | (if ?c then _ else _) _ = _ => destruct c
  end.
  - apply bind_Next_inv in H9. destruct H9 as (u & s9 & _ & H9).
    inversion H9; subst. repeat split.
  - inversion H9; subst. repeat split.
Qed.

Lemma search_step10_entry (NT : NodeType) (s s1 : St World)
  (L L' : Locals) :
  search_step10 search_rec NT ssi depth L s = (Next L', s1) ->
  same_entry L L'.
Proof.
  intros H10. unfold search_step10 in H10. exec_unfold H10.
  exec_cases H10; inversion H10; subst; clear H10; repeat split.
Qed.

Lemma search_steps_1_10_entry (NT : NodeType) (alpha beta : Value)
  (s0 s1 : St World) (L : Locals) :
  SpNode NT = false ->
  search_steps_1_10 search_rec qsearch_rec NT ssi depth fuel alpha beta s0
    = (Next L, s1) ->
  entry_locals ssi alpha s0 L.
Proof.
  intros Hsp Hreach.
  unfold search_steps_1_10, search_steps_1_7, search_steps_1_5 in Hreach.
  repeat match type of Hreach with
  | bind _ _ _ = (Next _, _) =>
      apply bind_Next_inv in Hreach;
      let a := fresh "L" in let s := fresh "s" in let Hm := fresh "Hm" in
      destruct Hreach as (a & s & Hm & Hreach)
  end.
  repeat match goal with
  | Hm : bind _ _ _ = (Next _, _) |- _ =>
      apply bind_Next_inv in Hm;
      let a := fresh "L" in let s := fresh "s" in let Hm' := fresh "Hm" in
      destruct Hm as (a & s & Hm' & Hm)
  end.
  repeat match goal with
  | Hm : search_step1 _ _ _ _ _ = _ |- _ =>
      apply (search_step1_entry _ _ _ _ _ _ Hsp) in Hm
  | Hm : search_poll _ = _ |- _ => apply search_poll_frame in Hm
  | Hm : search_step2 _ _ _ = _ |- _ => apply search_step2_frame in Hm
  | Hm : search_step3 _ _ _ _ = _ |- _ => apply search_step3_entry in Hm
  | Hm : search_step4 _ _ _ _ _ = _ |- _ => apply search_step4_entry in Hm
  | Hm : search_step5 _ _ _ = _ |- _ => apply search_step5_entry in Hm
  | Hm : search_step6 _ _ _ _ _ _ = _ |- _ => apply search_step6_entry in Hm
  | Hm : search_step7 _ _ _ _ _ = _ |- _ => apply search_step7_entry in Hm
  | Hm : search_step8 _ _ _ _ _ _ _ = _ |- _ =>
      apply search_step8_entry in Hm
  | Hm : search_step9 _ _ _ _ _ _ _ = _ |- _ =>
      apply search_step9_entry in Hm
  | Hm : search_step10 _ _ _ _ _ _ = _ |- _ =>
      apply search_step10_entry in Hm
  end.
  unfold same_entry, entry_locals in *.
  repeat match goal with
  | Hc : _ /\ _ |- _ => destruct Hc
  end.
  subst. repeat split; congruence.
Qed.

(** C5.  When a search that is not at a split point comes to the end of
    its move loop with [moveCount = 0], it returns the [alpha] it was
    called with if [ss->excludedMove] was set on entry, else
    [value_mated_in (ss->ply)] if the side to move was in check on entry,
    else [VALUE_DRAW]. *)
Theorem search_no_move_tried (NT : NodeType) (alpha beta : Value)
  (s0 s1 s2 : St World) (L : Locals) (V : LoopVars) :
  SpNode NT = false ->
  search_steps_1_10 search_rec qsearch_rec NT ssi depth fuel alpha beta s0
    = (Next L, s1) ->
  search_move_loop search_rec qsearch_rec NT ssi depth fuel L s1
    = (Next V, s2) ->
  v_moveCount V = 0 ->
  search_body search_rec qsearch_rec NT ssi depth fuel alpha beta s0
  = (Return
       (if truthy (ss_excludedMove (st_ss s0 ssi)) then alpha
        else if in_check (st_pos s0)
             then value_mated_in (ss_ply (st_ss s2 ssi))
             else VALUE_DRAW),
     s2).
Proof.
  intros Hsp Hreach Hloop Hcount.
  destruct (search_steps_1_10_entry NT alpha beta s0 s1 L Hsp Hreach)
    as (Hold & Hin & Hex).
  rewrite (search_body_from_moves NT alpha beta s0 s1 L Hsp Hreach).
  unfold search_from_moves.
  rewrite (bind_Next _ _ _ _ _ Hloop).
  unfold search_step20. exec_steps.
  rewrite Hsp, Hcount, Hold, Hin, Hex. cbn [negb andb truthy Z.eqb].
  exec_steps. reflexivity.
Qed.

Lemma qsearch_probe_locals (NT : NodeType) (alpha beta : Value)
  (s0 s1 : St World) (Q : QLocals) :
  qsearch_probe NT ssi depth alpha beta s0 = (Next Q, s1) ->
  q_alpha Q = alpha /\ q_beta Q = beta
  /\ q_inCheck Q = in_check (st_pos s0)
  /\ q_tte Q = tt_probe (TT (st_glob s0)) (get_key (st_pos s0))
  /\ st_pos s1 = st_pos s0 /\ st_glob s1 = st_glob s0.
Proof.
  intros Hp. unfold qsearch_probe in Hp. exec_unfold Hp.
  cbn [st_pos st_glob upd_frame] in Hp.
  exec_cases Hp; inversion Hp; subst; clear Hp; cbn; repeat split;
    try assumption; try (symmetry; assumption).
Qed.

(** C6 (as amended).  When [qsearch] comes to the static evaluation with
    the side to move not in check, [bestValue] starts as the static
    evaluation, the entry's when the probe found one and a fresh one
    otherwise.  If it reaches [beta], it is returned with no move
    searched, and a LOWER entry is stored for the position only if the
    probe had found no entry: with an entry the table is left as it is.
    Otherwise the move loop starts with [alpha] raised to [bestValue] at
    a PV node where [bestValue > alpha]. *)
Theorem qsearch_stand_pat_value (NT : NodeType) (alpha beta : Value)
  (s0 s1 : St World) (Q : QLocals) :
  qsearch_probe NT ssi depth alpha beta s0 = (Next Q, s1) ->
  in_check (st_pos s0) = false ->
  let bestValue := fst (qsearch_static Q s1) in
  let evalMargin := snd (qsearch_static Q s1) in
  let s2 :=
    upd_frame ssi (set_eval bestValue (ss_evalMargin (st_ss s1 ssi))) s1 in
  (bestValue >= beta ->
     qsearch_body qsearch_rec NT ssi depth fuel alpha beta s0
     = (Return bestValue,
        match q_tte Q with
        | None =>
          upd_glob (fun g => set_TT (qsearch_stand_pat_store ssi Q s1) g) s2
        | Some _ => s2
        end)
     /\ st_pos s2 = st_pos s0
     /\ (q_tte Q <> None -> TT (st_glob s2) = TT (st_glob s0)))
  /\ (bestValue < beta ->
      qsearch_body qsearch_rec NT ssi depth fuel alpha beta s0
      = qsearch_from_moves qsearch_rec NT ssi depth fuel
          (set_q_eval
             (if qPvNode NT && (bestValue >? alpha) then bestValue
              else alpha)
             bestValue evalMargin (bestValue + evalMargin + FutilityMarginQS)
             (non_pawn_material (st_pos s1) (side_to_move (st_pos s1))
                >? RookValueMidgame) Q)
          s2).
Proof.
  intros Hprobe Hcheck bestValue evalMargin s2.
  destruct (qsearch_probe_locals NT alpha beta s0 s1 Q Hprobe)
    as (Ha & Hb & Hic & Htte & Hpos & Hglob).
  assert (Hbody :
    qsearch_body qsearch_rec NT ssi depth fuel alpha beta s0
    = bind (qsearch_stand_pat NT ssi Q)
        (qsearch_from_moves qsearch_rec NT ssi depth fuel) s1).
  { unfold qsearch_body. rewrite (bind_Next _ _ _ _ _ Hprobe). reflexivity. }
  rewrite Hbody. unfold qsearch_stand_pat. exec_steps.
  rewrite Hic, Hcheck.
  assert (Hstatic :
    match q_tte Q with
    | Some e =>
      (tte_static_value (tt_entry (TT (st_glob s1)) e),
       tte_static_value_margin (tt_entry (TT (st_glob s1)) e))
    | None => evaluate (st_pos s1)
    end = (bestValue, evalMargin)).
  { unfold bestValue, evalMargin, qsearch_static.
    destruct (q_tte Q); [reflexivity|].
    destruct (evaluate (st_pos s1)); reflexivity. }
  rewrite Hstatic. exec_steps. fold s2. rewrite Hb.
  split.
  - intros Hhigh.
    replace (bestValue >=? beta) with true
      by (symmetry; apply Z.geb_le; lia).
    split; [|split].
    + unfold qsearch_stand_pat_store. fold bestValue evalMargin.
      destruct (q_tte Q); exec_steps; reflexivity.
    + unfold s2. cbn [st_pos upd_frame]. exact Hpos.
    + intros _. unfold s2. cbn [st_glob upd_frame]. rewrite Hglob.
      reflexivity.
  - intros Hlow.
    replace (bestValue >=? beta) with false
      by (symmetry; rewrite Z.geb_leb; apply Z.leb_gt; lia).
    exec_steps. rewrite Ha. reflexivity.
Qed.

(** [search] and [qsearch] with their recursion tied are their bodies
    run on the functions one level down, so that what holds of a body
    for any callee holds of them. *)
Lemma search_unfold (n : nat) (NT : NodeType) (alpha beta : Value) :
  search fuel (S n) NT ssi alpha beta depth
  = run (search_body (search fuel n) (qsearch fuel n) NT ssi depth fuel
           alpha beta).
Proof. reflexivity. Qed.

Lemma qsearch_unfold (n : nat) (NT : NodeType) (alpha beta : Value) :
  (qsearch fuel (S n) : SearchFn World) NT ssi alpha beta depth
  = run (qsearch_body (qsearch fuel n) NT ssi depth fuel alpha beta).
Proof. reflexivity. Qed.

End SearchFacts.

(** ** The model at work on the sample world *)

Section SampleRuns.
#[local] Existing Instance sample_types.
#[local] Existing Instance sample_position.
#[local] Existing Instance sample_bitboards.
#[local] Existing Instance sample_table.
#[local] Existing Instance sample_history.
#[local] Existing Instance sample_picker.
#[local] Existing Instance sample_threads.
#[local] Existing Instance sample_tables.
#[local] Existing Instance sample_engine.

(** The whole of [search] on the sample world: at depth 2 razoring hands
    over to the quiescence search, which stands on the evaluation 0. *)
Example search_runs :
  fst (search 64 3 NonPV 1 999 1000 2 (sample_state sample_start []))
  = Some 0.
Proof. vm_compute. reflexivity. Qed.

Example qsearch_runs :
  fst (qsearch 64 3 PV 1 (-100) 100 0 (sample_state sample_quiet []))
  = Some 50.
Proof. vm_compute. reflexivity. Qed.

Ltac sample_side :=
  first [ reflexivity
        | vm_compute; first [ reflexivity | discriminate
                            | intro; discriminate ] ].

(** Razoring at depth 2 with [beta = 1000]: the quiescence search gives
    5, below [rbeta = 456], and 5 is what [search] returns. *)
Lemma search_razoring_witness :
  fst (search_body sample_rec sample_rec NonPV 1 2 64 999 1000
         (sample_state sample_start [])) = Return 5.
Proof.
  edestruct (search_razoring sample_rec sample_rec 1 2 64 999 1000
               (sample_state sample_start [])) as [_ Hrun].
  - lazy. reflexivity.
  - sample_side.
  - sample_side.
  - sample_side.
  - sample_side.
  - sample_side.
  - sample_side.
  - rewrite Hrun. vm_compute. reflexivity.
Defined.

(** The null move at depth 4 with [beta = -10]: the reduction is 3, the
    child is a quiescence search, its value 5 gives the null value -5,
    which is returned at once. *)
Lemma search_null_move_witness :
  fst (search_body sample_rec sample_rec NonPV 1 4 64 (-11) (-10)
         (sample_state sample_start [])) = Return (-5).
Proof.
  edestruct (search_null_move sample_rec sample_rec 1 4 64 (-11) (-10)
               (sample_state sample_start [])) as (_ & _ & Hrun).
  - lazy. reflexivity.
  - sample_side.
  - sample_side.
  - sample_side.
  - sample_side.
  - sample_side.
  - sample_side.
  - edestruct Hrun as [Hlow _].
    + vm_compute. reflexivity.
    + sample_side.
    + rewrite Hlow; [vm_compute; reflexivity | sample_side].
Defined.

(** A PV node without any move: stalemate, the value of a draw. *)
Lemma search_no_move_tried_witness :
  fst (search_body sample_rec sample_rec PV 1 2 64 (-100) 100
         (sample_state sample_start [])) = Return 0.
Proof.
  erewrite (search_no_move_tried sample_rec sample_rec 1 2 64 PV (-100) 100
              (sample_state sample_start [])).
  - vm_compute. reflexivity.
  - reflexivity.
  - lazy. reflexivity.
  - lazy. reflexivity.
  - reflexivity.
Defined.

(** Standing pat with no table entry: the evaluation 50 is returned and
    a LOWER entry is stored. *)
Lemma qsearch_stand_pat_value_witness :
  fst (qsearch_body sample_rec NonPV 1 0 64 9 10
         (sample_state sample_quiet [])) = Return 50
  /\ TT (st_glob (snd (qsearch_body sample_rec NonPV 1 0 64 9 10
                         (sample_state sample_quiet []))))
     = [(7, {| tte_move := 0; tte_value := 50; tte_type := 2;
               tte_depth := -254; tte_static_value := 50;
               tte_static_value_margin := 0 |})].
Proof.
  edestruct (qsearch_stand_pat_value sample_rec 1 0 64 NonPV 9 10
               (sample_state sample_quiet [])) as [Hhigh _].
  - lazy. reflexivity.
  - reflexivity.
  - destruct Hhigh as (Hrun & _); [sample_side|].
    rewrite Hrun. split; vm_compute; reflexivity.
Defined.

(** C6 as stated fails: when the probe finds an entry, standing pat
    returns the evaluation and stores nothing. *)
Lemma stand_pat_as_specified_fails :
  ~ stand_pat_as_specified sample_rec NonPV 1 0 64 9 10
      (sample_state sample_quiet sample_known).
Proof.
  intros Hspec.
  edestruct Hspec as (s' & Hrun & Hstore).
  - lazy. reflexivity.
  - reflexivity.
  - sample_side.
  - assert (Htable :
      TT (st_glob (snd (qsearch_body sample_rec NonPV 1 0 64 9 10
                          (sample_state sample_quiet sample_known))))
      = sample_known) by (vm_compute; reflexivity).
    rewrite Hrun in Htable. cbn [snd] in Htable.
    rewrite Htable in Hstore. vm_compute in Hstore. discriminate Hstore.
Qed.

Lemma sample_pop_1st_bit_pops : pop_1st_bit_pops.
Proof.
  intros b Hb. cbn [pop_1st_bit sample_bitboards]. unfold sample_pop_1st_bit.
  destruct (find (Z.testbit b) all_squares) as [s|] eqn:Hfind.
  - apply find_some in Hfind. destruct Hfind as [Hin Hbit].
    apply in_all_squares in Hin. cbn [fst snd].
    repeat split; [lia | exact Hbit].
  - exfalso. apply (bb_squares_nonempty b Hb). unfold bb_squares.
    pose proof (find_none _ _ Hfind) as Hnone.
    induction all_squares as [|x l IH]; [reflexivity|].
    cbn [filter]. rewrite (Hnone x (or_introl eq_refl)).
    apply IH.
    + cbn [find] in Hfind. rewrite (Hnone x (or_introl eq_refl)) in Hfind.
      exact Hfind.
    + intros y Hy. apply Hnone. right. exact Hy.
Qed.

(** A knight check that newly attacks a pawn and a queen, too cheap to
    reach [beta = 5000]: the check is not dangerous and [bestValue] is
    raised from 200 to the queen's futility value. *)
Lemma check_is_dangerous_bestValue_witness :
  check_is_dangerous sample_check 594 100 5000 200 = Some (false, 2658).
Proof.
  destruct (@check_is_dangerous_bestValue sample_types sample_position
              sample_bitboards sample_pop_1st_bit_pops
              sample_check 594 100 5000 200)
    as (dangerous & bestValue' & Hrun & _ & _).
  - intros c. vm_compute. split; [intro; discriminate | reflexivity].
  - rewrite Hrun. vm_compute in Hrun. symmetry. exact Hrun.
Defined.

(** The initial position, two legal moves, and a token that is no move:
    the two moves are made and the rest of the line is left. *)
Lemma set_position_effect_witness :
  set_position false (@Build_UciState sample_position sample_start 0)
    ["startpos"; "moves"; "e2e4"; "e7e5"; "zzz"; "e2e4"]%string
  = @Build_UciState sample_position
      (play_moves (from_fen sample_start StarFEN false)
         ["e2e4"; "e7e5"]%string)
      2.
Proof.
  destruct (set_position_effect false
              (@Build_UciState sample_position sample_start 0)
              ["startpos"; "moves"; "e2e4"; "e7e5"; "zzz"; "e2e4"]%string)
    as (_ & Hstart & _ & Hmoves).
  rewrite Hstart by reflexivity.
  cbn [tl].
  rewrite (Hmoves _ ["e2e4"; "e7e5"]%string ["zzz"; "e2e4"]%string).
  - reflexivity.
  - vm_compute. repeat split; intro; discriminate.
  - right. exists "zzz"%string, ["e2e4"%string]. split; reflexivity.
Defined.

End SampleRuns.

(** ** More on the transposition-table helpers and on extension() *)

Section TTHelperMore.
Context `{Types}.

(** X1.  A score stored with [value_to_tt] at the ply [stored] and read with
    [value_from_tt] at the ply [loaded], when [|v| + stored + |loaded|] is
    below [2^31], so that no addition leaves the [int]s: a mate score (at
    or above [VALUE_MATE_IN_PLY_MAX]) comes back as [v + stored - loaded],
    a mated score (at or below [VALUE_MATED_IN_PLY_MAX]) as
    [v - stored + loaded], and every other score as it was. *)
Theorem value_tt_ply_shift (v : Value) (stored loaded : Z) :
  0 <= stored ->
  Z.abs v + stored + Z.abs loaded < 2 ^ 31 ->
  value_from_tt (value_to_tt v stored) loaded
  = if v >=? VALUE_MATE_IN_PLY_MAX then v + stored - loaded
    else if v <=? VALUE_MATED_IN_PLY_MAX then v - stored + loaded
    else v.
Proof.
  intros Hs Hsmall. change (2 ^ 31) with 2147483648 in Hsmall.
  assert (Hfits : forall z, Z.abs z <= Z.abs v + stored + Z.abs loaded ->
                            to_int z = z).
  { intros z Hz. apply to_int_fits. unfold fits_int.
    change (2 ^ 31) with 2147483648. lia. }
  unfold value_from_tt, value_to_tt.
  destruct (v >=? VALUE_MATE_IN_PLY_MAX) eqn:Hhi.
  - apply Z.geb_le in Hhi. rewrite (Hfits (v + stored)) by lia.
    replace (v + stored >=? VALUE_MATE_IN_PLY_MAX) with true
      by (symmetry; apply Z.geb_le; lia).
    apply Hfits. lia.
  - rewrite Z.geb_leb in Hhi. apply Z.leb_gt in Hhi.
    destruct (v <=? VALUE_MATED_IN_PLY_MAX) eqn:Hlo.
    + apply Z.leb_le in Hlo. rewrite (Hfits (v - stored)) by lia.
      replace (v - stored >=? VALUE_MATE_IN_PLY_MAX) with false
        by (symmetry; rewrite Z.geb_leb; apply Z.leb_gt; lia).
      replace (v - stored <=? VALUE_MATED_IN_PLY_MAX) with true
        by (symmetry; apply Z.leb_le; lia).
      apply Hfits. lia.
    + replace (v >=? VALUE_MATE_IN_PLY_MAX) with false
        by (symmetry; rewrite Z.geb_leb; apply Z.leb_gt; lia).
      rewrite Hlo. reflexivity.
Qed.

(** X2.  An entry that [can_return_tt] accepts for the depth [d] is accepted
    for every smaller depth, with the same [beta] and [ply]. *)
Theorem can_return_tt_shallower (tte : TTEntry) (d d' : Depth) (beta : Value)
  (ply : Z) :
  d' <= d ->
  can_return_tt tte d beta ply = true ->
  can_return_tt tte d' beta ply = true.
Proof.
  intros Hd. unfold can_return_tt. cbv zeta.
  rewrite !andb_true_iff, !orb_true_iff, !Z.geb_le.
  intros [Hdeep Htype]. split; [|exact Htype].
  destruct Hdeep as [[Hdeep | Hm] | Hm]; [left; left; lia | left; right; exact Hm | right; exact Hm].
Qed.

(** X3.  An entry of type [VALUE_TYPE_NONE] (no bound bit set) is never
    accepted by [can_return_tt], however deep it is. *)
Theorem can_return_tt_needs_bound (tte : TTEntry) (d : Depth) (beta : Value)
  (ply : Z) :
  VALUE_TYPE_NONE = 0 ->
  tte_type tte = VALUE_TYPE_NONE ->
  can_return_tt tte d beta ply = false.
Proof.
  intros Hnone Htype. unfold can_return_tt, type_has, truthy. cbv zeta.
  rewrite Htype, Hnone. cbn. apply andb_false_r.
Qed.

(** X4.  [refine_eval] reads the entry's value [v] as a bound on the
    evaluation: with the LOWER bit alone the result is the larger of
    [defaultEval] and [v], with the UPPER bit alone the smaller, with both
    bits it is [v], and with neither it is [defaultEval]. *)
Theorem refine_eval_bounds (tte : TTEntry) (defaultEval : Value) (ply : Z) :
  let v := value_from_tt (tte_value tte) ply in
  refine_eval tte defaultEval ply
  = match type_has (tte_type tte) VALUE_TYPE_LOWER,
          type_has (tte_type tte) VALUE_TYPE_UPPER with
    | true, true => v
    | true, false => Z.max defaultEval v
    | false, true => Z.min defaultEval v
    | false, false => defaultEval
    end.
Proof.
  intros v. unfold refine_eval. fold v.
  destruct (type_has (tte_type tte) VALUE_TYPE_LOWER),
           (type_has (tte_type tte) VALUE_TYPE_UPPER); cbn [andb orb].
  - destruct (v >=? defaultEval) eqn:Hge; cbn [orb]; [reflexivity|].
    rewrite Z.geb_leb in Hge. apply Z.leb_gt in Hge.
    replace (v <? defaultEval) with true by (symmetry; apply Z.ltb_lt; lia).
    reflexivity.
  - rewrite orb_false_r. destruct (v >=? defaultEval) eqn:Hge.
    + apply Z.geb_le in Hge. lia.
    + rewrite Z.geb_leb in Hge. apply Z.leb_gt in Hge. lia.
  - destruct (v <? defaultEval) eqn:Hlt.
    + apply Z.ltb_lt in Hlt. lia.
    + apply Z.ltb_ge in Hlt. lia.
  - reflexivity.
Qed.

End TTHelperMore.

Section ExtensionFacts.
Context `{Types} `{PositionOps} `{BitboardOps}.

(** X5.  The extension that [extension] grants is at most [ONE_PLY] and, for
    a non-negative [ONE_PLY], not negative; a move that gives check is
    marked dangerous, and so is every move that is granted a positive
    extension. *)
Theorem extension_marks_dangerous (pv : bool) (pos : Position) (m : Move)
  (captureOrPromotion moveIsCheck : bool) :
  let ext := fst (extension pv pos m captureOrPromotion moveIsCheck) in
  let dangerous := snd (extension pv pos m captureOrPromotion moveIsCheck) in
  ext <= ONE_PLY
  /\ (0 <= ONE_PLY -> 0 <= ext)
  /\ (moveIsCheck = true -> dangerous = true)
  /\ (0 < ext -> dangerous = true).
Proof.
  unfold extension. cbv zeta.
  unfold CheckExtension, PawnPushTo7thExtension, PassedPawnExtension,
    PawnEndgameExtension, DEPTH_ZERO.
  rewrite Z.quot_1_r.
  assert (Hhalf : 0 <= ONE_PLY -> 0 <= Z.quot ONE_PLY 2)
    by (intros; apply Z.quot_pos; lia).
  destruct pv, moveIsCheck;
  destruct (see_sign pos m >=? 0);
  destruct (type_of (piece_on pos (move_from m)) =? PAWN);
  destruct (relative_rank (side_to_move pos) (move_to m) =? RANK_7);
  destruct (pawn_is_passed pos (side_to_move pos) (move_to m));
  destruct (captureOrPromotion
     && negb (type_of (piece_on pos (move_to m)) =? PAWN)
     && (non_pawn_material pos WHITE + non_pawn_material pos BLACK
         - PieceValueMidgame (piece_on pos (move_to m)) =? VALUE_ZERO)
     && negb (is_special m));
  cbn [andb fst snd];
  (split; [lia | split; [intros Hply; specialize (Hhalf Hply); lia
                        | split; intros; try reflexivity;
                          try discriminate; lia]]).
Qed.

End ExtensionFacts.

(** ** Strings *)

Lemma string_append_assoc (a b c : string) :
  String.append (String.append a b) c = String.append a (String.append b c).
Proof. induction a as [|x a IH]; cbn; [reflexivity | rewrite IH; reflexivity]. Qed.

Lemma string_append_empty (s : string) : String.append s EmptyString = s.
Proof. induction s as [|c s IH]; cbn; [reflexivity | rewrite IH; reflexivity]. Qed.

Lemma string_append_nonempty (a b : string) :
  a <> EmptyString -> String.append a b <> EmptyString.
Proof. destruct a; [contradiction | discriminate]. Qed.

(** ** Root moves *)

Section RootMoveFacts.
Context {types : Types} {position : PositionOps} {table : TableOps}
  {movegen : MoveGenOps}.

Lemma Rml_find_from_spec (l : list RootMove) (m : Move) (start : Z) :
  forall i : Z,
  match Rml_find_from l m start i with
  | Some k =>
    i <= k < i + Z.of_nat (List.length l) /\ start <= k
    /\ pv0 (nth (Z.to_nat (k - i)) l blank_root_move) = m
    /\ forall j, i <= j < k -> start <= j ->
         pv0 (nth (Z.to_nat (j - i)) l blank_root_move) <> m
  | None =>
    forall j, i <= j < i + Z.of_nat (List.length l) -> start <= j ->
      pv0 (nth (Z.to_nat (j - i)) l blank_root_move) <> m
  end.
Proof.
  induction l as [|rm l IH]; intros i.
  - cbn [Rml_find_from List.length]. intros j Hj. lia.
  - cbn [Rml_find_from].
    destruct ((start <=? i) && (pv0 rm =? m)) eqn:Hhit.
    + apply andb_true_iff in Hhit. destruct Hhit as [Hs Hm].
      apply Z.leb_le in Hs. apply Z.eqb_eq in Hm.
      cbn [List.length]. rewrite Z.sub_diag. cbn [Z.to_nat nth].
      repeat split; try lia; try exact Hm.
    + specialize (IH (i + 1)).
      assert (Hstep : forall j, i < j ->
                Z.to_nat (j - i) = S (Z.to_nat (j - (i + 1)))) by (intros; lia).
      destruct (Rml_find_from l m start (i + 1)) as [k|].
      * destruct IH as (Hk & Hsk & Hpv & Hfirst).
        cbn [List.length]. rewrite (Hstep k) by lia. cbn [nth].
        repeat split; try lia; try exact Hpv.
        intros j Hj Hsj.
        destruct (Z.eq_dec j i) as [-> | Hne].
        -- rewrite Z.sub_diag. cbn [Z.to_nat nth].
           apply andb_false_iff in Hhit. destruct Hhit as [Hc | Hc].
           ++ apply Z.leb_gt in Hc. lia.
           ++ apply Z.eqb_neq in Hc. exact Hc.
        -- rewrite (Hstep j) by lia. cbn [nth]. apply Hfirst; lia.
      * intros j Hj Hsj. cbn [List.length] in Hj.
        destruct (Z.eq_dec j i) as [-> | Hne].
        -- rewrite Z.sub_diag. cbn [Z.to_nat nth].
           apply andb_false_iff in Hhit. destruct Hhit as [Hc | Hc].
           ++ apply Z.leb_gt in Hc. lia.
           ++ apply Z.eqb_neq in Hc. exact Hc.
        -- rewrite (Hstep j) by lia. cbn [nth]. apply IH; lia.
Qed.

(** X6.  [RootMoveList::find] gives the first index from [startIndex] on
    whose root move starts with [m], and nothing when there is none (or
    when [startIndex] is negative). *)
Theorem Rml_find_first (l : list RootMove) (m : Move) (startIndex : Z) :
  match Rml_find l m startIndex with
  | Some k =>
    0 <= startIndex <= k /\ k < Z.of_nat (List.length l)
    /\ pv0 (nth (Z.to_nat k) l blank_root_move) = m
    /\ forall j, startIndex <= j < k ->
         pv0 (nth (Z.to_nat j) l blank_root_move) <> m
  | None =>
    startIndex < 0
    \/ forall j, startIndex <= j < Z.of_nat (List.length l) ->
         pv0 (nth (Z.to_nat j) l blank_root_move) <> m
  end.
Proof.
  unfold Rml_find. destruct (startIndex <? 0) eqn:Hneg.
  - left. apply Z.ltb_lt in Hneg. exact Hneg.
  - apply Z.ltb_ge in Hneg.
    pose proof (Rml_find_from_spec l m startIndex 0) as Hspec.
    destruct (Rml_find_from l m startIndex 0) as [k|].
    + destruct Hspec as (Hk & Hsk & Hpv & Hfirst). rewrite Z.sub_0_r in Hpv.
      repeat split; try lia; try exact Hpv.
      intros j Hj. specialize (Hfirst j). rewrite Z.sub_0_r in Hfirst.
      apply Hfirst; lia.
    + right. intros j Hj. specialize (Hspec j). rewrite Z.sub_0_r in Hspec.
      apply Hspec; lia.
Qed.

Lemma Rml_init_scan_listed (listed junk : list Move) (m : Move) :
  Forall (fun x => x <> 0) listed ->
  forall moved : bool,
  exists (mv : bool) (x : Move),
    Rml_init_scan (listed ++ 0 :: junk)%list m moved = Some (mv, x)
    /\ mv && negb (x =? m)
       = negb (existsb (Z.eqb m) listed)
         && (moved || negb (Nat.eqb (List.length listed) 0))
         && negb (m =? 0).
Proof.
  intros Hnz. induction Hnz as [|x listed Hx Hnz IH]; intros moved.
  - exists moved, 0. cbn. rewrite orb_false_r, (Z.eqb_sym m 0).
    split; reflexivity.
  - cbn [app Rml_init_scan existsb List.length Nat.eqb negb].
    unfold truthy. replace (x =? 0) with false
      by (symmetry; apply Z.eqb_neq; exact Hx).
    cbn [negb andb]. rewrite (Z.eqb_sym m x).
    destruct (x =? m) eqn:Hxm; cbn [negb orb andb].
    + exists moved, x. split; [reflexivity|].
      rewrite Hxm. cbn. apply andb_false_r.
    + destruct (IH true) as (mv & y & Hscan & Hskip).
      exists mv, y. split; [exact Hscan|].
      rewrite Hskip. cbn [orb]. rewrite orb_true_r. reflexivity.
Qed.

Lemma Rml_init_moves_listed (listed junk : list Move) (keep : Move -> bool) :
  Forall (fun x => x <> 0) listed ->
  (forall m, keep m
             = existsb (Z.eqb m) listed
               || Nat.eqb (List.length listed) 0 || (m =? 0)) ->
  forall (ml : list Move) (rml : list RootMove),
  Rml_init_moves ml (listed ++ 0 :: junk)%list rml
  = Some (rml ++ map Rml_init_root_move (filter keep ml))%list.
Proof.
  intros Hnz Hkeep. induction ml as [|m ml IH]; intros rml.
  - cbn. rewrite app_nil_r. reflexivity.
  - cbn [Rml_init_moves filter].
    destruct (Rml_init_scan_listed listed junk m Hnz false)
      as (mv & x & Hscan & Hskip).
    rewrite Hscan, Hskip, Hkeep. cbn [orb].
    destruct (existsb (Z.eqb m) listed); cbn [negb andb orb].
    + rewrite IH. cbn [map]. rewrite <- app_assoc. reflexivity.
    + destruct (Nat.eqb (List.length listed) 0); cbn [negb andb orb].
      * rewrite IH. cbn [map]. rewrite <- app_assoc. reflexivity.
      * destruct (m =? 0); cbn [negb].
        -- rewrite IH. cbn [map]. rewrite <- app_assoc. reflexivity.
        -- apply IH.
Qed.

(** X7.  [RootMoveList::init] on a [searchMoves] array whose entries before
    the first zero are [listed], no legal move being zero: with nothing
    listed every legal move becomes a root move, otherwise exactly the
    legal moves that are listed, in the order of the move generator; each
    root move has the line [m, MOVE_NONE] and the scores
    [-VALUE_INFINITE], and [bestMoveChanges] is reset to 0.  What follows
    the first zero is never read. *)
Theorem Rml_init_listed (pos : Position) (listed junk : list Move) :
  Forall (fun x => x <> 0) listed ->
  ~ In 0 (legal_moves pos) ->
  Rml_init pos (listed ++ 0 :: junk)%list
  = Some (map Rml_init_root_move
            (match listed with
             | [] => legal_moves pos
             | _ :: _ =>
               filter (fun m => existsb (Z.eqb m) listed) (legal_moves pos)
             end), 0).
Proof.
  intros Hnz Hlegal. unfold Rml_init.
  rewrite (Rml_init_moves_listed listed junk
             (fun m => existsb (Z.eqb m) listed
                       || Nat.eqb (List.length listed) 0 || (m =? 0)) Hnz)
    by reflexivity.
  cbn [app]. do 3 f_equal.
  assert (Hz : forall m, In m (legal_moves pos) -> (m =? 0) = false).
  { intros m Hin. apply Z.eqb_neq. intros ->. contradiction. }
  destruct listed as [|x listed].
  - cbn. apply forallb_filter_id, forallb_forall. reflexivity.
  - apply filter_ext_in. intros m Hin.
    rewrite (Hz m Hin). cbn [List.length Nat.eqb].
    rewrite !orb_false_r. reflexivity.
Qed.

(** extract_pv_from_tt *)

Lemma extract_pv_loop_tail (tbl : TranspositionTable) (fuel : nat) :
  forall (pos : Position) (ply : Z) (acc : list Move),
  exists tail : list Move,
    snd (extract_pv_loop fuel tbl pos ply acc) = (rev tail ++ acc)%list
    /\ fst (extract_pv_loop fuel tbl pos ply acc)
       = fold_left do_move tail pos
    /\ Z.of_nat (List.length tail) <= Z.max 0 (PLY_MAX - ply)
    /\ Forall
         (fun pm : Position * Move =>
            snd pm <> MOVE_NONE
            /\ is_pseudo_legal (fst pm) (snd pm) = true
            /\ pl_move_is_legal (fst pm) (snd pm) (pinned_pieces (fst pm))
               = true
            /\ exists e, tt_probe tbl (get_key (fst pm)) = Some e
                         /\ tte_move (tt_entry tbl e) = snd pm)
         (pv_positions pos tail).
Proof.
  induction fuel as [|fuel IH]; intros pos ply acc.
  - exists []. cbn. repeat split; [lia | constructor].
  - cbn [extract_pv_loop].
    destruct (tt_probe tbl (get_key pos)) as [e|] eqn:Hprobe;
      [|exists []; cbn; repeat split; [lia | constructor]].
    match goal with
    | |- context [if ?c then _ else _] => destruct c eqn:Hc
    end; [|exists []; cbn; repeat split; [lia | constructor]].
    apply andb_true_iff in Hc. destruct Hc as [Hc Hdraw].
    apply andb_true_iff in Hc. destruct Hc as [Hc Hply].
    apply andb_true_iff in Hc. destruct Hc as [Hc Hlegal].
    apply andb_true_iff in Hc. destruct Hc as [Hnone Hpseudo].
    apply negb_true_iff, Z.eqb_neq in Hnone. apply Z.ltb_lt in Hply.
    set (m := tte_move (tt_entry tbl e)) in *.
    destruct (IH (do_move pos m) (ply + 1) (m :: acc))
      as (tail & Hacc & Hpos & Hlen & Hall).
    exists (m :: tail). rewrite Hacc, Hpos.
    cbn [rev fold_left List.length pv_positions].
    rewrite <- app_assoc. cbn [app].
    repeat split; [lia|].
    constructor; [|exact Hall].
    cbn [fst snd]. repeat split; try assumption.
    exists e. split; [exact Hprobe | reflexivity].
Qed.

(** X8.  [extract_pv_from_tt] keeps the scores and the node count of the
    root move and its first move; the new line is that move, then fewer
    than [PLY_MAX] moves, then [MOVE_NONE]; every added move is the table's
    move for the position it is played in, is not [MOVE_NONE], and is
    pseudo-legal and legal there. *)
Theorem extract_pv_from_tt_shape (rm : RootMove) (tbl : TranspositionTable)
  (pos : Position) :
  let rm' := fst (extract_pv_from_tt rm tbl pos) in
  nodes rm' = nodes rm /\ score rm' = score rm
  /\ prevScore rm' = prevScore rm
  /\ exists tail : list Move,
       pv rm' = (pv0 rm :: tail ++ [MOVE_NONE])%list
       /\ Z.of_nat (List.length tail) <= Z.max 0 (PLY_MAX - 1)
       /\ Forall
            (fun pm : Position * Move =>
               snd pm <> MOVE_NONE
               /\ is_pseudo_legal (fst pm) (snd pm) = true
               /\ pl_move_is_legal (fst pm) (snd pm)
                    (pinned_pieces (fst pm)) = true
               /\ exists e, tt_probe tbl (get_key (fst pm)) = Some e
                            /\ tte_move (tt_entry tbl e) = snd pm)
            (pv_positions (do_move pos (pv0 rm)) tail).
Proof.
  unfold extract_pv_from_tt.
  destruct (extract_pv_loop_tail tbl (Z.to_nat PLY_MAX)
              (do_move pos (pv0 rm)) 1 [pv0 rm])
    as (tail & Hacc & _ & Hlen & Hall).
  destruct (extract_pv_loop (Z.to_nat PLY_MAX) tbl (do_move pos (pv0 rm)) 1
              [pv0 rm]) as [pos' acc].
  cbn [fst snd] in *. subst acc.
  repeat split. exists tail.
  rewrite rev_app_distr, rev_involutive. cbn [rev app].
  repeat split; assumption.
Qed.

Section Undo.
Hypothesis undo_do_move : forall (p : Position) (m : Move),
  undo_move (do_move p m) m = p.

Lemma undo_line (tail acc : list Move) (pos : Position) :
  fold_left undo_move (rev tail ++ acc)%list (fold_left do_move tail pos)
  = fold_left undo_move acc pos.
Proof.
  revert pos acc. induction tail as [|m tail IH]; intros pos acc.
  - reflexivity.
  - cbn [rev fold_left]. rewrite <- app_assoc. cbn [app].
    rewrite IH. cbn [fold_left]. rewrite undo_do_move. reflexivity.
Qed.

(** X9.  When [undo_move] takes back what [do_move] did,
    [extract_pv_from_tt] hands the position back as it got it. *)
Theorem extract_pv_from_tt_restores (rm : RootMove)
  (tbl : TranspositionTable) (pos : Position) :
  snd (extract_pv_from_tt rm tbl pos) = pos.
Proof.
  unfold extract_pv_from_tt.
  destruct (extract_pv_loop_tail tbl (Z.to_nat PLY_MAX)
              (do_move pos (pv0 rm)) 1 [pv0 rm])
    as (tail & Hacc & Hpos & _ & _).
  destruct (extract_pv_loop (Z.to_nat PLY_MAX) tbl (do_move pos (pv0 rm)) 1
              [pv0 rm]) as [pos' acc].
  cbn [fst snd] in *. subst acc pos'.
  rewrite undo_line. cbn [fold_left]. apply undo_do_move.
Qed.

Lemma insert_pv_loop_cons (move next : Move) (rest : list Move)
  (tbl : TranspositionTable) (pos : Position) (m : Value)
  (made : list Move) :
  insert_pv_loop (move :: next :: rest) tbl pos m made
  = if negb (next =? MOVE_NONE)
    then insert_pv_loop (next :: rest)
           (fst (insert_pv_store tbl pos m move)) (do_move pos move)
           (snd (insert_pv_store tbl pos m move)) (move :: made)
    else Some (fst (insert_pv_store tbl pos m move), do_move pos move,
               move :: made).
Proof.
  change (insert_pv_loop (move :: next :: rest) tbl pos m made)
    with (let '(tbl1, m1) := insert_pv_store tbl pos m move in
          if negb (next =? MOVE_NONE)
          then insert_pv_loop (next :: rest) tbl1 (do_move pos move) m1
                 (move :: made)
          else Some (tbl1, do_move pos move, move :: made)).
  destruct (insert_pv_store tbl pos m move). reflexivity.
Qed.

Lemma insert_pv_loop_line (line junk : list Move) :
  Forall (fun x => x <> MOVE_NONE) line ->
  forall (m0 : Move) (tbl : TranspositionTable) (pos : Position) (m : Value)
    (made : list Move),
  exists (tbl' : TranspositionTable),
    insert_pv_loop (m0 :: line ++ MOVE_NONE :: junk)%list tbl pos m made
    = Some (tbl', fold_left do_move (m0 :: line) pos,
            (rev (m0 :: line) ++ made)%list).
Proof.
  intros Hline. induction Hline as [|x line Hx Hline IH];
    intros m0 tbl pos m made; cbn [app]; rewrite insert_pv_loop_cons.
  - rewrite Z.eqb_refl. cbn [negb]. eexists. reflexivity.
  - replace (x =? MOVE_NONE) with false
      by (symmetry; apply Z.eqb_neq; exact Hx).
    cbn [negb].
    destruct (IH x (fst (insert_pv_store tbl pos m m0)) (do_move pos m0)
                (snd (insert_pv_store tbl pos m m0)) (m0 :: made))
      as (tbl' & Hrun).
    rewrite Hrun. exists tbl'.
    cbn [fold_left rev]. rewrite <- !app_assoc. reflexivity.
Qed.

(** X10.  When [undo_move] takes back what [do_move] did, [insert_pv_in_tt]
    on a line that ends in [MOVE_NONE] completes and hands the position
    back as it got it. *)
Theorem insert_pv_in_tt_restores (rm : RootMove) (tbl : TranspositionTable)
  (pos : Position) (m0 : Move) (line junk : list Move) :
  pv rm = (m0 :: line ++ MOVE_NONE :: junk)%list ->
  Forall (fun x => x <> MOVE_NONE) line ->
  exists tbl' : TranspositionTable,
    insert_pv_in_tt rm tbl pos = Some (tbl', pos).
Proof.
  intros Hpv Hline. unfold insert_pv_in_tt. rewrite Hpv.
  destruct (insert_pv_loop_line line junk Hline m0 tbl pos VALUE_NONE [])
    as (tbl' & Hrun).
  rewrite Hrun. exists tbl'. rewrite undo_line. reflexivity.
Qed.

End Undo.

Lemma insert_pv_loop_keeps (line junk : list Move) :
  Forall (fun x => x <> MOVE_NONE) line ->
  forall (m0 : Move) (tbl : TranspositionTable) (pos : Position) (m : Value)
    (made : list Move),
  Forall
    (fun pm : Position * Move =>
       exists e, tt_probe tbl (get_key (fst pm)) = Some e
                 /\ tte_move (tt_entry tbl e) = snd pm)
    (pv_positions pos (m0 :: line)) ->
  exists (pos' : Position) (made' : list Move),
    insert_pv_loop (m0 :: line ++ MOVE_NONE :: junk)%list tbl pos m made
    = Some (tbl, pos', made').
Proof.
  intros Hline. induction Hline as [|x line Hx Hline IH];
    intros m0 tbl pos m made Hright;
    inversion Hright as [|pm rest [e [Hprobe Hmove]] Hrest]; subst;
    cbn [fst snd] in *; cbn [app]; rewrite insert_pv_loop_cons;
    unfold insert_pv_store; rewrite Hprobe, Hmove, Z.eqb_refl;
    cbn [negb fst snd].
  - rewrite Z.eqb_refl. cbn [negb]. eexists _, _. reflexivity.
  - replace (x =? MOVE_NONE) with false
      by (symmetry; apply Z.eqb_neq; exact Hx).
    cbn [negb].
    destruct (IH x tbl (do_move pos m0) m (m0 :: made) Hrest)
      as (pos' & made' & Hrun).
    cbn [app] in Hrun. rewrite Hrun. eexists _, _. reflexivity.
Qed.

(** X11.  [insert_pv_in_tt] does not overwrite correct entries: when the
    table already has the line's move for every position along the line,
    the table is left as it is. *)
Theorem insert_pv_in_tt_keeps (rm : RootMove) (tbl : TranspositionTable)
  (pos : Position) (m0 : Move) (line junk : list Move) :
  pv rm = (m0 :: line ++ MOVE_NONE :: junk)%list ->
  Forall (fun x => x <> MOVE_NONE) line ->
  Forall
    (fun pm : Position * Move =>
       exists e, tt_probe tbl (get_key (fst pm)) = Some e
                 /\ tte_move (tt_entry tbl e) = snd pm)
    (pv_positions pos (m0 :: line)) ->
  option_map fst (insert_pv_in_tt rm tbl pos) = Some tbl.
Proof.
  intros Hpv Hline Hright. unfold insert_pv_in_tt. rewrite Hpv.
  destruct (insert_pv_loop_keeps line junk Hline m0 tbl pos VALUE_NONE []
              Hright) as (pos' & made' & Hrun).
  rewrite Hrun. reflexivity.
Qed.

Lemma extract_pv_loop_enough (tbl : TranspositionTable) (fuel : nat) :
  forall (fuel' : nat) (pos : Position) (ply : Z) (acc : list Move),
  PLY_MAX - ply <= Z.of_nat fuel -> (fuel <= fuel')%nat ->
  extract_pv_loop fuel' tbl pos ply acc = extract_pv_loop fuel tbl pos ply acc.
Proof.
  induction fuel as [|fuel IH]; intros fuel' pos ply acc Hply Hle.
  - destruct fuel' as [|fuel']; [reflexivity|].
    cbn [extract_pv_loop].
    destruct (tt_probe tbl (get_key pos)) as [e|]; [|reflexivity].
    replace (ply <? PLY_MAX) with false by (symmetry; apply Z.ltb_ge; lia).
    rewrite andb_false_r. reflexivity.
  - destruct fuel' as [|fuel']; [lia|].
    cbn [extract_pv_loop].
    destruct (tt_probe tbl (get_key pos)) as [e|]; [|reflexivity].
    match goal with
    | |- context [if ?c then _ else _] => destruct c
    end; [|reflexivity].
    apply IH; lia.
Qed.

End RootMoveFacts.

(** ** perft() *)

Section PerftFacts.
Context {types : Types} {position : PositionOps} {movegen : MoveGenOps}.
Hypothesis ply_positive : 0 < ONE_PLY.
Hypothesis undo_do_move_ci :
  forall (p : Position) (m : Move) (ci : CheckInfo) (c : bool),
    undo_move (do_move_ci p m ci c) m = p.

Lemma perft_moves_sum
  (perft_rec : Position -> Depth -> option (Z * Position)) (depth : Depth)
  (count : Position -> Z) (ci : CheckInfo) :
  (forall p, perft_rec p (depth - ONE_PLY) = Some (count p, p)) ->
  forall (ml : list Move) (pos : Position) (sum : Z),
  perft_moves perft_rec ci depth ml pos sum
  = Some (sum + fold_right Z.add 0
                  (map (fun m => count (do_move_ci pos m ci
                                          (move_gives_check pos m ci))) ml),
          pos).
Proof.
  intros Hrec. induction ml as [|m ml IH]; intros pos sum.
  - cbn. rewrite Z.add_0_r. reflexivity.
  - cbn [perft_moves map fold_right]. rewrite Hrec, undo_do_move_ci, IH.
    f_equal. f_equal. lia.
Qed.

Lemma perft_plies_last (depth : Depth) :
  depth <= ONE_PLY -> perft_plies depth = 1%nat.
Proof.
  intros Hd. unfold perft_plies.
  assert ((depth + ONE_PLY - 1) / ONE_PLY <= 1).
  { apply Z.lt_succ_r. apply Z.div_lt_upper_bound; lia. }
  lia.
Qed.

Lemma perft_plies_step (depth : Depth) :
  ONE_PLY < depth -> perft_plies depth = S (perft_plies (depth - ONE_PLY)).
Proof.
  intros Hd. unfold perft_plies.
  replace (depth + ONE_PLY - 1) with ((depth - ONE_PLY + ONE_PLY - 1) + 1 * ONE_PLY) by lia.
  rewrite Z.div_add by lia.
  assert (0 <= (depth - ONE_PLY + ONE_PLY - 1) / ONE_PLY)
    by (apply Z.div_pos; lia).
  assert (1 <= (depth - ONE_PLY + ONE_PLY - 1) / ONE_PLY).
  { apply Z.div_le_lower_bound; lia. }
  lia.
Qed.

Lemma length_flat_map_sum {A B : Type} (f : A -> list B) (l : list A) :
  Z.of_nat (List.length (flat_map f l))
  = fold_right Z.add 0 (map (fun a => Z.of_nat (List.length (f a))) l).
Proof.
  induction l as [|a l IH]; [reflexivity|].
  cbn [flat_map map fold_right]. rewrite length_app, Nat2Z.inj_add, IH.
  reflexivity.
Qed.

(** X12.  For a positive [ONE_PLY] and an [undo_move] that takes back what
    [do_move] did, [perft] returns the number of sequences of legal moves
    of length [max 1 (ceil (depth / ONE_PLY))] from the position, and
    leaves the position as it was. *)
Theorem perft_counts_lines (fuel : nat) :
  forall (pos : Position) (depth : Depth),
  (perft_plies depth <= fuel)%nat ->
  perft fuel pos depth
  = Some (Z.of_nat (List.length (legal_lines (perft_plies depth) pos)), pos).
Proof.
  induction fuel as [|fuel IH]; intros pos depth Hfuel.
  - unfold perft_plies in Hfuel. lia.
  - cbn [perft]. destruct (depth <=? ONE_PLY) eqn:Hlast.
    + apply Z.leb_le in Hlast. rewrite (perft_plies_last depth Hlast).
      cbn [legal_lines]. do 3 f_equal.
      induction (legal_moves pos) as [|m ml IHml]; [reflexivity|].
      cbn. rewrite IHml. reflexivity.
    + apply Z.leb_gt in Hlast.
      rewrite (perft_plies_step depth Hlast) in *.
      rewrite (perft_moves_sum (perft fuel) depth
                 (fun p => Z.of_nat (List.length
                                       (legal_lines
                                          (perft_plies (depth - ONE_PLY)) p))))
        by (intros p; apply IH; lia).
      cbn [legal_lines]. rewrite length_flat_map_sum. cbn [Z.add].
      do 3 f_equal. apply map_ext. intros m. rewrite length_map.
      reflexivity.
Qed.

End PerftFacts.

(** ** Polling and the re-search window *)

Section PollFacts.
Context {position : PositionOps}.

Lemma poll_input_cases (w : PollWorld) (c : TimeControl) :
  match poll_input w c with
  | inr c' =>
    tc_StopRequest c' = true /\ tc_QuitRequest c' = true
    /\ ponder (tc_Limits c') = false
    /\ tc_lastInfoTime c' = tc_lastInfoTime c
  | inl c' =>
    (tc_StopRequest c = true -> tc_StopRequest c' = true)
    /\ tc_QuitRequest c' = tc_QuitRequest c
    /\ (ponder (tc_Limits c') = true -> ponder (tc_Limits c) = true)
  end.
Proof.
  unfold poll_input. destruct (pending_input w) as [| |command].
  - repeat split; auto.
  - repeat split.
  - destruct (String.eqb command "quit"); [repeat split | idtac].
    destruct (String.eqb command "stop");
      [repeat split; discriminate | idtac].
    destruct (String.eqb command "ponderhit"); [idtac | repeat split; auto].
    destruct (tc_StopOnPonderhit (tc_set_ponder false c)); cbn;
      repeat split; auto; discriminate.
Qed.

(** X13.  [poll] never clears [StopRequest] or [QuitRequest] and never
    switches pondering on; when it sets [QuitRequest] it sets
    [StopRequest] as well. *)
Theorem poll_never_resumes (w : PollWorld) (pos : Position)
  (c : TimeControl) :
  let c' := poll_body w pos c in
  (tc_StopRequest c = true -> tc_StopRequest c' = true)
  /\ (tc_QuitRequest c = true -> tc_QuitRequest c' = true)
  /\ (ponder (tc_Limits c') = true -> ponder (tc_Limits c) = true)
  /\ (tc_QuitRequest c' = true ->
      tc_QuitRequest c = true \/ tc_StopRequest c' = true).
Proof.
  unfold poll_body. pose proof (poll_input_cases w c) as Hin.
  destruct (poll_input w c) as [c1 | c1].
  - destruct Hin as (Hstop & Hquit & Hponder).
    set (c2 := if current_search_time w <? 1000 then _ else _).
    assert (H2 : tc_StopRequest c2 = tc_StopRequest c1
                 /\ tc_QuitRequest c2 = tc_QuitRequest c1
                 /\ tc_Limits c2 = tc_Limits c1).
    { subst c2. repeat match goal with
      | |- context [if ?b then _ else _] => destruct b
      end; repeat split. }
    destruct H2 as (Hs2 & Hq2 & Hl2).
    destruct (ponder (tc_Limits c2)) eqn:Hp.
    + rewrite Hs2, Hq2, Hp. rewrite Hl2 in Hp.
      repeat split; auto; try congruence. intros Hq. left. congruence.
    + match goal with
      | |- context [if ?b then _ else _] => destruct b
      end; cbn; rewrite ?Hs2, ?Hq2, ?Hl2; rewrite Hl2 in Hp; rewrite ?Hp;
        repeat split; auto; try discriminate; try congruence;
        intros Hq; left; congruence.
  - destruct Hin as (Hstop & Hquit & Hponder & _). cbv zeta.
    rewrite Hstop, Hquit, Hponder.
    repeat split; auto; discriminate.
Qed.

(** X14.  While pondering, with no input or with a command other than quit,
    stop and ponderhit, [poll] leaves [StopRequest], [QuitRequest] and the
    limits as they are, whatever the clock says. *)
Theorem poll_pondering (w : PollWorld) (pos : Position) (c : TimeControl) :
  quiet_input (pending_input w) ->
  ponder (tc_Limits c) = true ->
  let c' := poll_body w pos c in
  tc_StopRequest c' = tc_StopRequest c
  /\ tc_QuitRequest c' = tc_QuitRequest c
  /\ tc_Limits c' = tc_Limits c.
Proof.
  intros Hquiet Hponder. unfold poll_body.
  assert (Hin : poll_input w c = inl c).
  { unfold poll_input. destruct (pending_input w) as [| |command]; cbn in Hquiet.
    - reflexivity.
    - contradiction.
    - destruct Hquiet as (Hq & Hs & Hp).
      apply String.eqb_neq in Hq, Hs, Hp. rewrite Hq, Hs, Hp. reflexivity. }
  rewrite Hin.
  set (c2 := if current_search_time w <? 1000 then _ else _).
  assert (H2 : tc_StopRequest c2 = tc_StopRequest c
               /\ tc_QuitRequest c2 = tc_QuitRequest c
               /\ tc_Limits c2 = tc_Limits c).
  { subst c2. repeat match goal with
    | |- context [if ?b then _ else _] => destruct b
    end; repeat split. }
  destruct H2 as (Hs2 & Hq2 & Hl2).
  rewrite Hl2, Hponder. cbv zeta. auto.
Qed.

(** X15.  On ponderhit [poll] switches pondering off; the search is stopped
    at once when [StopOnPonderhit] is set, and also when time management
    is in use and the maximum time has run out. *)
Theorem poll_ponderhit (w : PollWorld) (pos : Position) (c : TimeControl) :
  pending_input w = InputLine "ponderhit" ->
  let c' := poll_body w pos c in
  ponder (tc_Limits c') = false
  /\ (tc_StopOnPonderhit c = true -> tc_StopRequest c' = true)
  /\ (useTimeManagement w (set_ponder false (tc_Limits c)) = true ->
      current_search_time w > maximum_time w ->
      tc_StopRequest c' = true).
Proof.
  intros Hin. unfold poll_body, poll_input. rewrite Hin. cbn [String.eqb Ascii.eqb Bool.eqb andb].
  cbv zeta.
  set (c1 := if tc_StopOnPonderhit (tc_set_ponder false c) then _ else _).
  set (c2 := if current_search_time w <? 1000 then _ else _).
  assert (H1 : tc_Limits c1 = set_ponder false (tc_Limits c)
               /\ (tc_StopOnPonderhit c = true -> tc_StopRequest c1 = true)).
  { subst c1. cbn [tc_StopOnPonderhit tc_set_ponder].
    destruct (tc_StopOnPonderhit c); cbn; split; auto; discriminate. }
  destruct H1 as (Hl1 & Hs1).
  assert (H2 : tc_StopRequest c2 = tc_StopRequest c1
               /\ tc_Limits c2 = tc_Limits c1).
  { subst c2. repeat match goal with
    | |- context [if ?b then _ else _] => destruct b
    end; repeat split. }
  destruct H2 as (Hs2 & Hl2).
  rewrite Hl2, Hl1. cbn [ponder set_ponder maxTime maxNodes].
  split; [|split].
  - match goal with
    | |- context [if ?b then _ else _] => destruct b
    end; cbn; rewrite Hl2, Hl1; reflexivity.
  - intros Hso.
    match goal with
    | |- context [if ?b then _ else _] => destruct b
    end; cbn; [reflexivity | rewrite Hs2; auto].
  - intros Htm Hlate. rewrite Htm.
    replace (current_search_time w >? maximum_time w) with true
      by (symmetry; apply Z.gtb_lt; lia).
    reflexivity.
Qed.

End PollFacts.

Lemma wait_for_command_find (lines : list string) :
  let stop_word := fun command =>
    String.eqb command "ponderhit" || String.eqb command "stop"
    || String.eqb command "quit" in
  match find stop_word lines with
  | Some command =>
    exists before after,
      lines = (before ++ command :: after)%list
      /\ wait_for_command lines = (command, after)
  | None => wait_for_command lines = (EmptyString, [])
  end.
Proof.
  intros stop_word. induction lines as [|l lines IH]; [reflexivity|].
  cbn [find wait_for_command]. unfold stop_word at 1.
  destruct (String.eqb l "ponderhit"); cbn [negb andb orb];
    [exists [], lines; split; reflexivity|].
  destruct (String.eqb l "stop"); cbn [negb andb orb];
    [exists [], lines; split; reflexivity|].
  destruct (String.eqb l "quit"); cbn [negb andb orb];
    [exists [], lines; split; reflexivity|].
  destruct (find stop_word lines) as [command|].
  - destruct IH as (before & after & -> & Hrun).
    exists (l :: before), after. split; [reflexivity | exact Hrun].
  - exact IH.
Qed.

(** X16.  [wait_for_stop_or_ponderhit] skips every line up to the first
    ponderhit, stop or quit.  [StopRequest] is left alone; [QuitRequest]
    is set when that line is quit or when the input ends before such a
    line, and is left as it was on ponderhit and on stop. *)
Theorem wait_for_stop_or_ponderhit_quits (lines : list string)
  (c : TimeControl) :
  let stop_word := fun command =>
    String.eqb command "ponderhit" || String.eqb command "stop"
    || String.eqb command "quit" in
  let c' := fst (wait_for_stop_or_ponderhit lines c) in
  tc_StopRequest c' = tc_StopRequest c
  /\ tc_QuitRequest c'
     = match find stop_word lines with
       | Some command => tc_QuitRequest c || String.eqb command "quit"
       | None => true
       end.
Proof.
  intros stop_word c'. subst c'. unfold wait_for_stop_or_ponderhit.
  pose proof (wait_for_command_find lines) as Hfind. cbv zeta in Hfind.
  fold stop_word in Hfind.
  destruct (find stop_word lines) as [command|] eqn:Hf.
  - destruct Hfind as (before & after & _ & Hrun). rewrite Hrun.
    apply find_some in Hf. destruct Hf as [_ Hword]. unfold stop_word in Hword.
    cbn [fst].
    destruct (String.eqb command "ponderhit") eqn:Hp; cbn [negb andb].
    + apply String.eqb_eq in Hp. subst command. cbn.
      rewrite orb_false_r. split; reflexivity.
    + destruct (String.eqb command "stop") eqn:Hs; cbn [negb andb].
      * apply String.eqb_eq in Hs. subst command. cbn.
        rewrite orb_false_r. split; reflexivity.
      * cbn [orb] in Hword. rewrite Hword. cbn. rewrite orb_true_r.
        split; reflexivity.
  - rewrite Hfind. cbn. split; reflexivity.
Qed.

Section IdLoopWidenFacts.
Context `{Types}.

(** X17.  The aspiration loop of [id_loop] after a root search, for a
    window inside [-VALUE_INFINITE, VALUE_INFINITE] and a non-negative
    delta.  The loop goes round again exactly when no stop is requested,
    the value is not strictly inside the window and [|value|] is below
    [VALUE_KNOWN_WIN].  On a stop, and for a value strictly inside the
    window, nothing is changed.  Otherwise, on a fail high only [beta]
    moves, to [min (beta + delta) VALUE_INFINITE]; on a fail low only
    [alpha] moves, to [max (alpha - delta) (-VALUE_INFINITE)],
    [AspirationFailLow] is set and [StopOnPonderhit] cleared; in both
    cases the delta grows by its half, also when the loop is then left
    for a value beyond [VALUE_KNOWN_WIN]. *)
Theorem id_loop_research_window (value alpha beta : Value) (delta : Z)
  (c : TimeControl) :
  0 <= delta ->
  - VALUE_INFINITE <= alpha -> beta <= VALUE_INFINITE ->
  match id_loop_research value alpha beta delta c with
  | (again, (alpha', beta', delta', c')) =>
    (again = true <->
     tc_StopRequest c = false
     /\ ~ alpha < value < beta
     /\ Z.abs value < VALUE_KNOWN_WIN)
    /\ - VALUE_INFINITE <= alpha' <= alpha
    /\ beta <= beta' <= VALUE_INFINITE
    /\ delta <= delta'
    /\ (tc_StopRequest c = true \/ alpha < value < beta ->
        (alpha', beta', delta', c') = (alpha, beta, delta, c))
    /\ (tc_StopRequest c = false -> value >= beta ->
        alpha' = alpha /\ beta' = Z.min (beta + delta) VALUE_INFINITE
        /\ delta' = delta + Z.quot delta 2 /\ c' = c)
    /\ (tc_StopRequest c = false -> value < beta -> value <= alpha ->
        alpha' = Z.max (alpha - delta) (- VALUE_INFINITE) /\ beta' = beta
        /\ delta' = delta + Z.quot delta 2
        /\ tc_AspirationFailLow c' = true
        /\ tc_StopOnPonderhit c' = false
        /\ tc_StopRequest c' = false)
  end.
Proof.
  intros Hd Ha Hb. unfold id_loop_research, id_loop_widen.
  assert (Hq : 0 <= Z.quot delta 2) by (apply Z.quot_pos; lia).
  destruct (tc_StopRequest c) eqn:Hstop;
    [|destruct (value >=? beta) eqn:Hhigh;
      [apply Z.geb_le in Hhigh
      |rewrite Z.geb_leb in Hhigh; apply Z.leb_gt in Hhigh;
       destruct (value <=? alpha) eqn:Hlow;
       [apply Z.leb_le in Hlow | apply Z.leb_gt in Hlow]]];
    repeat split; intros;
    repeat match goal with
    | H : _ /\ _ |- _ => destruct H
    | H : _ \/ _ |- _ => destruct H
    | H : (_ <? _) = true |- _ => apply Z.ltb_lt in H
    | |- (_ <? _) = true => apply Z.ltb_lt
    end;
    try discriminate; try reflexivity; try lia; try (cbn; exact Hstop).
Qed.

End IdLoopWidenFacts.

(** ** Output formatting and skill level *)

Lemma setw_two_digits (n : Z) :
  0 <= n < 60 -> setw 2 "0" (string_of_Z n) = two_digits n.
Proof.
  intros Hn.
  assert (Hall :
    forallb (fun k => String.eqb (setw 2 "0" (string_of_Z (Z.of_nat k)))
                        (two_digits (Z.of_nat k))) (seq 0 60) = true)
    by (vm_compute; reflexivity).
  rewrite forallb_forall in Hall.
  specialize (Hall (Z.to_nat n)).
  rewrite Z2Nat.id in Hall by lia.
  apply String.eqb_eq. apply Hall. apply in_seq. lia.
Qed.

(** X18.  For a non-negative number of milliseconds [time_to_string] prints
    minutes and seconds with two digits each, and the hours in front only
    from one hour on. *)
Theorem time_to_string_clock (millisecs : Z) :
  0 <= millisecs ->
  time_to_string millisecs
  = String.append
      (if millisecs <? 3600000 then EmptyString
       else String.append (string_of_Z (millisecs / 3600000)) ":")
      (String.append (two_digits ((millisecs / 60000) mod 60))
         (String.append ":" (two_digits ((millisecs / 1000) mod 60)))).
Proof.
  intros Hms. unfold time_to_string. cbv zeta.
  change (1000 * 60 * 60) with 3600000. change (1000 * 60) with 60000.
  assert (Hh : 0 <= millisecs mod 3600000 < 3600000)
    by (apply Z.mod_pos_bound; lia).
  assert (Hm : 0 <= (millisecs mod 3600000) mod 60000 < 60000)
    by (apply Z.mod_pos_bound; lia).
  rewrite (Z.rem_mod_nonneg millisecs 3600000) by lia.
  rewrite (Z.rem_mod_nonneg (millisecs mod 3600000) 60000) by lia.
  rewrite !Z.quot_div_nonneg by lia.
  assert (Hmin : (millisecs mod 3600000) / 60000 = (millisecs / 60000) mod 60).
  { change 3600000 with (60000 * 60).
    rewrite Z.rem_mul_r by lia.
    rewrite (Z.mul_comm 60000), Z.div_add by lia.
    rewrite (Z.div_small (millisecs mod 60000)) by (apply Z.mod_pos_bound; lia).
    reflexivity. }
  assert (Hsec : ((millisecs mod 3600000) mod 60000) / 1000
                 = (millisecs / 1000) mod 60).
  { assert (Hmm : (millisecs mod 3600000) mod 60000 = millisecs mod 60000).
    { change 3600000 with (60000 * 60).
      rewrite Z.rem_mul_r by lia.
      rewrite (Z.mul_comm 60000 (_ mod 60)), Z.mod_add by lia.
      apply Z.mod_mod. lia. }
    rewrite Hmm. change 60000 with (1000 * 60).
    rewrite Z.rem_mul_r by lia.
    rewrite (Z.mul_comm 1000), Z.div_add by lia.
    rewrite (Z.div_small (millisecs mod 1000)) by (apply Z.mod_pos_bound; lia).
    reflexivity. }
  rewrite Hmin, Hsec.
  rewrite !setw_two_digits by (apply Z.mod_pos_bound; lia).
  f_equal. unfold truthy.
  destruct (millisecs <? 3600000) eqn:Hhour.
  - apply Z.ltb_lt in Hhour. rewrite Z.div_small by lia. reflexivity.
  - apply Z.ltb_ge in Hhour.
    assert (1 <= millisecs / 3600000) by (apply Z.div_le_lower_bound; lia).
    replace (millisecs / 3600000 =? 0) with false
      by (symmetry; apply Z.eqb_neq; lia).
    reflexivity.
Qed.

Section ScoreToUciFacts.
Context `{Types}.

(** X19.  With [PLY_MAX * ONE_PLY] below [VALUE_MATE], [score_to_uci]
    prints a mate in [p] plies, [p] from 0 to [PLY_MAX * ONE_PLY], as mate
    in [(p + 1) / 2] moves, and being mated in [p] plies as mate in
    [- (p / 2)], when the score is strictly inside the window (no bound is
    printed then). *)
Theorem score_to_uci_mate (p : Z) (alpha beta : Value) :
  0 <= p <= PLY_MAX * ONE_PLY ->
  PLY_MAX * ONE_PLY < VALUE_MATE ->
  (alpha < VALUE_MATE - p < beta ->
   score_to_uci (VALUE_MATE - p) alpha beta
   = String.append " score mate " (string_of_Z ((p + 1) / 2)))
  /\ (alpha < - VALUE_MATE + p < beta ->
      score_to_uci (- VALUE_MATE + p) alpha beta
      = String.append " score mate " (string_of_Z (- (p / 2)))).
Proof.
  intros Hp Hmate. unfold score_to_uci. split; intros Hwin.
  - replace (Z.abs (VALUE_MATE - p) <? VALUE_MATE - PLY_MAX * ONE_PLY)
      with false by (symmetry; apply Z.ltb_ge; lia).
    replace (VALUE_MATE - p >? 0) with true
      by (symmetry; apply Z.gtb_lt; lia).
    replace (VALUE_MATE - p >=? beta) with false
      by (symmetry; rewrite Z.geb_leb; apply Z.leb_gt; lia).
    replace (VALUE_MATE - p <=? alpha) with false
      by (symmetry; apply Z.leb_gt; lia).
    rewrite string_append_empty.
    replace (VALUE_MATE - (VALUE_MATE - p) + 1) with (p + 1) by lia.
    rewrite Z.quot_div_nonneg by lia. reflexivity.
  - replace (Z.abs (- VALUE_MATE + p) <? VALUE_MATE - PLY_MAX * ONE_PLY)
      with false by (symmetry; apply Z.ltb_ge; lia).
    replace (- VALUE_MATE + p >? 0) with false
      by (symmetry; rewrite Z.gtb_ltb; apply Z.ltb_ge; lia).
    replace (- VALUE_MATE + p >=? beta) with false
      by (symmetry; rewrite Z.geb_leb; apply Z.leb_gt; lia).
    replace (- VALUE_MATE + p <=? alpha) with false
      by (symmetry; apply Z.leb_gt; lia).
    rewrite string_append_empty.
    replace (- VALUE_MATE - (- VALUE_MATE + p)) with (- p) by lia.
    rewrite Z.quot_opp_l by lia.
    rewrite Z.quot_div_nonneg by lia. reflexivity.
Qed.

End ScoreToUciFacts.

Section SkillLevelFacts.
Context `{Types}.

Lemma do_skill_level_loop_choice (Rml : list RootMove) (max var wk : Z)
  (rands : nat -> Z) (best0 ponder0 : Move) (n : nat) :
  forall (i : Z) (k : nat) (max_s : Z) (best ponder : Move),
  0 <= i ->
  no_blunder_before Rml (i - 1) ->
  ((best, ponder) = (best0, ponder0)
   \/ exists c, 0 <= c < i /\ no_blunder_before Rml c
        /\ best = pv0 (nth (Z.to_nat c) Rml blank_root_move)
        /\ ponder = pv1 (nth (Z.to_nat c) Rml blank_root_move)) ->
  let r := do_skill_level_loop n i Rml max var wk rands k max_s best ponder in
  (fst (fst r), snd (fst r)) = (best0, ponder0)
  \/ exists c, 0 <= c < i + Z.of_nat n /\ no_blunder_before Rml c
       /\ fst (fst r) = pv0 (nth (Z.to_nat c) Rml blank_root_move)
       /\ snd (fst r) = pv1 (nth (Z.to_nat c) Rml blank_root_move).
Proof.
  induction n as [|n IH]; intros i k max_s best ponder Hi Hgood Hsofar.
  - cbn. destruct Hsofar as [Hsame | (c & Hc & Hcg & Hb & Hp)];
      [left; exact Hsame | right; exists c; repeat split; try lia; assumption].
  - cbn [do_skill_level_loop].
    destruct ((i >? 0)
              && (score (nth (Z.to_nat (i - 1)) Rml blank_root_move)
                    >? score (nth (Z.to_nat i) Rml blank_root_move)
                       + EasyMoveMargin)) eqn:Hbreak.
    + cbn. destruct Hsofar as [Hsame | (c & Hc & Hcg & Hb & Hp)];
        [left; exact Hsame
        | right; exists c; repeat split; try lia; assumption].
    + assert (Hgood' : no_blunder_before Rml (i + 1 - 1)).
      { replace (i + 1 - 1) with i by lia. intros j Hj.
        destruct (Z.eq_dec j i) as [-> | Hne]; [|apply Hgood; lia].
        apply andb_false_iff in Hbreak. destruct Hbreak as [Hc | Hc].
        - rewrite Z.gtb_ltb in Hc. apply Z.ltb_ge in Hc. lia.
        - rewrite Z.gtb_ltb in Hc. apply Z.ltb_ge in Hc. lia. }
      replace (i + Z.of_nat (S n)) with (i + 1 + Z.of_nat n) by lia.
      match goal with
      | |- context [if ?c then _ else _] => destruct c
      end.
      * apply IH; [lia | exact Hgood' |].
        right. exists i. replace (i + 1 - 1) with i in Hgood' by lia.
        repeat split; try lia; assumption.
      * apply IH; [lia | exact Hgood' |].
        destruct Hsofar as [Hsame | (c & Hc & Hcg & Hb & Hp)];
          [left; exact Hsame
          | right; exists c; repeat split; try lia; assumption].
Qed.

(** X20.  Whatever the random numbers are, [do_skill_level] either leaves
    [best] and [ponder] as they are or sets them to the first two moves of
    one of the first [min MultiPV size] root moves, up to which no root
    move falls more than [EasyMoveMargin] below its predecessor. *)
Theorem do_skill_level_no_blunder (MultiPV SkillLevel : Z)
  (Rml : list RootMove) (now : Z) (rands : nat -> Z) (k : nat)
  (best ponder best' ponder' : Move) (k' : nat) :
  do_skill_level MultiPV SkillLevel Rml now rands k best ponder
    = Some (best', ponder', k') ->
  (best', ponder') = (best, ponder)
  \/ exists c,
       0 <= c < Z.min MultiPV (Z.of_nat (List.length Rml))
       /\ no_blunder_before Rml c
       /\ best' = pv0 (nth (Z.to_nat c) Rml blank_root_move)
       /\ ponder' = pv1 (nth (Z.to_nat c) Rml blank_root_move).
Proof.
  unfold do_skill_level. cbv zeta.
  destruct (Z.min MultiPV (Z.of_nat (List.length Rml)) <=? 0) eqn:Hsize;
    [discriminate|].
  apply Z.leb_gt in Hsize. intros Hrun. inversion Hrun as [Hr]. clear Hrun.
  match type of Hr with
  | do_skill_level_loop ?n ?i ?l ?mx ?vr ?w ?rs ?kk ?ms ?b ?p = _ =>
      pose proof (do_skill_level_loop_choice l mx vr w rs b p n i kk ms b p)
        as Hloop
  end.
  cbv zeta in Hloop. rewrite Hr in Hloop. cbn [fst snd] in Hloop.
  rewrite Z2Nat.id in Hloop by lia.
  apply Hloop; [lia | intros j Hj; lia | left; reflexivity].
Qed.

End SkillLevelFacts.

(** ** The position across a search *)

Section PosStepFacts.
Context {position : PositionOps} {table : TableOps} {history : HistoryOps}
  {picker : MovePickerOps} {threads : ThreadsOps} {World : Type}.

Lemma pos_step_ret {A : Type} (p0 p : Position) (a : A) :
  pos_step p0 p (ret (World:=World) a) p.
Proof. intros s Hs. exact Hs. Qed.

Lemma pos_step_return {A : Type} (p0 q : Position) (v : Value) :
  pos_step p0 p0 (return_ (World:=World) (A:=A) v) q.
Proof. intros s Hs. exact Hs. Qed.

Lemma pos_step_out_of_fuel {A : Type} (p0 p q : Position) :
  pos_step p0 p (@out_of_fuel _ _ _ _ _ World A) q.
Proof. intros s Hs. exact I. Qed.

Lemma pos_step_modify (p0 p q : Position) (f : St World -> St World) :
  (forall s, st_pos s = p -> st_pos (f s) = q) ->
  pos_step p0 p (modify f) q.
Proof. intros Hf s Hs. exact (Hf s Hs). Qed.

Lemma pos_step_call (p0 p : Position) (f : St World -> option Value * St World) :
  (forall s v s', f s = (Some v, s') -> st_pos s' = st_pos s) ->
  pos_step p0 p (call f) p.
Proof.
  intros Hf s Hs. unfold call.
  destruct (f s) as [[v|] s'] eqn:Hrun; cbn; [|exact I].
  rewrite (Hf s v s' Hrun). exact Hs.
Qed.

Lemma pos_step_bind {A B : Type} (p0 p q r : Position) (m : Exec World A)
  (k : A -> Exec World B) :
  pos_step p0 p m q ->
  (forall a, pos_step p0 q (k a) r) ->
  pos_step p0 p (bind m k) r.
Proof.
  intros Hm Hk s Hs. specialize (Hm s Hs). unfold bind.
  destruct (m s) as [[a | v |] s1]; cbn in *; [|exact Hm | exact I].
  apply (Hk a s1 Hm).
Qed.

Lemma pos_step_bind_get {B : Type} (p0 p r : Position)
  (k : St World -> Exec World B) :
  (forall s, st_pos s = p -> pos_step p0 p (k s) r) ->
  pos_step p0 p (bind get k) r.
Proof. intros Hk s Hs. exact (Hk s Hs s Hs). Qed.

Lemma pos_step_run (p : Position) (m : Exec World Value) :
  pos_step p p m p ->
  forall s v s', st_pos s = p -> run m s = (Some v, s') -> st_pos s' = p.
Proof.
  intros Hm s v s' Hs Hrun. specialize (Hm s Hs). unfold run in Hrun.
  destruct (m s) as [[a | w |] s1]; cbn in Hm; inversion Hrun; congruence.
Qed.

End PosStepFacts.

Ltac pos_undo :=
  repeat match goal with
  | H : forall p m ci c, undo_move (do_move_ci p m ci c) m = p |- _ =>
      rewrite H
  | H : forall p m, undo_move (do_move p m) m = p |- _ => rewrite H
  | H : forall p, do_null_move false (do_null_move true p) = p |- _ =>
      rewrite H
  end.

Ltac pos_side :=
  let s := fresh "s" in let Hs := fresh "Hs" in
  intros s Hs;
  cbn [st_pos upd_frame upd_pos upd_glob upd_sp];
  rewrite ?Hs; pos_undo; try reflexivity.

Ltac pos_call :=
  let Hrun := fresh "Hrun" in
  intros ? ? ? Hrun;
  match goal with
  | H : keeps_position _ |- _ => exact (H _ _ _ _ _ _ _ _ Hrun)
  end.

Ltac pos_step1 :=
  cbv beta;
  lazymatch goal with
  | |- pos_step _ _ (ret _) _ => apply pos_step_ret
  | |- pos_step _ _ (return_ _) _ => apply pos_step_return
  | |- pos_step _ _ out_of_fuel _ => apply pos_step_out_of_fuel
  | |- pos_step _ _ (bind get _) _ => apply pos_step_bind_get; intros ? ?
  | |- pos_step _ _ (bind _ _) _ => eapply pos_step_bind; [| intros ?]
  | |- pos_step _ _ (modify _) _ => apply pos_step_modify; pos_side
  | |- pos_step _ _ (call _) _ => apply pos_step_call; pos_call
  | |- pos_step _ _ (if ?c then _ else _) _ => destruct c
  | |- pos_step _ _ (match ?x with Some _ => _ | None => _ end) _ =>
      destruct x
  | |- pos_step _ _ (let '(_, _) := ?x in _) _ => destruct x
  end.

Ltac pos_steps := repeat pos_step1.

Section QsearchPosition.
Context {types : Types} {position : PositionOps} {bitboards : BitboardOps}
  {table : TableOps} {history : HistoryOps} {picker : MovePickerOps}
  {threads : ThreadsOps} {tables : SearchTables} {World : Type}
  {engine : EngineOps World}.
Hypothesis undo_do_move_ci :
  forall (p : Position) (m : Move) (ci : CheckInfo) (c : bool),
    undo_move (do_move_ci p m ci c) m = p.

Section Body.
Variable qsearch_rec : SearchFn World.
Hypothesis qsearch_rec_keeps : keeps_position qsearch_rec.
Variable NT : NodeType.
Variable ssi : Z.
Variable depth : Depth.

Lemma qsearch_probe_pos (alpha beta : Value) (p : Position) :
  pos_step (World:=World) p p (qsearch_probe NT ssi depth alpha beta) p.
Proof. unfold qsearch_probe. pos_steps. Qed.

Lemma qsearch_stand_pat_pos (Q : QLocals) (p : Position) :
  pos_step (World:=World) p p (qsearch_stand_pat NT ssi Q) p.
Proof. unfold qsearch_stand_pat. pos_steps. Qed.

Lemma qsearch_move_pos (ci : CheckInfo) (Q : QLocals) (move : Move)
  (p : Position) :
  pos_step p p (qsearch_move qsearch_rec NT ssi depth ci Q move) p.
Proof. unfold qsearch_move. pos_steps. Qed.

Lemma qsearch_moves_pos (fuel : nat) (ci : CheckInfo) (p : Position) :
  forall (mp : MovePicker) (Q : QLocals),
  pos_step p p (qsearch_moves qsearch_rec NT ssi depth fuel ci mp Q) p.
Proof.
  induction fuel as [|fuel IH]; intros mp Q; cbn [qsearch_moves].
  - pos_steps.
  - pos_steps; [apply qsearch_move_pos | apply IH].
Qed.

Lemma qsearch_body_pos (fuel : nat) (alpha beta : Value) (p : Position) :
  pos_step p p (qsearch_body qsearch_rec NT ssi depth fuel alpha beta) p.
Proof.
  unfold qsearch_body, qsearch_from_moves.
  eapply pos_step_bind; [apply qsearch_probe_pos | intros Q].
  eapply pos_step_bind; [apply qsearch_stand_pat_pos | intros Q1].
  apply pos_step_bind_get; intros s Hs.
  eapply pos_step_bind; [apply qsearch_moves_pos | intros Q2].
  pos_steps.
Qed.

End Body.

Lemma qsearch_keeps (fuel n : nat) :
  keeps_position (qsearch (World:=World) fuel n).
Proof.
  induction n as [|n IH]; intros NT ssi alpha beta depth s s' v Hrun.
  - discriminate Hrun.
  - cbn [qsearch] in Hrun.
    exact (pos_step_run (st_pos s) _
             (qsearch_body_pos (qsearch fuel n) IH NT ssi depth fuel alpha
                beta (st_pos s)) s v s' eq_refl Hrun).
Qed.

End QsearchPosition.

Section ExtractUndo.
Context {types : Types} {position : PositionOps} {table : TableOps}.
Hypothesis undo_do_move : forall (p : Position) (m : Move),
  undo_move (do_move p m) m = p.

Lemma extract_pv_loop_undoes (tbl : TranspositionTable) (fuel : nat) :
  forall (pos : Position) (ply : Z) (acc : list Move),
  fold_left undo_move (snd (extract_pv_loop fuel tbl pos ply acc))
    (fst (extract_pv_loop fuel tbl pos ply acc))
  = fold_left undo_move acc pos.
Proof.
  induction fuel as [|fuel IH]; intros pos ply acc; [reflexivity|].
  cbn [extract_pv_loop].
  destruct (tt_probe tbl (get_key pos)) as [e|]; [|reflexivity].
  match goal with
  | |- context [if ?c then _ else _] => destruct c
  end; [|reflexivity].
  rewrite IH. cbn [fold_left]. rewrite undo_do_move. reflexivity.
Qed.

Lemma extract_pv_undoes (rm : RootMove) (tbl : TranspositionTable)
  (pos : Position) :
  snd (extract_pv_from_tt rm tbl pos) = pos.
Proof.
  unfold extract_pv_from_tt.
  pose proof (extract_pv_loop_undoes tbl (Z.to_nat PLY_MAX)
                (do_move pos (pv0 rm)) 1 [pv0 rm]) as Hloop.
  destruct (extract_pv_loop (Z.to_nat PLY_MAX) tbl (do_move pos (pv0 rm)) 1
              [pv0 rm]) as [pos' acc].
  cbn [fst snd fold_left] in *. rewrite Hloop. apply undo_do_move.
Qed.

End ExtractUndo.

Section SearchPosition.
Context {types : Types} {position : PositionOps} {bitboards : BitboardOps}
  {table : TableOps} {history : HistoryOps} {picker : MovePickerOps}
  {threads : ThreadsOps} {tables : SearchTables} {World : Type}
  {engine : EngineOps World}.
Hypothesis undo_do_move_ci :
  forall (p : Position) (m : Move) (ci : CheckInfo) (c : bool),
    undo_move (do_move_ci p m ci c) m = p.
Hypothesis undo_do_move : forall (p : Position) (m : Move),
  undo_move (do_move p m) m = p.
Hypothesis undo_null_move : forall p : Position,
  do_null_move false (do_null_move true p) = p.
Hypothesis split_keeps :
  forall (NT : NodeType) (ssi : Z) (alpha beta bestValue : Value)
    (depth : Depth) (threatMove : Move) (moveCount : Z) (mp : MovePicker)
    (s : St World),
    st_pos (snd (split NT ssi alpha beta bestValue depth threatMove
                   moveCount mp s)) = st_pos s.

Section Body.
Variables search_rec qsearch_rec : SearchFn World.
Hypothesis search_rec_keeps : keeps_position search_rec.
Hypothesis qsearch_rec_keeps : keeps_position qsearch_rec.
Variable NT : NodeType.
Variable ssi : Z.
Variable depth : Depth.

Lemma search_steps_1_5_pos (alpha beta : Value) (p : Position) :
  pos_step (World:=World) p p (search_steps_1_5 NT ssi depth alpha beta) p.
Proof.
  unfold search_steps_1_5, search_step1, search_poll, search_step2,
    search_step3, search_step4, search_step5.
  pos_steps.
Qed.

Lemma search_step6_pos (L : Locals) (p : Position) :
  pos_step p p (search_step6 qsearch_rec NT ssi depth L) p.
Proof. unfold search_step6. pos_steps. Qed.

Lemma search_step7_pos (L : Locals) (p : Position) :
  pos_step (World:=World) p p (search_step7 NT ssi depth L) p.
Proof. unfold search_step7. pos_steps. Qed.

Lemma search_step8_pos (L : Locals) (p : Position) :
  pos_step p p (search_step8 search_rec qsearch_rec NT ssi depth L) p.
Proof. unfold search_step8. pos_steps. Qed.

Lemma search_probcut_moves_pos (fuel : nat) (rbeta : Value) (rdepth : Depth)
  (ci : CheckInfo) (p : Position) :
  forall mp : MovePicker,
  pos_step p p (search_probcut_moves search_rec ssi fuel rbeta rdepth ci mp) p.
Proof.
  induction fuel as [|fuel IH]; intros mp; cbn [search_probcut_moves].
  - pos_steps.
  - pos_steps; apply IH.
Qed.

Lemma search_step9_pos (fuel : nat) (L : Locals) (p : Position) :
  pos_step p p (search_step9 search_rec NT ssi depth fuel L) p.
Proof.
  unfold search_step9. pos_steps. apply search_probcut_moves_pos.
Qed.

Lemma search_step10_pos (L : Locals) (p : Position) :
  pos_step p p (search_step10 search_rec NT ssi depth L) p.
Proof. unfold search_step10. pos_steps. Qed.

Lemma search_child_pos (kind : NodeType) (a b : Value) (d : Depth)
  (p0 p : Position) :
  pos_step p0 p (search_child search_rec qsearch_rec ssi kind a b d) p.
Proof. unfold search_child. pos_steps. Qed.

Lemma search_move_value_pos (L : Locals) (V : LoopVars) (move : Move)
  (newDepth : Depth) (isPvMove captureOrPromotion dangerous : bool)
  (p0 p : Position) :
  pos_step p0 p
    (search_move_value search_rec qsearch_rec NT ssi depth L V move newDepth
       isPvMove captureOrPromotion dangerous) p.
Proof.
  unfold search_move_value, search_reload_alpha.
  pos_steps; try apply search_child_pos.
Qed.

Lemma search_root_update_pos (move : Move) (value alpha : Value)
  (isPvMove : bool) (nodes0 : Z) (p0 p : Position) :
  pos_step (World:=World) p0 p
    (search_root_update NT move value alpha isPvMove nodes0) p.
Proof.
  unfold search_root_update. apply pos_step_bind_get. intros s Hs.
  destruct (RootNode NT && negb (StopRequest (st_glob s)));
    [|apply pos_step_ret].
  destruct (Rml_find (Rml (st_glob s)) move 0); [|apply pos_step_ret].
  destruct (isPvMove || (value >? alpha)).
  - match goal with
    | |- context [extract_pv_from_tt ?rm ?t ?q] =>
        pose proof (extract_pv_undoes undo_do_move rm t q) as Hx;
        destruct (extract_pv_from_tt rm t q) as [rm' pos']
    end.
    cbn [snd] in Hx. rewrite Hs in Hx. subst pos'. pos_steps.
  - pos_steps.
Qed.

Lemma search_new_best_pos (L : Locals) (V : LoopVars) (move : Move)
  (value : Value) (p0 p : Position) :
  pos_step p0 p (search_new_best NT ssi depth L V move value) p.
Proof.
  unfold search_new_best. pos_steps.
  all: intros s1 Hs1;
    match goal with
    | |- context [split ?a ?b ?c ?d ?e ?f ?g ?h ?i ?j] =>
        pose proof (split_keeps a b c d e f g h i j) as Hsplit;
        destruct (split a b c d e f g h i j) as [[bv mp] s2]
    end; cbn in *; congruence.
Qed.

Lemma search_move_pos (L : Locals) (ci : CheckInfo) (futilityBase : Value)
  (singularExtensionNode : bool) (V : LoopVars) (move : Move)
  (p : Position) :
  pos_step p p
    (search_move search_rec qsearch_rec NT ssi depth L ci futilityBase
       singularExtensionNode V move) p.
Proof.
  unfold search_move, search_singular, search_futility.
  pos_steps;
    first [ apply search_move_value_pos
          | apply search_root_update_pos
          | apply search_new_best_pos ].
Qed.

Lemma search_moves_pos (fuel : nat) (L : Locals) (ci : CheckInfo)
  (futilityBase : Value) (singularExtensionNode : bool) (p : Position) :
  forall V : LoopVars,
  pos_step p p
    (search_moves search_rec qsearch_rec NT ssi depth fuel L ci futilityBase
       singularExtensionNode V) p.
Proof.
  induction fuel as [|fuel IH]; intros V; cbn [search_moves].
  - pos_steps.
  - unfold search_next_move.
    pos_steps; first [apply search_move_pos | apply IH].
Qed.

Lemma search_from_moves_pos (fuel : nat) (L : Locals) (p : Position) :
  pos_step p p
    (search_from_moves search_rec qsearch_rec NT ssi depth fuel L) p.
Proof.
  unfold search_from_moves, search_move_loop, search_step20, search_step21.
  pos_steps; apply search_moves_pos.
Qed.

Lemma search_body_pos (fuel : nat) (alpha beta : Value) (p : Position) :
  pos_step p p
    (search_body search_rec qsearch_rec NT ssi depth fuel alpha beta) p.
Proof.
  unfold search_body, search_from_step6, search_from_step7,
    search_from_step8, search_from_step9.
  destruct (SpNode NT).
  - eapply pos_step_bind; [|intros L; apply search_from_moves_pos].
    unfold search_step1. pos_steps.
  - eapply pos_step_bind; [apply search_steps_1_5_pos | intros L].
    eapply pos_step_bind; [apply search_step6_pos | intros L6].
    eapply pos_step_bind; [apply search_step7_pos | intros L7].
    eapply pos_step_bind; [apply search_step8_pos | intros L8].
    eapply pos_step_bind; [apply search_step9_pos | intros L9].
    eapply pos_step_bind; [apply search_step10_pos | intros L10].
    apply search_from_moves_pos.
Qed.

End Body.

Lemma search_keeps (fuel n : nat) :
  keeps_position (search (World:=World) fuel n).
Proof.
  induction n as [|n IH]; intros NT ssi alpha beta depth s s' v Hrun.
  - discriminate Hrun.
  - cbn [search] in Hrun.
    exact (pos_step_run (st_pos s) _
             (search_body_pos (search fuel n) (qsearch fuel n) IH
                (qsearch_keeps undo_do_move_ci fuel n) NT ssi depth fuel
                alpha beta (st_pos s)) s v s' eq_refl Hrun).
Qed.

End SearchPosition.

(** ** The UCI front end *)

Section UciMoreFacts.
Context `{Types} `{PositionOps}.

Lemma set_position_moves_ring (input : list string) :
  forall st : UciState,
  0 <= SetupState st < 102 ->
  0 <= SetupState (set_position_moves input st) < 102.
Proof.
  induction input as [|token rest IH]; intros st Hst; [exact Hst|].
  cbn [set_position_moves].
  destruct (move_from_uci (root_pos st) token =? MOVE_NONE); [exact Hst|].
  apply IH. cbn [SetupState].
  destruct (SetupState st + 1 >=? 102) eqn:Hwrap; [lia|].
  rewrite Z.geb_leb in Hwrap. apply Z.leb_gt in Hwrap. lia.
Qed.

(** X25.  [set_position] keeps the index [SetupState] into the ring of 102
    states inside the ring, whatever the command line is. *)
Theorem set_position_ring (UCI_Chess960 : bool) (st : UciState)
  (input : list string) :
  0 <= SetupState st < 102 ->
  0 <= SetupState (set_position UCI_Chess960 st input) < 102.
Proof.
  intros Hst. unfold set_position.
  destruct (String.eqb (hd EmptyString input) "startpos").
  - apply set_position_moves_ring. exact Hst.
  - destruct (String.eqb (hd EmptyString input) "fen"); [|exact Hst].
    destruct (set_position_fen (tl input) EmptyString) as [fen rest].
    apply set_position_moves_ring. exact Hst.
Qed.

Lemma set_position_fen_acc (pre : list string) :
  ~ In "moves"%string pre ->
  forall (post : list string) (fen : string),
  set_position_fen (pre ++ "moves"%string :: post)%list fen
  = (String.append fen
       (String.concat EmptyString
          (map (fun token => String.append token " ") pre)), post)
  /\ set_position_fen pre fen
     = (String.append fen
          (String.concat EmptyString
             (map (fun token => String.append token " ") pre)), []).
Proof.
  induction pre as [|token pre IH]; intros Hno post fen.
  - cbn. rewrite string_append_empty. split; reflexivity.
  - assert (Htok : String.eqb token "moves" = false).
    { apply String.eqb_neq. intros ->. apply Hno. left. reflexivity. }
    assert (Hno' : ~ In "moves"%string pre)
      by (intros Hin; apply Hno; right; exact Hin).
    cbn [app set_position_fen map]. rewrite Htok.
    destruct (IH Hno' post (String.append fen (String.append token " ")))
      as [Hm He].
    rewrite Hm, He, !string_append_assoc.
    assert (Hcat :
      String.concat EmptyString
        (String.append token " "
           :: map (fun token0 => String.append token0 " ") pre)
      = String.append (String.append token " ")
          (String.concat EmptyString
             (map (fun token0 => String.append token0 " ") pre))).
    { destruct pre as [|t pre']; cbn [map String.concat].
      - rewrite string_append_empty. reflexivity.
      - reflexivity. }
    rewrite Hcat, !string_append_assoc. split; reflexivity.
Qed.

(** X26.  On [position fen ... moves ...] the tokens between fen and
    moves are joined, each followed by one blank, into the FEN string that
    the position is set up from; [SetupState] is left as it is before the
    moves are made. *)
Theorem set_position_fen_spells (UCI_Chess960 : bool) (st : UciState)
  (pre post : list string) :
  ~ In "moves"%string pre ->
  set_position UCI_Chess960 st ("fen"%string :: pre ++ "moves"%string :: post)
  = set_position_moves post
      {| root_pos :=
           from_fen (root_pos st)
             (String.concat EmptyString
                (map (fun token => String.append token " ") pre))
             UCI_Chess960;
         SetupState := SetupState st |}.
Proof.
  intros Hno. unfold set_position. cbn [hd tl].
  change (String.eqb "fen" "startpos") with false.
  change (String.eqb "fen" "fen") with true. cbv iota.
  destruct (set_position_fen_acc pre Hno post EmptyString) as [Hm _].
  rewrite Hm. reflexivity.
Qed.

End UciMoreFacts.

Lemma fold_append_word (l : list string) :
  Forall (fun token => token <> EmptyString) l ->
  forall acc : string, acc <> EmptyString ->
  fold_left append_word l acc = String.concat " " (acc :: l).
Proof.
  intros Hl. induction Hl as [|t l Ht Hl IH]; intros acc Hacc;
    [reflexivity|].
  cbn [fold_left]. unfold append_word at 2.
  replace (String.eqb acc EmptyString) with false
    by (symmetry; apply String.eqb_neq; exact Hacc).
  rewrite IH by (apply string_append_nonempty; exact Hacc).
  destruct l as [|t' l']; cbn [String.concat].
  - reflexivity.
  - rewrite !string_append_assoc. reflexivity.
Qed.

Lemma fold_append_word_empty (l : list string) :
  Forall (fun token => token <> EmptyString) l ->
  fold_left append_word l EmptyString = String.concat " " l.
Proof.
  intros Hl. destruct Hl as [|t l Ht Hl]; [reflexivity|].
  cbn [fold_left]. unfold append_word at 2. cbn.
  apply fold_append_word; assumption.
Qed.

Lemma set_option_name_fold (pre : list string) :
  ~ In "value"%string pre ->
  forall (post : list string) (name : string),
  set_option_name (pre ++ "value"%string :: post)%list name
  = (fold_left append_word pre name, post).
Proof.
  induction pre as [|token pre IH]; intros Hno post name; [reflexivity|].
  cbn [app set_option_name fold_left].
  replace (String.eqb token "value") with false
    by (symmetry; apply String.eqb_neq; intros ->; apply Hno; left;
        reflexivity).
  apply IH. intros Hin. apply Hno. right. exact Hin.
Qed.

Lemma set_option_name_end (pre : list string) :
  ~ In "value"%string pre ->
  forall name : string,
  set_option_name pre name = (fold_left append_word pre name, []).
Proof.
  induction pre as [|token pre IH]; intros Hno name; [reflexivity|].
  cbn [set_option_name fold_left].
  replace (String.eqb token "value") with false
    by (symmetry; apply String.eqb_neq; intros ->; apply Hno; left;
        reflexivity).
  apply IH. intros Hin. apply Hno. right. exact Hin.
Qed.

Lemma set_option_value_fold (post : list string) :
  forall value : string,
  set_option_value post value = fold_left append_word post value.
Proof.
  induction post as [|token post IH]; intros value; [reflexivity|].
  cbn [set_option_value fold_left]. apply IH.
Qed.

Lemma concat_words_empty (l : list string) :
  Forall (fun token => token <> EmptyString) l ->
  String.eqb (String.concat " " l) EmptyString
  = match l with [] => true | _ :: _ => false end.
Proof.
  intros Hl. destruct Hl as [|t l Ht Hl]; [reflexivity|].
  apply String.eqb_neq. destruct l; cbn [String.concat];
    [exact Ht | apply string_append_nonempty; exact Ht].
Qed.

Section SetOptionFacts.
Context {options : UciOptionOps}.

(** X27.  On [setoption name ...], with or without [value ...] after
    the name: the words of the name (those before value, or all of them
    when there is no value) are joined with single blanks into the
    option's name, and the words after value into its value; without
    value, and with nothing after it, the value is true.  A known option
    is set and nothing is printed, an unknown one leaves the options as
    they are and prints No such option with the name. *)
Theorem set_option_joins (first : string) (pre post : list string)
  (Options : OptionsMap) (out : string) :
  Forall (fun token => token <> EmptyString) pre ->
  Forall (fun token => token <> EmptyString) post ->
  ~ In "value"%string pre ->
  let name := String.concat " " pre in
  let result := fun value : string =>
    if option_exists Options name
    then (option_set_value Options name value, out)
    else (Options,
          String.append out
            (String.append "No such option: "
               (String.append name newline))) in
  set_option (first :: pre) Options out = result "true"%string
  /\ set_option (first :: pre ++ "value"%string :: post) Options out
     = result match post with
              | [] => "true"%string
              | _ :: _ => String.concat " " post
              end.
Proof.
  intros Hpre Hpost Hno name result. unfold set_option. cbn [tl]. split.
  - rewrite (set_option_name_end pre Hno EmptyString).
    rewrite (fold_append_word_empty pre Hpre). fold name.
    reflexivity.
  - rewrite (set_option_name_fold pre Hno post EmptyString).
    rewrite (set_option_value_fold post EmptyString).
    rewrite (fold_append_word_empty pre Hpre),
      (fold_append_word_empty post Hpost).
    fold name. rewrite (concat_words_empty post Hpost).
    destruct post; reflexivity.
Qed.

End SetOptionFacts.

Section GoFacts.
Context {types : Types} {position : PositionOps} {stream : StreamOps}
  {table : TableOps} {movegen : MoveGenOps}.

Lemma read_int_length (input : list string) (old : Z) :
  (List.length (snd (read_int input old)) <= List.length input)%nat.
Proof.
  unfold read_int. destruct input as [|token rest]; [cbn; lia|].
  destruct (extract_int token) as [[n remains]|]; [|cbn; lia].
  destruct (String.eqb remains EmptyString); cbn; lia.
Qed.

Lemma go_loop_total (pos : Position) (fuel : nat) :
  forall (input : list string) (G : GoVars),
  (List.length input <= fuel)%nat ->
  exists G' : GoVars, go_loop fuel pos input G = Some G'.
Proof.
  induction fuel as [|fuel IH]; intros input G Hlen;
    destruct input as [|token input]; cbn [go_loop];
    try (eexists; reflexivity); cbn [List.length] in Hlen; [lia|].
  repeat match goal with
  | |- context [if String.eqb token ?w then _ else _] =>
      destruct (String.eqb token w)
  end;
  try (eexists; reflexivity);
  try (apply IH; lia);
  match goal with
  | |- context [read_int ?i ?o] =>
      pose proof (read_int_length i o) as Hr;
      destruct (read_int i o) as [v input']; cbn [snd] in Hr;
      apply IH; lia
  end.
Qed.

Lemma before_after_zero (l : list Move) :
  In 0 l ->
  l = (before_zero l ++ 0 :: after_zero l)%list
  /\ Forall (fun x => x <> 0) (before_zero l).
Proof.
  induction l as [|x l IH]; intros Hin; [destruct Hin|].
  cbn [before_zero after_zero]. destruct (x =? 0) eqn:Hx.
  - apply Z.eqb_eq in Hx. subst x. split; [reflexivity | constructor].
  - apply Z.eqb_neq in Hx. destruct Hin as [Hin | Hin]; [congruence|].
    destruct (IH Hin) as [Heq Hnz]. split.
    + cbn [app]. rewrite <- Heq. reflexivity.
    + constructor; assumption.
Qed.

(** X28.  [go] always hands [think] an array of search moves that ends in
    [MOVE_NONE], so that [RootMoveList::init] on it completes: the root
    moves are the legal moves listed before the first zero of the array,
    or all legal moves when none is listed. *)
Theorem go_then_Rml_init (pos : Position) (limits0 : SearchLimits)
  (input : list string) :
  MOVE_NONE = 0 ->
  ~ In 0 (legal_moves pos) ->
  exists (limits : SearchLimits) (searchMoves : list Move),
    go pos limits0 input = Some (limits, searchMoves)
    /\ Rml_init pos searchMoves
       = Some (map Rml_init_root_move
                 (match before_zero searchMoves with
                  | [] => legal_moves pos
                  | _ :: _ =>
                    filter
                      (fun m => existsb (Z.eqb m) (before_zero searchMoves))
                      (legal_moves pos)
                  end), 0).
Proof.
  intros Hnone Hlegal. unfold go.
  destruct (go_loop_total pos (List.length input) input
              {| go_limits := limits0; go_searchMoves := [];
                 go_time := fun _ => 0; go_inc := fun _ => 0 |}
              (Nat.le_refl _)) as (G & Hrun).
  rewrite Hrun. eexists _, _. split; [reflexivity|].
  set (sm := (go_searchMoves G ++ [MOVE_NONE])%list).
  assert (Hin : In 0 sm).
  { subst sm. apply in_or_app. right. left. exact Hnone. }
  destruct (before_after_zero sm Hin) as [Heq Hnz].
  rewrite Heq at 1.
  unfold Rml_init.
  rewrite (Rml_init_moves_listed (before_zero sm) (after_zero sm)
             (fun m => existsb (Z.eqb m) (before_zero sm)
                       || Nat.eqb (List.length (before_zero sm)) 0
                       || (m =? 0)) Hnz) by reflexivity.
  cbn [app]. do 3 f_equal.
  assert (Hz : forall m, In m (legal_moves pos) -> (m =? 0) = false).
  { intros m Hm. apply Z.eqb_neq. intros ->. contradiction. }
  destruct (before_zero sm) as [|x listed].
  - cbn. apply forallb_filter_id, forallb_forall. reflexivity.
  - apply filter_ext_in. intros m Hm.
    rewrite (Hz m Hm). cbn [List.length Nat.eqb].
    rewrite !orb_false_r. reflexivity.
Qed.

End GoFacts.

(** ** Bounds on what qsearch() returns; the aborted search *)

Section ExecPostFacts.
Context {position : PositionOps} {table : TableOps} {history : HistoryOps}
  {picker : MovePickerOps} {threads : ThreadsOps} {World : Type}.

Lemma exec_post_ret {A : Type} (a : A) (N : A -> Prop) (R : Value -> Prop) :
  N a -> exec_post (ret (World:=World) a) N R.
Proof. intros Ha s. exact Ha. Qed.

Lemma exec_post_return {A : Type} (v : Value) (N : A -> Prop)
  (R : Value -> Prop) :
  R v -> exec_post (return_ (World:=World) (A:=A) v) N R.
Proof. intros Hv s. exact Hv. Qed.

Lemma exec_post_out_of_fuel {A : Type} (N : A -> Prop) (R : Value -> Prop) :
  exec_post (@out_of_fuel _ _ _ _ _ World A) N R.
Proof. intros s. exact I. Qed.

Lemma exec_post_bind {A B : Type} (m : Exec World A) (k : A -> Exec World B)
  (N1 : A -> Prop) (N : B -> Prop) (R : Value -> Prop) :
  exec_post m N1 R ->
  (forall a, N1 a -> exec_post (k a) N R) ->
  exec_post (bind m k) N R.
Proof.
  intros Hm Hk s. specialize (Hm s). unfold bind.
  destruct (m s) as [[a | v |] s1]; cbn in *; [|exact Hm | exact I].
  apply (Hk a Hm s1).
Qed.

Lemma exec_post_bind_get {B : Type} (k : St World -> Exec World B)
  (N : B -> Prop) (R : Value -> Prop) :
  (forall s, exec_post (k s) N R) -> exec_post (bind get k) N R.
Proof. intros Hk s. exact (Hk s s). Qed.

Lemma exec_post_bind_modify {B : Type} (f : St World -> St World)
  (k : unit -> Exec World B) (N : B -> Prop) (R : Value -> Prop) :
  exec_post (k tt) N R -> exec_post (bind (modify f) k) N R.
Proof. intros Hk s. exact (Hk (f s)). Qed.

Lemma exec_post_bind_call {B : Type}
  (f : St World -> option Value * St World) (k : Value -> Exec World B)
  (N : B -> Prop) (R : Value -> Prop) :
  (forall v, exec_post (k v) N R) -> exec_post (bind (call f) k) N R.
Proof.
  intros Hk s. unfold bind, call.
  destruct (f s) as [[v|] s1]; [apply (Hk v s1) | exact I].
Qed.

Lemma exec_post_weaken {A : Type} (m : Exec World A) (N N' : A -> Prop)
  (R R' : Value -> Prop) :
  exec_post m N R -> (forall a, N a -> N' a) -> (forall v, R v -> R' v) ->
  exec_post m N' R'.
Proof.
  intros Hm HN HR s. specialize (Hm s).
  destruct (fst (m s)); [apply HN | apply HR | exact I]; exact Hm.
Qed.

Lemma exec_post_run_return {A : Type} (m : Exec World A) (N : A -> Prop)
  (R : Value -> Prop) (s s' : St World) (v : Value) :
  exec_post m N R -> m s = (Return v, s') -> R v.
Proof. intros Hm Hrun. specialize (Hm s). rewrite Hrun in Hm. exact Hm. Qed.

Lemma exec_post_run_next {A : Type} (m : Exec World A) (N : A -> Prop)
  (R : Value -> Prop) (s s' : St World) (a : A) :
  exec_post m N R -> m s = (Next a, s') -> N a.
Proof. intros Hm Hrun. specialize (Hm s). rewrite Hrun in Hm. exact Hm. Qed.

End ExecPostFacts.

Ltac post_step1 :=
  cbv beta;
  lazymatch goal with
  | |- exec_post (ret _) _ _ => apply exec_post_ret
  | |- exec_post (return_ _) _ _ => apply exec_post_return
  | |- exec_post out_of_fuel _ _ => apply exec_post_out_of_fuel
  | |- exec_post (bind get _) _ _ => apply exec_post_bind_get; intros ?
  | |- exec_post (bind (modify _) _) _ _ => apply exec_post_bind_modify
  | |- exec_post (bind (call _) _) _ _ => apply exec_post_bind_call; intros ?
  | |- exec_post (if ?c then _ else _) _ _ => destruct c eqn:?
  | |- exec_post (match ?x with Some _ => _ | None => _ end) _ _ =>
      destruct x eqn:?
  | |- exec_post (let '(_, _) := ?x in _) _ _ => destruct x eqn:?
  end.

Ltac post_steps := repeat post_step1.

(** Comparisons on [Z] as propositions, for [lia]. *)
Ltac z_props :=
  repeat match goal with
  | H : (_ >? _) = _ |- _ => rewrite Z.gtb_ltb in H
  | H : (_ >=? _) = _ |- _ => rewrite Z.geb_leb in H
  | H : (_ <? _) = true |- _ => apply Z.ltb_lt in H
  | H : (_ <? _) = false |- _ => apply Z.ltb_ge in H
  | H : (_ <=? _) = true |- _ => apply Z.leb_le in H
  | H : (_ <=? _) = false |- _ => apply Z.leb_gt in H
  end.

Section QsearchBound.
Context {types : Types} {position : PositionOps} {bitboards : BitboardOps}
  {table : TableOps} {history : HistoryOps} {picker : MovePickerOps}
  {threads : ThreadsOps} {tables : SearchTables} {World : Type}
  {engine : EngineOps World}.

Lemma check_is_dangerous_victims_grows (pos : Position) (from : Square)
  (futilityBase beta : Value) (fuel : nat) :
  forall (b : Bitboard) (bv bv' : Value),
  check_is_dangerous_victims fuel pos from futilityBase beta b bv
    = Some (Some bv') -> bv <= bv'.
Proof.
  induction fuel as [|fuel IH]; intros b bv bv'; cbn [check_is_dangerous_victims];
    destruct (negb (truthy b)); intros Hrun; try discriminate Hrun;
    try (inversion Hrun; lia).
  destruct (pop_1st_bit b) as [victimSq b'].
  match type of Hrun with
  | (if ?c then _ else _) = _ => destruct c
  end; [discriminate Hrun|].
  apply IH in Hrun.
  match type of Hrun with
  | (if ?c then _ else _) <= _ => destruct c eqn:Hgt
  end; z_props; lia.
Qed.

Lemma check_is_dangerous_grows (pos : Position) (move : Move)
  (futilityBase beta bestValue : Value) (dangerous : bool)
  (bestValue' : Value) :
  check_is_dangerous pos move futilityBase beta bestValue
    = Some (dangerous, bestValue') -> bestValue <= bestValue'.
Proof.
  unfold check_is_dangerous.
  match goal with
  | |- context [if ?c then Some (true, _) else _] => destruct c
  end; [intros Hrun; injection Hrun as _ <-; lia|].
  match goal with
  | |- context [if ?c then Some (true, _) else _] => destruct c
  end; [intros Hrun; injection Hrun as _ <-; lia|].
  match goal with
  | |- context [check_is_dangerous_victims ?f ?p ?fr ?fb ?be ?b ?bv] =>
      pose proof (check_is_dangerous_victims_grows p fr fb be f b bv)
        as Hgrows;
      destruct (check_is_dangerous_victims f p fr fb be b bv)
        as [[bv'|]|]
  end; intros Hrun.
  - injection Hrun as _ <-. apply Hgrows. reflexivity.
  - injection Hrun as _ <-. lia.
  - discriminate Hrun.
Qed.

Section Body.
Variable qsearch_rec : SearchFn World.
Variable NT : NodeType.
Variable ssi : Z.
Variable depth : Depth.

Lemma qsearch_move_grows (ci : CheckInfo) (Q : QLocals) (move : Move) :
  exec_post (qsearch_move qsearch_rec NT ssi depth ci Q move) (q_grows Q)
    (fun _ => False).
Proof.
  unfold qsearch_move. post_steps;
    try (unfold q_grows; cbn; split; [z_props; lia | reflexivity]).
  - unfold q_grows.
    match goal with
    | |- context [if ?c then _ else _] => destruct c eqn:?
    end; cbn; split; z_props; try lia; reflexivity.
  - eapply exec_post_bind
      with (N1 := fun uq : bool * QLocals => q_grows Q (snd uq)).
    + post_steps; try (unfold q_grows; cbn; split; [lia | reflexivity]).
      match goal with
      | H : check_is_dangerous _ _ _ _ _ = Some _ |- _ =>
          apply check_is_dangerous_grows in H
      end.
      unfold q_grows. cbn. split; [assumption | reflexivity].
    + intros [useless Q1] [Hbv Hic]. cbn [snd] in Hbv, Hic.
      post_steps; unfold q_grows.
      * match goal with
        | |- context [if ?c then _ else _] => destruct c eqn:?
        end; cbn; split; z_props; try lia; assumption.
      * split; assumption.
      * cbn. split; [z_props; lia | assumption].
      * split; assumption.
Qed.

Lemma q_grows_trans (Q Q1 Q2 : QLocals) :
  q_grows Q Q1 -> q_grows Q1 Q2 -> q_grows Q Q2.
Proof. unfold q_grows. intros [H1 H2] [H3 H4]. split; [lia | congruence]. Qed.

Lemma qsearch_moves_grows (fuel : nat) (ci : CheckInfo) :
  forall (mp : MovePicker) (Q : QLocals),
  exec_post (qsearch_moves qsearch_rec NT ssi depth fuel ci mp Q) (q_grows Q)
    (fun _ => False).
Proof.
  induction fuel as [|fuel IH]; intros mp Q; cbn [qsearch_moves].
  - post_steps. split; [lia | reflexivity].
  - post_steps; try (split; [lia | reflexivity]).
    eapply exec_post_bind with (N1 := q_grows Q);
      [apply qsearch_move_grows|].
    intros Q1 HQ1 s1. specialize (IH m0 Q1 s1).
    destruct (fst (qsearch_moves qsearch_rec NT ssi depth fuel ci m0 Q1 s1));
      try exact IH.
    exact (q_grows_trans Q Q1 a HQ1 IH).
Qed.

Lemma qsearch_from_moves_bound (fuel : nat) (Q : QLocals) :
  q_inCheck Q = false ->
  exec_post (qsearch_from_moves qsearch_rec NT ssi depth fuel Q)
    (fun _ => False) (fun v => q_bestValue Q <= v).
Proof.
  intros Hcheck. unfold qsearch_from_moves. post_step1.
  eapply exec_post_bind with (N1 := q_grows Q).
  { eapply exec_post_weaken; [apply qsearch_moves_grows | auto |].
    intros ? []. }
  intros Q1 [Hbv Hic]. rewrite Hcheck in Hic. rewrite Hic. cbn [andb].
  post_steps. exact Hbv.
Qed.

Lemma qsearch_body_after_probe (fuel : nat) (alpha beta : Value)
  (s0 s1 : St World) (Q : QLocals) :
  qsearch_probe NT ssi depth alpha beta s0 = (Next Q, s1) ->
  in_check (st_pos s0) = false ->
  let bestValue := fst (qsearch_static Q s1) in
  (beta <= bestValue ->
   fst (qsearch_body qsearch_rec NT ssi depth fuel alpha beta s0)
   = Return bestValue)
  /\ (bestValue < beta ->
      exists (Q1 : QLocals) (s2 : St World),
        q_bestValue Q1 = bestValue /\ q_inCheck Q1 = false
        /\ qsearch_body qsearch_rec NT ssi depth fuel alpha beta s0
           = qsearch_from_moves qsearch_rec NT ssi depth fuel Q1 s2).
Proof.
  intros Hprobe Hcheck bestValue.
  destruct (qsearch_probe_locals ssi depth NT alpha beta s0 s1 Q Hprobe)
    as (Ha & Hb & Hic & Htte & Hpos & Hglob).
  assert (Hbody :
    qsearch_body qsearch_rec NT ssi depth fuel alpha beta s0
    = bind (qsearch_stand_pat NT ssi Q)
        (qsearch_from_moves qsearch_rec NT ssi depth fuel) s1).
  { unfold qsearch_body. rewrite (bind_Next _ _ _ _ _ Hprobe). reflexivity. }
  rewrite Hbody. unfold qsearch_stand_pat. exec_steps.
  rewrite Hic, Hcheck.
  assert (Hstatic :
    match q_tte Q with
    | Some e =>
      (tte_static_value (tt_entry (TT (st_glob s1)) e),
       tte_static_value_margin (tt_entry (TT (st_glob s1)) e))
    | None => evaluate (st_pos s1)
    end = (bestValue, snd (qsearch_static Q s1))).
  { unfold bestValue, qsearch_static.
    destruct (q_tte Q); [reflexivity|].
    destruct (evaluate (st_pos s1)); reflexivity. }
  rewrite Hstatic. exec_steps. rewrite Hb.
  split; intros Hcmp.
  - replace (bestValue >=? beta) with true
      by (symmetry; apply Z.geb_le; lia).
    destruct (q_tte Q); exec_steps; reflexivity.
  - replace (bestValue >=? beta) with false
      by (symmetry; rewrite Z.geb_leb; apply Z.leb_gt; lia).
    exec_steps. eexists _, _. split; [|split; [|reflexivity]].
    + reflexivity.
    + cbn. rewrite Hic. exact Hcheck.
Qed.

(** X23.  Standing pat bounds [qsearch] from below: when the table probe
    gives no cutoff and the side to move is not in check, whatever
    [qsearch] returns is at least the static evaluation of the node. *)
Theorem qsearch_stand_pat_bound (fuel : nat) (alpha beta : Value)
  (s0 s1 s' : St World) (Q : QLocals) (v : Value) :
  qsearch_probe NT ssi depth alpha beta s0 = (Next Q, s1) ->
  in_check (st_pos s0) = false ->
  qsearch_body qsearch_rec NT ssi depth fuel alpha beta s0 = (Return v, s') ->
  fst (qsearch_static Q s1) <= v.
Proof.
  intros Hprobe Hcheck Hrun.
  destruct (qsearch_body_after_probe fuel alpha beta s0 s1 Q Hprobe Hcheck)
    as [Hhigh Hlow].
  destruct (Z_lt_le_dec (fst (qsearch_static Q s1)) beta) as [Hlt | Hge].
  - destruct (Hlow Hlt) as (Q1 & s2 & Hbv & Hic & Hbody).
    rewrite Hbody in Hrun. rewrite <- Hbv.
    exact (exec_post_run_return _ _ _ _ _ _
             (qsearch_from_moves_bound fuel Q1 Hic) Hrun).
  - rewrite Hrun in Hhigh. specialize (Hhigh Hge). cbn in Hhigh.
    inversion Hhigh. lia.
Qed.

End Body.
End QsearchBound.

Section SearchAbort.
Context {types : Types} {position : PositionOps} {bitboards : BitboardOps}
  {table : TableOps} {history : HistoryOps} {picker : MovePickerOps}
  {threads : ThreadsOps} {tables : SearchTables} {World : Type}
  {engine : EngineOps World}.
Variables search_rec qsearch_rec : SearchFn World.
Variable ssi : Z.
Variable depth : Depth.
Variable fuel : nat.

(** X24.  An aborted search: at a node that is neither a root nor a split
    point, when after the poll a stop is requested, the position is a draw
    or the ply is beyond [PLY_MAX], [search] returns [VALUE_DRAW] at once,
    with the position as it was. *)
Theorem search_stop_request (NT : NodeType) (alpha beta : Value)
  (s0 s1 s2 : St World) (L : Locals) (u : unit) :
  SpNode NT = false ->
  RootNode NT = false ->
  search_step1 NT ssi alpha beta s0 = (Next L, s1) ->
  search_poll s1 = (Next u, s2) ->
  StopRequest (st_glob s2) = true
  \/ is_draw false (st_pos s2) = true
  \/ ss_ply (st_ss s2 ssi) > PLY_MAX ->
  search_body search_rec qsearch_rec NT ssi depth fuel alpha beta s0
  = (Return VALUE_DRAW, s2)
  /\ st_pos s2 = st_pos s0.
Proof.
  intros Hsp Hroot H1 Hpoll Hstop.
  split.
  - unfold search_body, search_steps_1_5. rewrite Hsp.
    rewrite !bind_assoc. rewrite (bind_Next _ _ _ _ _ H1).
    rewrite bind_assoc. rewrite (bind_Next _ _ _ _ _ Hpoll).
    rewrite bind_assoc. unfold search_step2. exec_steps.
    rewrite Hroot. cbn [negb]. rewrite andb_true_r.
    replace (StopRequest (st_glob s2) || is_draw false (st_pos s2)
             || (ss_ply (st_ss s2 ssi) >? PLY_MAX)) with true.
    + exec_steps. reflexivity.
    + symmetry. rewrite !orb_true_iff.
      destruct Hstop as [Hs | [Hd | Hp]];
        [left; left; exact Hs | left; right; exact Hd
        | right; apply Z.gtb_lt; lia].
  - destruct (search_poll_frame s1 s2 u Hpoll) as [_ Hp2].
    destruct (search_step1_entry ssi NT alpha beta s0 s1 L Hsp H1)
      as (_ & _ & _ & Hp1).
    congruence.
Qed.

End SearchAbort.

Section QsearchEnds.
Context {types : Types} {position : PositionOps} {bitboards : BitboardOps}
  {table : TableOps} {history : HistoryOps} {picker : MovePickerOps}
  {threads : ThreadsOps} {tables : SearchTables} {World : Type}
  {engine : EngineOps World}.
Variable qsearch_rec : SearchFn World.
Variable NT : NodeType.
Variable ssi : Z.
Variable depth : Depth.

(** X29.  Mate in the quiescence search: when the table probe gives no
    cutoff, the side to move is in check, [beta] is above
    [-VALUE_INFINITE] and the move picker has no move, [qsearch] returns
    [value_mated_in] of the node's ply without storing anything in the
    table, and the position is as it was. *)
Theorem qsearch_checkmate (fuel : nat) (alpha beta : Value)
  (s0 s1 : St World) (Q : QLocals) :
  qsearch_probe NT ssi depth alpha beta s0 = (Next Q, s1) ->
  in_check (st_pos s0) = true ->
  - VALUE_INFINITE < beta ->
  fst (get_next_move
         (MovePicker_qsearch (st_pos s1) (q_ttMove Q) depth (H (st_glob s1))
            (move_to (ss_currentMove (st_ss s1 (ssi - 1)))))
         (st_pos s1) (H (st_glob s1))) = MOVE_NONE ->
  qsearch_body qsearch_rec NT ssi depth (S fuel) alpha beta s0
  = (Return (value_mated_in (ss_ply (st_ss s1 ssi))),
     upd_frame ssi (set_eval VALUE_NONE (ss_evalMargin (st_ss s1 ssi))) s1)
  /\ st_pos s1 = st_pos s0
  /\ TT (st_glob s1) = TT (st_glob s0).
Proof.
  intros Hprobe Hcheck Hbeta Hnone.
  destruct (qsearch_probe_locals ssi depth NT alpha beta s0 s1 Q Hprobe)
    as (Ha & Hb & Hic & Htte & Hpos & Hglob).
  split; [|split; [exact Hpos | rewrite Hglob; reflexivity]].
  unfold qsearch_body. rewrite (bind_Next _ _ _ _ _ Hprobe).
  unfold qsearch_stand_pat. exec_steps. rewrite Hic, Hcheck. exec_steps.
  unfold qsearch_from_moves. exec_steps.
  cbn [st_pos st_glob upd_frame]. rewrite st_ss_upd_frame.
  replace (ssi - 1 =? ssi) with false by (symmetry; apply Z.eqb_neq; lia).
  cbn [qsearch_moves]. cbn [q_bestValue q_beta set_q_eval]. rewrite Hb.
  replace (- VALUE_INFINITE <? beta) with true
    by (symmetry; apply Z.ltb_lt; exact Hbeta).
  cbn [negb]. exec_steps. cbn [st_pos st_glob upd_frame].
  destruct (get_next_move _ _ _) as [move mp] eqn:Hnext.
  cbn [fst] in Hnone. rewrite Hnone, Z.eqb_refl. exec_steps.
  cbn [q_inCheck q_bestValue set_q_eval]. rewrite Hic, Hcheck, Z.eqb_refl.
  cbn [andb]. unfold return_. rewrite st_ss_upd_frame, Z.eqb_refl.
  reflexivity.
Qed.

(** X30.  The table cutoff of [qsearch]: at a non-PV node that is no
    draw and within [PLY_MAX], when the table has an entry for the
    position that [can_return_tt] accepts for the depth
    [DEPTH_QS_CHECKS] (in check, or with [depth >= DEPTH_QS_CHECKS]) or
    [DEPTH_QS_NO_CHECKS] (otherwise), [qsearch] returns the entry's value
    as [value_from_tt] reads it at the node's ply.  The entry's move
    becomes [ss->bestMove]; the position, the table and the other frames
    of the stack are as they were. *)
Theorem qsearch_tt_cutoff (fuel : nat) (alpha beta : Value)
  (s0 : St World) (e : Z) :
  qPvNode NT = false ->
  is_draw true (st_pos s0) = false ->
  ss_ply (st_ss s0 (ssi - 1)) + 1 <= PLY_MAX ->
  tt_probe (TT (st_glob s0)) (get_key (st_pos s0)) = Some e ->
  let ply := ss_ply (st_ss s0 (ssi - 1)) + 1 in
  let tte := tt_entry (TT (st_glob s0)) e in
  let ttDepth :=
    if in_check (st_pos s0) || (depth >=? DEPTH_QS_CHECKS)
    then DEPTH_QS_CHECKS else DEPTH_QS_NO_CHECKS in
  can_return_tt tte ttDepth beta ply = true ->
  exists s' : St World,
    qsearch_body qsearch_rec NT ssi depth fuel alpha beta s0
    = (Return (value_from_tt (tte_value tte) ply), s')
    /\ st_pos s' = st_pos s0
    /\ st_glob s' = st_glob s0
    /\ ss_bestMove (st_ss s' ssi) = tte_move tte
    /\ forall j, j <> ssi -> st_ss s' j = st_ss s0 j.
Proof.
  intros Hpv Hdraw Hply Hprobe ply tte ttDepth Hcan.
  unfold qsearch_body, qsearch_probe. exec_steps.
  cbn [st_pos st_glob upd_frame].
  rewrite !st_ss_upd_frame, Z.eqb_refl.
  replace (ssi - 1 =? ssi) with false by (symmetry; apply Z.eqb_neq; lia).
  cbn [ss_ply set_ply]. fold ply.
  rewrite Hdraw.
  replace (ply >? PLY_MAX) with false
    by (symmetry; rewrite Z.gtb_ltb; apply Z.ltb_ge; exact Hply).
  cbn [orb]. rewrite Hprobe, Hpv. cbn [negb andb]. fold tte ttDepth.
  rewrite Hcan. exec_steps. unfold return_.
  eexists. split; [reflexivity|].
  cbn [st_pos st_glob upd_frame]. repeat split.
  - rewrite st_ss_upd_frame, Z.eqb_refl. reflexivity.
  - intros j Hj. rewrite !st_ss_upd_frame.
    replace (j =? ssi) with false by (symmetry; apply Z.eqb_neq; exact Hj).
    reflexivity.
Qed.

End QsearchEnds.

(** ** Runs on the sample data *)

Section KeepsPosition.
Context {types : Types} {position : PositionOps} {bitboards : BitboardOps}
  {table : TableOps} {history : HistoryOps} {picker : MovePickerOps}
  {threads : ThreadsOps} {tables : SearchTables} {World : Type}
  {engine : EngineOps World}.
Hypothesis undo_do_move_ci :
  forall (p : Position) (m : Move) (ci : CheckInfo) (c : bool),
    undo_move (do_move_ci p m ci c) m = p.

(** X21.  When [undo_move] takes back what [do_move] did, a call of
    [qsearch] that returns a value leaves the position as it found it. *)
Theorem qsearch_keeps_position (fuel n : nat) (NT : NodeType) (ssi : Z)
  (alpha beta : Value) (depth : Depth) (s s' : St World) (v : Value) :
  qsearch fuel n NT ssi alpha beta depth s = (Some v, s') ->
  st_pos s' = st_pos s.
Proof. apply (qsearch_keeps undo_do_move_ci fuel n). Qed.

Hypothesis undo_do_move : forall (p : Position) (m : Move),
  undo_move (do_move p m) m = p.
Hypothesis undo_null_move : forall p : Position,
  do_null_move false (do_null_move true p) = p.
Hypothesis split_keeps :
  forall (NT : NodeType) (ssi : Z) (alpha beta bestValue : Value)
    (depth : Depth) (threatMove : Move) (moveCount : Z) (mp : MovePicker)
    (s : St World),
    st_pos (snd (split NT ssi alpha beta bestValue depth threatMove
                   moveCount mp s)) = st_pos s.

(** X22.  When [undo_move] takes back what [do_move] did, undoing a null
    move takes back the null move and [split] leaves the position alone, a
    call of [search] that returns a value leaves the position as it found
    it. *)
Theorem search_keeps_position (fuel n : nat) (NT : NodeType) (ssi : Z)
  (alpha beta : Value) (depth : Depth) (s s' : St World) (v : Value) :
  search fuel n NT ssi alpha beta depth s = (Some v, s') ->
  st_pos s' = st_pos s.
Proof.
  apply (search_keeps undo_do_move_ci undo_do_move undo_null_move
           split_keeps fuel n).
Qed.

End KeepsPosition.

Section MoreSamples.
#[local] Existing Instance sample_types.

(** A mate score stored at ply 7 and read at ply 3. *)
Lemma value_tt_ply_shift_witness :
  value_from_tt (value_to_tt 29950 7) 3 = 29954.
Proof.
  assert (Hply : 0 <= 7) by lia.
  assert (Hsmall : Z.abs 29950 + 7 + Z.abs 3 < 2 ^ 31)
    by (vm_compute; reflexivity).
  exact (value_tt_ply_shift 29950 7 3 Hply Hsmall).
Defined.

(** An exact entry of depth 10 serves a search of depth 4. *)
Lemma can_return_tt_shallower_witness :
  can_return_tt
    {| tte_move := 0; tte_value := 5; tte_type := 3; tte_depth := 10;
       tte_static_value := 0; tte_static_value_margin := 0 |} 4 100 0
  = true.
Proof.
  apply (can_return_tt_shallower _ 10 4 100 0); [lia | reflexivity].
Defined.

(** A deep entry without a bound gives no cutoff. *)
Lemma can_return_tt_needs_bound_witness :
  can_return_tt
    {| tte_move := 796; tte_value := 5; tte_type := 0; tte_depth := 10;
       tte_static_value := 0; tte_static_value_margin := 0 |} 4 0 0
  = false.
Proof. apply can_return_tt_needs_bound; reflexivity. Defined.

(** A fail high with a won score on the window [84, 116] with delta 16:
    the window is widened and the loop is left. *)
Lemma id_loop_research_window_witness :
  id_loop_research 29990 84 116 16 sample_control
  = (false, (84, 132, 24, sample_control)).
Proof.
  pose proof (id_loop_research_window 29990 84 116 16 sample_control) as Hw.
  destruct (id_loop_research 29990 84 116 16 sample_control)
    as [again [[[a b] d] c]].
  destruct Hw as (Hagain & _ & _ & _ & _ & Hhigh & _); try (cbn; lia).
  destruct Hhigh as (-> & -> & -> & ->); [reflexivity | lia |].
  destruct again; [|reflexivity].
  destruct Hagain as [Hwon _].
  destruct (Hwon eq_refl) as (_ & _ & Hwin). cbn in Hwin. lia.
Defined.

(** One hour, two minutes and three seconds. *)
Lemma time_to_string_clock_witness :
  time_to_string 3723000 = "1:02:03"%string.
Proof.
  assert (Hms : 0 <= 3723000) by lia.
  exact (time_to_string_clock 3723000 Hms).
Defined.

(** Mate in three plies, for and against the side to move. *)
Lemma score_to_uci_mate_witness :
  score_to_uci 29997 (-30001) 30001 = " score mate 2"%string
  /\ score_to_uci (-29997) (-30001) 30001 = " score mate -1"%string.
Proof.
  destruct (score_to_uci_mate 3 (-30001) 30001) as [Hwin Hloss];
    try (cbn; lia).
  split; [apply Hwin | apply Hloss]; cbn; lia.
Defined.

(** Four root moves, of which the third is a blunder. *)
Lemma do_skill_level_no_blunder_witness :
  exists (best' ponder' : Move) (k' : nat),
    do_skill_level 4 0 sample_rml 0 (fun _ => 7) 0 0 0
    = Some (best', ponder', k')
    /\ ((best', ponder') = (0, 0)
        \/ exists c,
             0 <= c < Z.min 4 (Z.of_nat (List.length sample_rml))
             /\ no_blunder_before sample_rml c
             /\ best' = pv0 (nth (Z.to_nat c) sample_rml blank_root_move)
             /\ ponder' = pv1 (nth (Z.to_nat c) sample_rml blank_root_move)).
Proof.
  eexists _, _, _. split.
  - lazy. reflexivity.
  - apply (do_skill_level_no_blunder 4 0 sample_rml 0 (fun _ => 7) 0 0 0 _ _
             2%nat).
    lazy. reflexivity.
Defined.

Section SampleWorld.
#[local] Existing Instance sample_position.
#[local] Existing Instance sample_table.
#[local] Existing Instance sample_movegen.
#[local] Existing Instance sample_options.
#[local] Existing Instance sample_stream.

(** Two of three legal moves are listed; 796 follows the zero. *)
Lemma Rml_init_listed_witness :
  Rml_init sample_three [3364; 100; 0; 796]
  = Some (map Rml_init_root_move [3364; 100], 0).
Proof.
  assert (Hlisted : Forall (fun x => x <> 0) [3364; 100])
    by (repeat (constructor; [discriminate|]); constructor).
  assert (Hlegal : ~ In 0 (legal_moves sample_three))
    by (intros [Hin | [Hin | [Hin | []]]]; discriminate Hin).
  exact (Rml_init_listed sample_three [3364; 100] [796] Hlisted Hlegal).
Defined.

(** Pondering far beyond the maximum time, on an unknown command. *)
Lemma poll_pondering_witness :
  tc_StopRequest
    (poll_body (position:=sample_position) (sample_poll_world (InputLine "isready")) sample_start
       sample_control) = false
  /\ ponder
       (tc_Limits
          (poll_body (position:=sample_position) (sample_poll_world (InputLine "isready")) sample_start
             sample_control)) = true.
Proof.
  destruct (poll_pondering (position:=sample_position) (sample_poll_world (InputLine "isready"))
              sample_start sample_control) as (Hstop & _ & Hlimits).
  - cbn. repeat split; discriminate.
  - reflexivity.
  - rewrite Hstop, Hlimits. split; reflexivity.
Defined.

(** A ponderhit with [StopOnPonderhit] set. *)
Lemma poll_ponderhit_witness :
  tc_StopRequest
    (poll_body (position:=sample_position) (sample_poll_world (InputLine "ponderhit")) sample_start
       sample_control) = true.
Proof.
  destruct (poll_ponderhit (position:=sample_position) (sample_poll_world (InputLine "ponderhit"))
              sample_start sample_control eq_refl) as (_ & Hstop & _).
  apply Hstop. reflexivity.
Defined.

(** Two moves from the last state of the ring. *)
Lemma set_position_ring_witness :
  0 <= SetupState
         (set_position false (@Build_UciState sample_position sample_start 101)
            ["startpos"; "moves"; "e2e4"; "e7e5"]%string) < 102.
Proof. apply set_position_ring. cbn. lia. Defined.

(** A FEN of two tokens and one move. *)
Lemma set_position_fen_spells_witness :
  set_position false (@Build_UciState sample_position sample_start 0)
    ["fen"; "8/8/8/8"; "w"; "moves"; "e2e4"]%string
  = set_position_moves ["e2e4"%string]
      (@Build_UciState sample_position
         (from_fen sample_start "8/8/8/8 w "%string false) 0).
Proof.
  apply (set_position_fen_spells false
           (@Build_UciState sample_position sample_start 0)
           ["8/8/8/8"; "w"]%string ["e2e4"%string]).
  intros [Hin | [Hin | []]]; discriminate Hin.
Defined.

(** A button, without a value and with one. *)
Lemma set_option_joins_witness :
  set_option ["name"; "Clear"; "Hash"]%string
    [("Clear Hash", "false")]%string EmptyString
  = ([("Clear Hash", "true")]%string, EmptyString)
  /\ set_option ["name"; "Clear"; "Hash"; "value"; "now"]%string
       [("Clear Hash", "false")]%string EmptyString
     = ([("Clear Hash", "now")]%string, EmptyString).
Proof.
  assert (Hpre : Forall (fun token => token <> EmptyString)
                   ["Clear"; "Hash"]%string)
    by (repeat (constructor; [discriminate|]); constructor).
  assert (Hpost : Forall (fun token => token <> EmptyString) ["now"]%string)
    by (repeat (constructor; [discriminate|]); constructor).
  assert (Hno : ~ In "value"%string ["Clear"; "Hash"]%string)
    by (intros [Hin | [Hin | []]]; discriminate Hin).
  exact (set_option_joins "name" ["Clear"; "Hash"]%string ["now"]%string
           [("Clear Hash", "false")]%string EmptyString Hpre Hpost Hno).
Defined.

(** A depth limit and one search move. *)
Lemma go_then_Rml_init_witness :
  go (position:=sample_position) sample_three sample_limits
    ["depth"; "5"; "searchmoves"; "e7e5"]%string
  = Some (set_maxDepth 5 sample_limits, [3364; 0])
  /\ Rml_init sample_three [3364; 0]
     = Some ([Rml_init_root_move 3364], 0).
Proof.
  destruct (go_then_Rml_init (position:=sample_position) sample_three sample_limits
              ["depth"; "5"; "searchmoves"; "e7e5"]%string)
    as (limits & searchMoves & Hgo & Hinit).
  - reflexivity.
  - intros [Hin | [Hin | [Hin | []]]]; discriminate Hin.
  - assert (Hrun :
      go (position:=sample_position) sample_three sample_limits
        ["depth"; "5"; "searchmoves"; "e7e5"]%string
      = Some (set_maxDepth 5 sample_limits, [3364; 0]))
      by (vm_compute; reflexivity).
    rewrite Hrun in Hgo. injection Hgo as <- <-.
    split; [exact Hrun | exact Hinit].
Defined.

End SampleWorld.

Section LineWorld.
#[local] Existing Instance line_position.
#[local] Existing Instance sample_bitboards.
#[local] Existing Instance sample_table.
#[local] Existing Instance sample_history.
#[local] Existing Instance line_picker.
#[local] Existing Instance sample_threads.
#[local] Existing Instance sample_tables.
#[local] Existing Instance line_engine.
#[local] Existing Instance line_movegen.

Lemma line_undo_do_move_ci :
  forall (p : Position) (m : Move) (ci : CheckInfo) (c : bool),
    undo_move (do_move_ci p m ci c) m = p.
Proof. reflexivity. Qed.

Lemma line_undo_do_move :
  forall (p : Position) (m : Move), undo_move (do_move p m) m = p.
Proof. reflexivity. Qed.

Lemma line_undo_null_move :
  forall p : Position, do_null_move false (do_null_move true p) = p.
Proof. reflexivity. Qed.

Lemma line_split_keeps :
  forall (NT : NodeType) (ssi : Z) (alpha beta bestValue : Value)
    (depth : Depth) (threatMove : Move) (moveCount : Z) (mp : MovePicker)
    (s : St unit),
    st_pos (snd (split NT ssi alpha beta bestValue depth threatMove
                   moveCount mp s)) = st_pos s.
Proof. reflexivity. Qed.

(** The table knows the reply 3364 to 796. *)
Lemma extract_pv_from_tt_restores_witness :
  extract_pv_from_tt (position:=line_position) (table:=sample_table)
    {| nodes := 0; score := 0; prevScore := 0; pv := [796; 0] |}
    line_known []
  = ({| nodes := 0; score := 0; prevScore := 0; pv := [796; 3364; 0] |}, []).
Proof.
  rewrite (surjective_pairing
             (extract_pv_from_tt (position:=line_position)
                (table:=sample_table) _ line_known [])).
  rewrite (extract_pv_from_tt_restores (table:=sample_table)
             line_undo_do_move).
  reflexivity.
Defined.

(** A line of two moves into the empty table. *)
Lemma insert_pv_in_tt_restores_witness :
  option_map snd
    (insert_pv_in_tt (position:=line_position) (table:=sample_table)
       {| nodes := 0; score := 0; prevScore := 0; pv := [796; 3364; 0] |}
       [] [])
  = Some [].
Proof.
  destruct (insert_pv_in_tt_restores (table:=sample_table)
              line_undo_do_move
              {| nodes := 0; score := 0; prevScore := 0;
                 pv := [796; 3364; 0] |} [] [] 796 [3364] [])
    as (tbl' & Hrun).
  - reflexivity.
  - repeat (constructor; [discriminate|]); constructor.
  - rewrite Hrun. reflexivity.
Defined.

(** A line of two moves that the table knows already. *)
Lemma insert_pv_in_tt_keeps_witness :
  option_map fst
    (insert_pv_in_tt (position:=line_position) (table:=sample_table)
       {| nodes := 0; score := 0; prevScore := 0; pv := [796; 3364; 0] |}
       line_known [])
  = Some line_known.
Proof.
  apply (insert_pv_in_tt_keeps (position:=line_position)
           (table:=sample_table) _ line_known [] 796 [3364] []).
  - reflexivity.
  - repeat (constructor; [discriminate|]); constructor.
  - constructor; [exists 1; split; reflexivity|].
    constructor; [exists 0; split; reflexivity|].
    constructor.
Defined.

(** Two plies with two legal moves each. *)
Lemma perft_counts_lines_witness :
  perft (movegen:=line_movegen) 3 [] 4 = Some (4, []).
Proof.
  assert (Hply : 0 < ONE_PLY) by (cbn; lia).
  assert (Hfuel : (perft_plies 4%Z <= 3)%nat) by (vm_compute; lia).
  exact (perft_counts_lines (movegen:=line_movegen) Hply
           line_undo_do_move_ci 3 [] 4 Hfuel).
Defined.

(** A quiescence search that tries moves. *)
Lemma qsearch_keeps_position_witness :
  st_pos (snd (qsearch 8 4 PV 1 (-2000) 2000 0 (line_state []))) = [].
Proof.
  assert (Hv : fst (qsearch 8 4 PV 1 (-2000) 2000 0 (line_state []))
               = Some (-204)) by (vm_compute; reflexivity).
  pose proof (surjective_pairing
                (qsearch 8 4 PV 1 (-2000) 2000 0 (line_state []))) as Hrun.
  rewrite Hv in Hrun.
  exact (qsearch_keeps_position line_undo_do_move_ci 8 4 PV 1 (-2000) 2000
           0 (line_state []) _ (-204) Hrun).
Defined.

(** A search of two plies. *)
Lemma search_keeps_position_witness :
  st_pos (snd (search 8 6 PV 1 (-2000) 2000 4 (line_state []))) = [].
Proof.
  assert (Hv : fst (search 8 6 PV 1 (-2000) 2000 4 (line_state []))
               = Some (-204)) by (vm_compute; reflexivity).
  pose proof (surjective_pairing
                (search 8 6 PV 1 (-2000) 2000 4 (line_state []))) as Hrun.
  rewrite Hv in Hrun.
  exact (search_keeps_position line_undo_do_move_ci line_undo_do_move
           line_undo_null_move line_split_keeps 8 6 PV 1 (-2000) 2000 4
           (line_state []) _ (-204) Hrun).
Defined.

(** The evaluation is -1000 and the search finds -204. *)
Lemma qsearch_stand_pat_bound_witness :
  exists (Q : QLocals) (s1 : St unit),
    qsearch_probe PV 1 0 (-2000) 2000 (line_state []) = (Next Q, s1)
    /\ fst (qsearch_body (qsearch 8 3) PV 1 0 8 (-2000) 2000 (line_state []))
       = Return (-204)
    /\ fst (qsearch_static Q s1) <= -204.
Proof.
  assert (HQ : exists Q,
            fst (qsearch_probe PV 1 0 (-2000) 2000 (line_state []))
            = Next Q) by (eexists; lazy; reflexivity).
  destruct HQ as [Q HQ].
  assert (Hv : fst (qsearch_body (qsearch 8 3) PV 1 0 8 (-2000) 2000
                      (line_state [])) = Return (-204))
    by (vm_compute; reflexivity).
  pose proof (surjective_pairing
                (qsearch_probe PV 1 0 (-2000) 2000 (line_state []))) as Hp.
  rewrite HQ in Hp.
  pose proof (surjective_pairing
                (qsearch_body (qsearch 8 3) PV 1 0 8 (-2000) 2000
                   (line_state []))) as Hb.
  rewrite Hv in Hb.
  exists Q, (snd (qsearch_probe PV 1 0 (-2000) 2000 (line_state []))).
  split; [exact Hp | split; [exact Hv|]].
  exact (qsearch_stand_pat_bound (qsearch 8 3) PV 1 0 8 (-2000) 2000
           (line_state []) _ _ Q (-204) Hp eq_refl Hb).
Defined.

End LineWorld.

Section StandPatSamples.
#[local] Existing Instance sample_position.
#[local] Existing Instance sample_bitboards.
#[local] Existing Instance sample_table.
#[local] Existing Instance sample_history.
#[local] Existing Instance sample_picker.
#[local] Existing Instance sample_threads.
#[local] Existing Instance sample_tables.
#[local] Existing Instance sample_engine.

(** A node reached after the stop request. *)
Lemma search_stop_request_witness :
  fst (search_body sample_rec sample_rec NonPV 1 2 64 (-100) 100
         sample_stopped) = Return 0.
Proof.
  edestruct (search_stop_request sample_rec sample_rec 1 2 64 NonPV (-100)
               100 sample_stopped) as [Hrun _].
  - reflexivity.
  - reflexivity.
  - lazy. reflexivity.
  - lazy. reflexivity.
  - left. reflexivity.
  - rewrite Hrun. reflexivity.
Defined.

(** A node in check without a move, at ply 1. *)
Lemma qsearch_checkmate_witness :
  fst (qsearch_body sample_rec NonPV 1 0 1 (-100) 100
         (sample_state sample_mated [])) = Return (-29999).
Proof.
  edestruct (qsearch_checkmate sample_rec NonPV 1 0 0 (-100) 100
               (sample_state sample_mated [])) as [Hrun _].
  - lazy. reflexivity.
  - reflexivity.
  - cbn. lia.
  - reflexivity.
  - rewrite Hrun. reflexivity.
Defined.

(** An upper bound of 60 below [beta = 100], deep enough at depth -6. *)
Lemma qsearch_tt_cutoff_witness :
  fst (qsearch_body sample_rec NonPV 1 (-6) 64 9 100
         (sample_state sample_quiet sample_known)) = Return 60.
Proof.
  edestruct (qsearch_tt_cutoff sample_rec NonPV 1 (-6) 64 9 100
               (sample_state sample_quiet sample_known) 0)
    as (s' & Hrun & _).
  - reflexivity.
  - reflexivity.
  - vm_compute. discriminate.
  - reflexivity.
  - reflexivity.
  - rewrite Hrun. reflexivity.
Defined.

End StandPatSamples.

End MoreSamples.
